(** * pi-diff-ui: diff engine, inline view, review modal and overlay shell

    A shallow embedding of the TypeScript sources
    [src/diff-engine.ts], [src/diff-state.ts], [src/inline-view.ts],
    [src/modal.ts] and [src/overlay.ts], followed by the properties the
    specification states about them.

    Conventions of the embedding:
    - a JavaScript string is the list of its UTF-16 code units ([jsstring]);
    - a JavaScript number that the program uses as an index, a count or a
      line number is an integer ([Z]);
    - an optional field ([x?: number]) is an [option];
    - a mutable object is a record, a method is a function from the record
      to the updated record (and the returned value, when there is one);
    - an operation that can throw returns a [Result]. *)

From Stdlib Require Import ZArith NArith List Bool String Ascii Lia DecimalString.
Import ListNotations.
Open Scope Z_scope.

(* ===================================================================== *)
(** ** JavaScript primitives used by the sources *)
(* ===================================================================== *)

Module JS.

(** UTF-16 code unit. *)
Definition code_unit := N.
Definition jsstring := list code_unit.

(** An ASCII literal of the source as a [jsstring]. *)
Definition lit (s : string) : jsstring :=
  map N_of_ascii (list_ascii_of_string s).

Definition ESC : code_unit := 27%N.      (* '\x1b' *)
Definition ch_m : code_unit := 109%N.    (* 'm' *)
Definition ch_lbracket : code_unit := 91%N. (* '[' *)
Definition ch_semi : code_unit := 59%N.  (* ';' *)
Definition ch_space : code_unit := 32%N. (* ' ' *)
Definition ch_plus : code_unit := 43%N.  (* '+' *)
Definition ch_minus : code_unit := 45%N. (* '-' *)

(** [Math.min], [Math.max] on integers. *)
Definition Math_min (a b : Z) : Z := if a <? b then a else b.
Definition Math_max (a b : Z) : Z := if a <? b then b else a.

(** [a ?? b]. *)
Definition nullish {A} (a b : option A) : option A :=
  match a with Some _ => a | None => b end.

(** [a ?? d] with a default that is always defined. *)
Definition nullish_or {A} (a : option A) (d : A) : A :=
  match a with Some x => x | None => d end.

(** [n.toString()] for an integer [n]. *)
Definition toString (z : Z) : jsstring :=
  lit (NilZero.string_of_int (Z.to_int z)).

(** [s.length]. *)
Definition len {A} (l : list A) : Z := Z.of_nat (List.length l).

(** [c.repeat(n)] for [n >= 0]. *)
Definition repeat_str (s : jsstring) (n : nat) : jsstring :=
  List.concat (List.repeat s n).

(** [s.padStart(w, ' ')]. *)
Definition padStart (s : jsstring) (w : Z) : jsstring :=
  List.repeat ch_space (Z.to_nat (w - len s)) ++ s.

Fixpoint startsWith (s p : jsstring) : bool :=
  match p, s with
  | [], _ => true
  | _ :: _, [] => false
  | b :: p', a :: s' => N.eqb a b && startsWith s' p'
  end.

(** [s.includes(p)]. *)
Fixpoint includes (s p : jsstring) : bool :=
  startsWith s p ||
  match s with
  | [] => false
  | _ :: s' => includes s' p
  end.

(** [s.endsWith(p)]. *)
Definition endsWith (s p : jsstring) : bool :=
  startsWith (rev s) (rev p).

(** [a.slice(start, end)], with the relative indexing JavaScript applies
    to negative arguments. *)
Definition slice_index (n i : Z) : Z :=
  if i <? 0 then Math_max (n + i) 0 else Math_min i n.

Definition slice {A} (l : list A) (start stop : Z) : list A :=
  let k := slice_index (len l) start in
  let final := slice_index (len l) stop in
  firstn (Z.to_nat (Math_max (final - k) 0)) (skipn (Z.to_nat k) l).

(** [a.map((x, index) => f(x, index))]. *)
Fixpoint mapi_from {A B} (f : A -> Z -> B) (i : Z) (l : list A) : list B :=
  match l with
  | [] => []
  | x :: l' => f x i :: mapi_from f (i + 1) l'
  end.

Definition mapi {A B} (f : A -> Z -> B) (l : list A) : list B :=
  mapi_from f 0 l.

(** [a[i]] : [undefined] ([None]) outside the bounds. *)
Definition index {A} (l : list A) (i : Z) : option A :=
  if i <? 0 then None else nth_error l (Z.to_nat i).

(** The integers [lo, lo+1, ..., hi] visited by
    [for (let i = lo; i <= hi; i++)]. *)
Definition for_range (lo hi : Z) : list Z :=
  map (fun k => lo + Z.of_nat k) (seq 0 (Z.to_nat (hi - lo + 1))).

(** Outcome of code that may throw. *)
Inductive Result (A : Type) : Type :=
| Ok (a : A)
| Throw (error : string).
Arguments Ok {A} a.
Arguments Throw {A} error.

Definition bind {A B} (r : Result A) (k : A -> Result B) : Result B :=
  match r with
  | Ok a => k a
  | Throw e => Throw e
  end.

(** [s.repeat(count)], which throws a [RangeError] on a negative count. *)
Definition repeat_checked (s : jsstring) (count : Z) : Result jsstring :=
  if count <? 0 then Throw "RangeError" else Ok (repeat_str s (Z.to_nat count)).

End JS.

Import JS.

Notation "x <- r ;; k" := (bind r (fun x => k))
  (at level 61, r at next level, right associativity).

(* ===================================================================== *)
(** ** src/diff-engine.ts *)
(* ===================================================================== *)

Module DiffEngine.

Inductive LineType := added | removed | context.

Record DiffLine := mkDiffLine {
  type : LineType;
  content : jsstring;
  oldLineNumber : option Z;
  newLineNumber : option Z
}.

Record FileDiff := mkFileDiff {
  filePath : jsstring;
  isNewFile : bool;
  hunks : list DiffLine;
  additions : Z;
  deletions : Z
}.

(** One hunk of the external library's [structuredPatch] result. *)
Record PatchHunk := mkPatchHunk {
  oldStart : Z;
  newStart : Z;
  lines : list jsstring
}.

Definition str_eqb (a b : jsstring) : bool :=
  if list_eq_dec N.eq_dec a b then true else false.

Section ComputeDiff.

(** [Diff.structuredPatch(filePath, filePath, original, current, undefined,
    undefined, { context: 3 }).hunks]: the external diff library. *)
Variable structuredPatch : jsstring -> jsstring -> jsstring -> list PatchHunk.

(** Loop state of [computeDiff]. *)
Record Acc := mkAcc {
  acc_hunks : list DiffLine;
  acc_additions : Z;
  acc_deletions : Z
}.

(** The inner loop [for (const line of hunk.lines)]. *)
Fixpoint processLines (ls : list jsstring) (oldLineNum newLineNum : Z) (a : Acc) : Acc :=
  match ls with
  | [] => a
  | line :: rest =>
    let firstChar := hd_error line in
    let content := tl line in
    match firstChar with
    | Some c =>
      if N.eqb c ch_plus then
        processLines rest oldLineNum (newLineNum + 1)
          (mkAcc (acc_hunks a ++ [mkDiffLine added content None (Some newLineNum)])
                 (acc_additions a + 1) (acc_deletions a))
      else if N.eqb c ch_minus then
        processLines rest (oldLineNum + 1) newLineNum
          (mkAcc (acc_hunks a ++ [mkDiffLine removed content (Some oldLineNum) None])
                 (acc_additions a) (acc_deletions a + 1))
      else
        processLines rest (oldLineNum + 1) (newLineNum + 1)
          (mkAcc (acc_hunks a ++ [mkDiffLine context content (Some oldLineNum) (Some newLineNum)])
                 (acc_additions a) (acc_deletions a))
    | None =>
        processLines rest (oldLineNum + 1) (newLineNum + 1)
          (mkAcc (acc_hunks a ++ [mkDiffLine context content (Some oldLineNum) (Some newLineNum)])
                 (acc_additions a) (acc_deletions a))
    end
  end.

(** The outer loop [for (const hunk of patches.hunks)]. *)
Fixpoint processHunks (hs : list PatchHunk) (a : Acc) : Acc :=
  match hs with
  | [] => a
  | hunk :: rest =>
    processHunks rest (processLines (lines hunk) (oldStart hunk) (newStart hunk) a)
  end.

Definition computeDiff (filePath original current : jsstring) : FileDiff :=
  let isNewFile := str_eqb original [] && negb (str_eqb current []) in
  if str_eqb original [] && str_eqb current [] then
    mkFileDiff filePath false [] 0 0
  else
    let patches := structuredPatch filePath original current in
    let a := processHunks patches (mkAcc [] 0 0) in
    mkFileDiff filePath isNewFile (acc_hunks a) (acc_additions a) (acc_deletions a).

End ComputeDiff.

End DiffEngine.

Import DiffEngine.

(* ===================================================================== *)
(** ** src/inline-view.ts *)
(* ===================================================================== *)

Module InlineView.

Definition HighlightFn := jsstring -> jsstring -> jsstring.

Record RenderedLine := mkRenderedLine {
  content : jsstring;     (* full ANSI-colored line *)
  rawContent : jsstring   (* without ANSI codes *)
}.

(** The fields of [class InlineDiffView]. *)
Record InlineDiffView := mkView {
  diff : FileDiff;
  highlightFn : option HighlightFn;
  renderedLines : list RenderedLine;
  _scrollOffset : Z;
  _cursorLine : Z;
  _lineToHunkIndex : list Z;
  _visualMode : bool;
  _visualAnchor : Z
}.

Definition RESET : jsstring := ESC :: lit "[0m".
Definition GREEN : jsstring := ESC :: lit "[32m".
Definition RED : jsstring := ESC :: lit "[31m".
Definition DIM : jsstring := ESC :: lit "[2m".
Definition BG_ON : jsstring := ESC :: lit "[48;5;236m".
Definition BG_OFF : jsstring := ESC :: lit "[49m".
(** The three middle dots (U+00B7) of the separator row. *)
Definition DOTS : jsstring := [183%N; 183%N; 183%N].

(** [hunk.newLineNumber ?? hunk.oldLineNumber]. *)
Definition anchor (h : DiffLine) : option Z :=
  nullish (newLineNumber h) (oldLineNumber h).

Definition getMaxLineNumber (d : FileDiff) : Z :=
  fold_left (fun max hunk => Math_max max (nullish_or (anchor hunk) 0)) (hunks d) 0.

Definition renderHunk (hl : option HighlightFn) (path : jsstring)
    (hunk : DiffLine) (lineNumberWidth : Z) : RenderedLine :=
  let lineNumber := nullish_or (anchor hunk) 0 in
  let lineNumStr := padStart (toString lineNumber) lineNumberWidth in
  let '(prefix, color, content) :=
    match type hunk with
    | added => (lit "+", GREEN, DiffEngine.content hunk)
    | removed => (lit "-", RED, DiffEngine.content hunk)
    | context =>
      (lit " ", DIM,
       match hl with
       | Some f => f (DiffEngine.content hunk) path
       | None => DiffEngine.content hunk
       end)
    end in
  let fullContent := color ++ lineNumStr ++ lit " " ++ prefix ++ lit " " ++ content ++ RESET in
  let rawContent := lineNumStr ++ lit " " ++ prefix ++ lit " " ++ DiffEngine.content hunk in
  mkRenderedLine fullContent rawContent.

Definition createSeparatorLine : RenderedLine :=
  mkRenderedLine (DIM ++ DOTS ++ RESET) DOTS.

(** The loop of [buildRenderedLines]: [i] is the index of the head of
    [hs] in [diff.hunks], [previousLineNumber] the loop variable of the
    source, [rl] and [idx] the two arrays being filled. *)
Fixpoint buildLoop (hl : option HighlightFn) (path : jsstring) (lineNumberWidth : Z)
    (hs : list DiffLine) (i : Z) (previousLineNumber : option Z)
    (rl : list RenderedLine) (idx : list Z) : list RenderedLine * list Z :=
  match hs with
  | [] => (rl, idx)
  | hunk :: rest =>
    let currentLineNumber := anchor hunk in
    let '(rl1, idx1) :=
      match previousLineNumber, currentLineNumber with
      | Some p, Some c =>
        if c >? p + 1 then (rl ++ [createSeparatorLine], idx ++ [-1])
        else (rl, idx)
      | _, _ => (rl, idx)
      end in
    let rl2 := rl1 ++ [renderHunk hl path hunk lineNumberWidth] in
    let idx2 := idx1 ++ [i] in
    let previousLineNumber' :=
      match currentLineNumber with
      | Some c => Some c
      | None => previousLineNumber
      end in
    buildLoop hl path lineNumberWidth rest (i + 1) previousLineNumber' rl2 idx2
  end.

(** [buildRenderedLines]: the two arrays it leaves in the object. *)
Definition buildRenderedLines (hl : option HighlightFn) (d : FileDiff)
    : list RenderedLine * list Z :=
  match hunks d with
  | [] => ([], [])
  | _ =>
    let maxLineNumber := getMaxLineNumber d in
    let lineNumberWidth := len (toString maxLineNumber) in
    buildLoop hl (filePath d) lineNumberWidth (hunks d) 0 None [] []
  end.

(** [new InlineDiffView(diff, highlightFn)]. *)
Definition new (d : FileDiff) (hl : option HighlightFn) : InlineDiffView :=
  let '(rl, idx) := buildRenderedLines hl d in
  mkView d hl rl 0 0 idx false 0.

Definition cursorLine (v : InlineDiffView) : Z := _cursorLine v.
Definition isVisualMode (v : InlineDiffView) : bool := _visualMode v.
Definition visualAnchor (v : InlineDiffView) : Z := _visualAnchor v.
Definition totalLines (v : InlineDiffView) : Z := len (renderedLines v).
Definition scrollOffset (v : InlineDiffView) : Z := _scrollOffset v.

Definition enterVisualMode (v : InlineDiffView) : InlineDiffView :=
  mkView (diff v) (highlightFn v) (renderedLines v) (_scrollOffset v)
         (_cursorLine v) (_lineToHunkIndex v) true (_cursorLine v).

Definition exitVisualMode (v : InlineDiffView) : InlineDiffView :=
  mkView (diff v) (highlightFn v) (renderedLines v) (_scrollOffset v)
         (_cursorLine v) (_lineToHunkIndex v) false (_visualAnchor v).

Definition getVisualRange (v : InlineDiffView) : Z * Z :=
  let min := Math_min (_visualAnchor v) (_cursorLine v) in
  let max := Math_max (_visualAnchor v) (_cursorLine v) in
  (min, max).

(** [getSelectedRawLines]: reading [.rawContent] of [renderedLines[i]]
    throws when the element is [undefined]. *)
Fixpoint selectedRawLoop (rl : list RenderedLine) (ixs : list Z)
    (selectedLines : list jsstring) : Result (list jsstring) :=
  match ixs with
  | [] => Ok selectedLines
  | i :: rest =>
    if (i >=? 0) && (i <? len rl) then
      match index rl i with
      | Some line => selectedRawLoop rl rest (selectedLines ++ [rawContent line])
      | None => Throw "TypeError"
      end
    else selectedRawLoop rl rest selectedLines
  end.

Definition getSelectedRawLines (v : InlineDiffView) : Result (list jsstring) :=
  let '(min, max) := getVisualRange v in
  selectedRawLoop (renderedLines v) (for_range min max) [].

(** [getSelectedDiffLines]: [diff.hunks[hunkIndex]] is pushed as it is,
    so an element of the result is [None] where that read is [undefined]. *)
Fixpoint selectedDiffLoop (v : InlineDiffView) (ixs : list Z)
    (selectedDiffLines : list (option DiffLine)) : list (option DiffLine) :=
  match ixs with
  | [] => selectedDiffLines
  | i :: rest =>
    if (i >=? 0) && (i <? len (_lineToHunkIndex v)) then
      match index (_lineToHunkIndex v) i with
      | Some hunkIndex =>
        if negb (hunkIndex =? -1) then
          selectedDiffLoop v rest (selectedDiffLines ++ [index (hunks (diff v)) hunkIndex])
        else selectedDiffLoop v rest selectedDiffLines
      | None => selectedDiffLoop v rest selectedDiffLines
      end
    else selectedDiffLoop v rest selectedDiffLines
  end.

Definition getSelectedDiffLines (v : InlineDiffView) : list (option DiffLine) :=
  let '(min, max) := getVisualRange v in
  selectedDiffLoop v (for_range min max) [].

Definition setDiff (v : InlineDiffView) (d : FileDiff) : InlineDiffView :=
  let '(rl, idx) := buildRenderedLines (highlightFn v) d in
  mkView d (highlightFn v) rl 0 0 idx false (_visualAnchor v).

Definition setCursor (v : InlineDiffView) (line : Z) : InlineDiffView :=
  let maxLine := Math_max 0 (len (renderedLines v) - 1) in
  mkView (diff v) (highlightFn v) (renderedLines v) (_scrollOffset v)
         (Math_max 0 (Math_min line maxLine))
         (_lineToHunkIndex v) (_visualMode v) (_visualAnchor v).

Definition moveCursor (v : InlineDiffView) (delta : Z) : InlineDiffView :=
  let newCursor := _cursorLine v + delta in
  setCursor v newCursor.

Definition getCursorDiffLine (v : InlineDiffView) : option DiffLine :=
  match renderedLines v with
  | [] => None
  | _ =>
    match index (_lineToHunkIndex v) (_cursorLine v) with
    | None => None
    | Some hunkIndex =>
      if hunkIndex =? -1 then None else index (hunks (diff v)) hunkIndex
    end
  end.

Definition isSeparatorLine (v : InlineDiffView) (i : Z) : bool :=
  if (i <? 0) || (i >=? len (_lineToHunkIndex v)) then false
  else
    match index (_lineToHunkIndex v) i with
    | Some h => h =? -1
    | None => false
    end.

Definition with_scrollOffset (v : InlineDiffView) (so : Z) : InlineDiffView :=
  mkView (diff v) (highlightFn v) (renderedLines v) so
         (_cursorLine v) (_lineToHunkIndex v) (_visualMode v) (_visualAnchor v).

Definition scrollUp (v : InlineDiffView) (lines : Z) : InlineDiffView :=
  let v1 := with_scrollOffset v (Math_max 0 (_scrollOffset v - lines)) in
  moveCursor v1 (- lines).

Definition scrollDown (v : InlineDiffView) (lines : Z) : InlineDiffView :=
  let v1 := with_scrollOffset v
              (Math_min (Math_max 0 (len (renderedLines v))) (_scrollOffset v + lines)) in
  moveCursor v1 lines.

Definition scrollToTop (v : InlineDiffView) : InlineDiffView :=
  mkView (diff v) (highlightFn v) (renderedLines v) 0 0
         (_lineToHunkIndex v) (_visualMode v) (_visualAnchor v).

Definition scrollToBottom (v : InlineDiffView) : InlineDiffView :=
  mkView (diff v) (highlightFn v) (renderedLines v)
         (Math_max 0 (len (renderedLines v)))
         (Math_max 0 (len (renderedLines v) - 1))
         (_lineToHunkIndex v) (_visualMode v) (_visualAnchor v).

(** The loop of [truncateToWidth], one iteration per code unit of [line];
    the arguments after [line] are the loop's four local variables. *)
Fixpoint truncateLoop (width : Z) (line : jsstring) (visibleLength : Z)
    (result : jsstring) (inEscape : bool) (escapeSequence : jsstring) : jsstring :=
  match line with
  | [] => result
  | char :: rest =>
    if N.eqb char ESC then
      truncateLoop width rest visibleLength result true [char]
    else if inEscape then
      let escapeSequence := escapeSequence ++ [char] in
      if N.eqb char ch_m then
        truncateLoop width rest visibleLength (result ++ escapeSequence) false []
      else
        truncateLoop width rest visibleLength result true escapeSequence
    else if visibleLength >=? width then
      result
    else
      truncateLoop width rest (visibleLength + 1) (result ++ [char]) inEscape escapeSequence
  end.

Definition truncateToWidth (line : jsstring) (width : Z) : jsstring :=
  let result := truncateLoop width line 0 [] false [] in
  if includes result [ESC; ch_lbracket] && negb (endsWith result RESET)
  then result ++ RESET
  else result.

(** [content.replace(/\x1b\[0m$/, '\x1b[49m\x1b[0m')]. *)
Definition replaceFinalReset (content : jsstring) : jsstring :=
  if endsWith content RESET
  then firstn (List.length content - List.length RESET) content ++ BG_OFF ++ RESET
  else content.

(** The auto-scroll part of [render]: the value stored in
    [_scrollOffset]. *)
Definition renderOffset (v : InlineDiffView) (visibleHeight : Z) : Z :=
  let so1 :=
    if _cursorLine v >=? _scrollOffset v + visibleHeight
    then _cursorLine v - visibleHeight + 1
    else _scrollOffset v in
  let so2 := if _cursorLine v <? so1 then _cursorLine v else so1 in
  let maxOffset := Math_max 0 (len (renderedLines v) - visibleHeight) in
  Math_min so2 maxOffset.

(** The callback of [visibleLines.map] in [render]. *)
Definition renderRow (v : InlineDiffView) (width offset : Z)
    (line : RenderedLine) (index : Z) : jsstring :=
  let lineIndex := offset + index in
  let content := content line in
  let inVisualRange :=
    if _visualMode v then
      let '(min, max) := getVisualRange v in
      (lineIndex >=? min) && (lineIndex <=? max)
    else false in
  let content :=
    if inVisualRange || (lineIndex =? _cursorLine v)
    then BG_ON ++ replaceFinalReset content
    else content in
  truncateToWidth content width.

Definition render (v : InlineDiffView) (width visibleHeight : Z)
    : InlineDiffView * list jsstring :=
  let offset := renderOffset v visibleHeight in
  let v' := with_scrollOffset v offset in
  let endIndex := Math_min (offset + visibleHeight) (len (renderedLines v)) in
  let visibleLines := slice (renderedLines v) offset endIndex in
  (v', mapi (renderRow v' width offset) visibleLines).

End InlineView.

Import InlineView.

(* ===================================================================== *)
(** ** src/diff-state.ts *)
(* ===================================================================== *)

Module State.

Record FileSnapshot := mkSnapshot {
  originalContent : jsstring;
  currentContent : jsstring
}.

(** [snapshots: Map<string, FileSnapshot>]: a JavaScript [Map] iterates in
    insertion order, so the map is the list of its entries in that order,
    with at most one entry per key. *)
Record DiffState := mkDiffState {
  snapshots : list (jsstring * FileSnapshot)
}.

Definition empty : DiffState := mkDiffState [].

(** [snapshots.get(filePath)]. *)
Fixpoint get (l : list (jsstring * FileSnapshot)) (filePath : jsstring) : option FileSnapshot :=
  match l with
  | [] => None
  | (k, sn) :: l' => if str_eqb k filePath then Some sn else get l' filePath
  end.

(** The entry of [filePath], when there is one, replaced by its image
    under [f]: the in-place assignment to a field of the stored object. *)
Fixpoint modify (l : list (jsstring * FileSnapshot)) (filePath : jsstring)
    (f : FileSnapshot -> FileSnapshot) : list (jsstring * FileSnapshot) :=
  match l with
  | [] => []
  | (k, sn) :: l' =>
    if str_eqb k filePath then (k, f sn) :: l' else (k, sn) :: modify l' filePath f
  end.

Definition has (s : DiffState) (filePath : jsstring) : bool :=
  match get (snapshots s) filePath with Some _ => true | None => false end.

Definition updateFile (s : DiffState) (filePath currentContent : jsstring) : DiffState :=
  mkDiffState
    (modify (snapshots s) filePath (fun sn => mkSnapshot (originalContent sn) currentContent)).

Definition trackFile (s : DiffState) (filePath originalContent currentContent : jsstring)
    : DiffState :=
  if has s filePath then updateFile s filePath currentContent
  else mkDiffState (snapshots s ++ [(filePath, mkSnapshot originalContent currentContent)]).

Definition getChangedFiles (s : DiffState) : list jsstring :=
  map fst
    (filter (fun e => negb (str_eqb (originalContent (snd e)) (currentContent (snd e))))
            (snapshots s)).

Definition dismissFile (s : DiffState) (filePath : jsstring) : DiffState :=
  mkDiffState
    (modify (snapshots s) filePath (fun sn => mkSnapshot (currentContent sn) (currentContent sn))).

Definition isTracked (s : DiffState) (filePath : jsstring) : bool := has s filePath.

Definition pendingCount (s : DiffState) : Z := len (getChangedFiles s).

Section GetFileDiff.
Variable structuredPatch : jsstring -> jsstring -> jsstring -> list PatchHunk.

Definition getFileDiff (s : DiffState) (filePath : jsstring) : option FileDiff :=
  match get (snapshots s) filePath with
  | None => None
  | Some snapshot =>
    Some (computeDiff structuredPatch filePath
            (originalContent snapshot) (currentContent snapshot))
  end.

End GetFileDiff.

End State.

(* ===================================================================== *)
(** ** src/modal.ts *)
(* ===================================================================== *)

Module Modal.

Import State.

Record ModalFileEntry := mkEntry {
  path : jsstring;
  additions : Z;
  deletions : Z;
  isNewFile : bool
}.

(** The fields of [class DiffReviewModal]; [diffState] is the object the
    constructor was given, which its owner may change between two calls. *)
Record DiffReviewModal := mkModal {
  _selectedIndex : Z;
  _fileList : list ModalFileEntry;
  _filePickerOpen : bool;
  _filePickerIndex : Z;
  diffState : DiffState
}.

(** The owner of the shared [diffState] object changes it between two
    calls of the modal. *)
Definition ownerUpdates (m : DiffReviewModal) (f : DiffState -> DiffState) : DiffReviewModal :=
  mkModal (_selectedIndex m) (_fileList m) (_filePickerOpen m) (_filePickerIndex m)
          (f (diffState m)).

Section Operations.
Variable structuredPatch : jsstring -> jsstring -> jsstring -> list PatchHunk.

Definition getFileList (m : DiffReviewModal) : list ModalFileEntry := _fileList m.
Definition selectedIndex (m : DiffReviewModal) : Z := _selectedIndex m.
Definition isFilePickerOpen (m : DiffReviewModal) : bool := _filePickerOpen m.
Definition filePickerIndex (m : DiffReviewModal) : Z := _filePickerIndex m.

Definition with_selectedIndex (m : DiffReviewModal) (i : Z) : DiffReviewModal :=
  mkModal i (_fileList m) (_filePickerOpen m) (_filePickerIndex m) (diffState m).

Definition with_filePickerIndex (m : DiffReviewModal) (i : Z) : DiffReviewModal :=
  mkModal (_selectedIndex m) (_fileList m) (_filePickerOpen m) i (diffState m).

(** [get selectedFile()]: [this._fileList[this._selectedIndex]?.path]. *)
Definition selectedFile (m : DiffReviewModal) : option jsstring :=
  match _fileList m with
  | [] => None
  | _ => option_map path (index (_fileList m) (_selectedIndex m))
  end.

Definition selectNext (m : DiffReviewModal) : DiffReviewModal :=
  match _fileList m with
  | [] => m
  | _ => with_selectedIndex m (Z.rem (_selectedIndex m + 1) (len (_fileList m)))
  end.

Definition selectPrevious (m : DiffReviewModal) : DiffReviewModal :=
  match _fileList m with
  | [] => m
  | _ =>
    with_selectedIndex m
      (if _selectedIndex m =? 0 then len (_fileList m) - 1 else _selectedIndex m - 1)
  end.

Definition selectIndex (m : DiffReviewModal) (i : Z) : DiffReviewModal :=
  match _fileList m with
  | [] => with_selectedIndex m 0
  | _ => with_selectedIndex m (Math_max 0 (Math_min i (len (_fileList m) - 1)))
  end.

Definition getSelectedPath (m : DiffReviewModal) : option jsstring := selectedFile m.

(** [if (!selectedPath)]: [undefined] and the empty string are falsy. *)
Definition truthy (p : option jsstring) : option jsstring :=
  match p with
  | Some (c :: r) => Some (c :: r)
  | _ => None
  end.

Definition getSelectedDiff (m : DiffReviewModal) : option FileDiff :=
  match truthy (selectedFile m) with
  | None => None
  | Some selectedPath => getFileDiff structuredPatch (diffState m) selectedPath
  end.

Definition refresh (m : DiffReviewModal) : DiffReviewModal :=
  let changedFiles := getChangedFiles (diffState m) in
  let fileList :=
    map (fun path =>
           let diff := getFileDiff structuredPatch (diffState m) path in
           mkEntry path
             (nullish_or (option_map DiffEngine.additions diff) 0)
             (nullish_or (option_map DiffEngine.deletions diff) 0)
             (nullish_or (option_map DiffEngine.isNewFile diff) false))
        changedFiles in
  let selectedIndex :=
    match fileList with
    | [] => 0
    | _ => if _selectedIndex m >=? len fileList then len fileList - 1 else _selectedIndex m
    end in
  mkModal selectedIndex fileList (_filePickerOpen m) (_filePickerIndex m) (diffState m).

(** [new DiffReviewModal(diffState)]. *)
Definition new (ds : DiffState) : DiffReviewModal :=
  refresh (mkModal 0 [] false 0 ds).

Definition dismissSelected (m : DiffReviewModal) : DiffReviewModal * bool :=
  match truthy (selectedFile m) with
  | None => (m, false)
  | Some selectedPath =>
    let m1 := mkModal (_selectedIndex m) (_fileList m) (_filePickerOpen m)
                      (_filePickerIndex m) (dismissFile (diffState m) selectedPath) in
    let m2 := refresh m1 in
    let m3 :=
      if (_selectedIndex m2 >=? len (_fileList m2)) && (len (_fileList m2) >? 0)
      then with_selectedIndex m2 (len (_fileList m2) - 1)
      else m2 in
    (m3, true)
  end.

Definition openFilePicker (m : DiffReviewModal) : DiffReviewModal :=
  mkModal (_selectedIndex m) (_fileList m) true (_selectedIndex m) (diffState m).

Definition closeFilePicker (m : DiffReviewModal) : DiffReviewModal :=
  mkModal (_selectedIndex m) (_fileList m) false (_filePickerIndex m) (diffState m).

Definition filePickerNext (m : DiffReviewModal) : DiffReviewModal :=
  match _fileList m with
  | [] => m
  | _ => with_filePickerIndex m (Z.rem (_filePickerIndex m + 1) (len (_fileList m)))
  end.

Definition filePickerPrevious (m : DiffReviewModal) : DiffReviewModal :=
  match _fileList m with
  | [] => m
  | _ =>
    with_filePickerIndex m
      (if _filePickerIndex m =? 0 then len (_fileList m) - 1 else _filePickerIndex m - 1)
  end.

Definition confirmFilePickerSelection (m : DiffReviewModal) : DiffReviewModal :=
  mkModal (_filePickerIndex m) (_fileList m) false (_filePickerIndex m) (diffState m).

(** The operations of the session. *)
Inductive Op :=
| OpRefresh
| OpSelectNext
| OpSelectPrevious
| OpSelectIndex (i : Z)
| OpDismissSelected
| OpOpenFilePicker
| OpCloseFilePicker
| OpFilePickerNext
| OpFilePickerPrevious
| OpConfirmFilePickerSelection.

Definition perform (o : Op) (m : DiffReviewModal) : DiffReviewModal :=
  match o with
  | OpRefresh => refresh m
  | OpSelectNext => selectNext m
  | OpSelectPrevious => selectPrevious m
  | OpSelectIndex i => selectIndex m i
  | OpDismissSelected => fst (dismissSelected m)
  | OpOpenFilePicker => openFilePicker m
  | OpCloseFilePicker => closeFilePicker m
  | OpFilePickerNext => filePickerNext m
  | OpFilePickerPrevious => filePickerPrevious m
  | OpConfirmFilePickerSelection => confirmFilePickerSelection m
  end.

End Operations.

(** An index is bounded by a list: inside it, or 0 when the list is
    empty. *)
Definition bounded {A} (i : Z) (l : list A) : Prop :=
  (l <> [] -> 0 <= i < len l) /\ (l = [] -> i = 0).

(** The invariant of the session state. *)
Definition SessionInv (m : DiffReviewModal) : Prop :=
  bounded (_selectedIndex m) (_fileList m) /\
  (_filePickerOpen m = true -> bounded (_filePickerIndex m) (_fileList m)).

(** The mode in which [handleInput] of src/overlay.ts calls an operation
    of the modal: [refresh] and [dismissSelected] with the picker closed,
    [confirmFilePickerSelection] with the picker open, the others in
    either. *)
Definition inMode (o : Op) (m : DiffReviewModal) : Prop :=
  match o with
  | OpRefresh | OpDismissSelected => _filePickerOpen m = false
  | OpConfirmFilePickerSelection => _filePickerOpen m = true
  | _ => True
  end.

(** The diff of two one-line contents (no line break in either): the old
    line removed, the new line added. *)
Definition oneLinePatch (_ original current : jsstring) : list PatchHunk :=
  [ mkPatchHunk (if str_eqb original [] then 0 else 1)
                (if str_eqb current [] then 0 else 1)
                ((if str_eqb original [] then [] else [ch_minus :: original]) ++
                 (if str_eqb current [] then [] else [ch_plus :: current])) ].

(** [n] tracked files "f0", "f1", ..., each changed from "a" to "b". *)
Definition changedFiles (n : nat) : DiffState :=
  fold_left (fun s i => trackFile s (lit "f" ++ toString (Z.of_nat i)) (lit "a") (lit "b"))
            (seq 0 n) State.empty.

End Modal.

(* ===================================================================== *)
(** ** src/diff-view-controller.ts *)
(* ===================================================================== *)

Module Controller.

(** [class DiffViewController]: a wrapper that forwards every call to the
    inline view it owns. *)
Record DiffViewController := mkController {
  inlineView : InlineDiffView
}.

Definition new (d : FileDiff) (hl : option HighlightFn) : DiffViewController :=
  mkController (InlineView.new d hl).

Definition setDiff (c : DiffViewController) (d : FileDiff) : DiffViewController :=
  mkController (InlineView.setDiff (inlineView c) d).

Definition scrollUp (c : DiffViewController) (lines : Z) : DiffViewController :=
  mkController (InlineView.scrollUp (inlineView c) lines).

Definition scrollDown (c : DiffViewController) (lines : Z) : DiffViewController :=
  mkController (InlineView.scrollDown (inlineView c) lines).

Definition render (c : DiffViewController) (width visibleHeight : Z)
    : DiffViewController * list jsstring :=
  let '(v, rows) := InlineView.render (inlineView c) width visibleHeight in
  (mkController v, rows).

Definition totalLines (c : DiffViewController) : Z := InlineView.totalLines (inlineView c).
Definition scrollOffset (c : DiffViewController) : Z := InlineView.scrollOffset (inlineView c).
Definition isVisualMode (c : DiffViewController) : bool := InlineView.isVisualMode (inlineView c).

Definition enterVisualMode (c : DiffViewController) : DiffViewController :=
  mkController (InlineView.enterVisualMode (inlineView c)).

Definition exitVisualMode (c : DiffViewController) : DiffViewController :=
  mkController (InlineView.exitVisualMode (inlineView c)).

Definition getCursorDiffLine (c : DiffViewController) : option DiffLine :=
  InlineView.getCursorDiffLine (inlineView c).

Definition getSelectedDiffLines (c : DiffViewController) : list (option DiffLine) :=
  InlineView.getSelectedDiffLines (inlineView c).

End Controller.

(* ===================================================================== *)
(** ** src/overlay.ts *)
(* ===================================================================== *)

Module Overlay.

Import Modal.

(** Box-drawing and arrow characters of the source. *)
Definition BOX_V : jsstring := [9474%N].        (* U+2502 *)
Definition BOX_H : jsstring := [9472%N].        (* U+2500 *)
Definition BOX_TL : jsstring := [9581%N].       (* U+256D *)
Definition BOX_TR : jsstring := [9582%N].       (* U+256E *)
Definition BOX_BL : jsstring := [9584%N].       (* U+2570 *)
Definition BOX_BR : jsstring := [9583%N].       (* U+256F *)
Definition MARKER : jsstring := [9656%N].       (* U+25B8 *)
Definition ARROWS : jsstring := [8593%N; 8595%N]. (* U+2191 U+2193 *)

(** [[0-9;]] of the regular expression in [stripAnsi]. *)
Definition isParam (c : code_unit) : bool :=
  ((48 <=? c) && (c <=? 57))%N || N.eqb c ch_semi.

Fixpoint skipParams (s : jsstring) : jsstring :=
  match s with
  | c :: r => if isParam c then skipParams r else s
  | [] => []
  end.

(** A match of [/\x1b\[[0-9;]*m/] at the head of [s]: what follows it. *)
Definition matchSGR (s : jsstring) : option jsstring :=
  match s with
  | c0 :: c1 :: r =>
    if N.eqb c0 ESC && N.eqb c1 ch_lbracket then
      match skipParams r with
      | c :: r' => if N.eqb c ch_m then Some r' else None
      | [] => None
      end
    else None
  | _ => None
  end.

(** [s.replace(/\x1b\[[0-9;]*m/g, "")]; [fuel] bounds the number of
    positions still to visit. *)
Fixpoint stripFuel (fuel : nat) (s : jsstring) : jsstring :=
  match fuel with
  | O => s
  | S fuel' =>
    match matchSGR s with
    | Some rest => stripFuel fuel' rest
    | None =>
      match s with
      | [] => []
      | c :: r => c :: stripFuel fuel' r
      end
    end
  end.

Definition stripAnsi (s : jsstring) : jsstring := stripFuel (List.length s) s.

(** The object returned by [createOverlayHandler]: the modal it was given
    and the closure variable [viewController]. *)
Record Handler := mkHandler {
  modal : DiffReviewModal;
  viewController : option Controller.DiffViewController
}.

(** The keys of [keyUtils.Key]. *)
Inductive KeyId :=
| KeyEscape | KeyUp | KeyDown | KeyEnter | KeyTab
| KeyCtrl (key : jsstring).

(** What a call of [handleInput] asks of the host: [tui.requestRender()],
    [done()], [callbacks.onDismiss()], [callbacks.onPasteToEditor(text)]. *)
Inductive Effect :=
| RequestRender
| Done
| OnDismiss
| PasteToEditor (text : jsstring).

Definition NEWLINE : code_unit := 10%N.

Section CreateOverlayHandler.

(** The external diff library. *)
Variable structuredPatch : jsstring -> jsstring -> jsstring -> list PatchHunk.
(** [theme.fg(role, text)] and [theme.bold(text)]. *)
Variable fg : jsstring -> jsstring -> jsstring.
Variable bold : jsstring -> jsstring.
(** [keyUtils.truncateToWidth(text, width)]. *)
Variable hostTruncateToWidth : jsstring -> Z -> jsstring.
(** The syntax highlighter. *)
Variable highlightProvider : HighlightFn.
(** [Math.round((num / den) * 100)], a floating-point computation. *)
Variable roundPercent : Z -> Z -> Z.
(** [options?.title]. *)
Variable optionsTitle : option jsstring.

Definition title : jsstring := nullish_or optionsTitle (lit "Diff Review").

Definition buildViewController (h : Handler) : Handler :=
  match getSelectedDiff structuredPatch (modal h) with
  | Some diff => mkHandler (modal h) (Some (Controller.new diff (Some highlightProvider)))
  | None => mkHandler (modal h) None
  end.

(** [createOverlayHandler(modal, ...)]. *)
Definition createOverlayHandler (m : DiffReviewModal) : Handler :=
  buildViewController (mkHandler m None).

(** [Math.max(20, Math.floor(termHeight * 0.75))]; [termHeight] is
    [tui.height ?? 40]. *)
Definition targetHeightOf (tuiHeight : option Z) : Z :=
  let termHeight := nullish_or tuiHeight 40 in
  Math_max 20 (termHeight * 3 / 4).

Section Render.
Variable width : Z.

Definition innerWidth : Z := width - 4.
Definition border : jsstring := fg (lit "border") BOX_V.

Definition padLine (line : jsstring) : jsstring :=
  let truncated := hostTruncateToWidth line innerWidth in
  let visible := len (stripAnsi truncated) in
  let rightPad := Math_max 0 (innerWidth - visible) in
  border ++ lit " " ++ truncated ++ repeat_str (lit " ") (Z.to_nat rightPad)
         ++ lit " " ++ border.

Definition emptyLine : Result jsstring :=
  sp <- repeat_checked (lit " ") (width - 2) ;;
  Ok (border ++ sp ++ border).

Definition noFilesContent : list jsstring :=
  [ fg (lit "muted") (lit "No files to review");
    [];
    fg (lit "dim") (lit "Press Escape to close") ].

Definition pickerRow (m : DiffReviewModal) (file : ModalFileEntry) (i : Z) : jsstring :=
  let selected := i =? filePickerIndex m in
  let prefix := if selected then MARKER ++ lit " " else lit "  " in
  let name := if selected then fg (lit "accent") (path file)
              else fg (lit "text") (path file) in
  let stats := fg (lit "muted")
                  (lit " +" ++ toString (additions file) ++ lit "/-"
                            ++ toString (deletions file)) in
  let tag := if isNewFile file then fg (lit "success") (lit " [new]") else [] in
  prefix ++ name ++ stats ++ tag.

Definition pickerContent (m : DiffReviewModal) : list jsstring :=
  [ fg (lit "accent") (bold (lit "File Picker")); [] ]
  ++ mapi (pickerRow m) (getFileList m)
  ++ [ []; fg (lit "dim")
             (ARROWS ++ lit " navigate  Enter select  Esc cancel") ].

(** The full-screen diff view; reading [currentFile.path] throws when
    [fileList[modal.selectedIndex]] is [undefined], and so does
    [repeat] on a negative [innerWidth]. *)
Definition diffContent (h : Handler) (targetHeight : Z)
    : Result (Handler * list jsstring) :=
  let m := modal h in
  let fileList := getFileList m in
  match index fileList (selectedIndex m) with
  | None => Throw "TypeError"
  | Some currentFile =>
    let fileIndex := selectedIndex m + 1 in
    let totalFiles := len fileList in
    let fileNumStr := lit "[" ++ toString fileIndex ++ lit "/" ++ toString totalFiles ++ lit "]" in
    let filePathStr := fg (lit "accent") (path currentFile) in
    let stats := lit " +" ++ toString (additions currentFile) ++ lit "/-"
                          ++ toString (deletions currentFile) in
    let statsStr := fg (lit "muted") stats in
    let rightIndicator :=
      match viewController h with
      | Some c => if Controller.isVisualMode c then lit "VISUAL LINE" else []
      | None => []
      end in
    let leftSide := fileNumStr ++ lit " " ++ filePathStr ++ statsStr in
    let leftSideStripped := fileNumStr ++ lit " " ++ path currentFile ++ stats in
    let hPadding := Math_max 1 (innerWidth - len leftSideStripped - len rightIndicator) in
    let header := leftSide ++ repeat_str (lit " ") (Z.to_nat hPadding)
                           ++ fg (lit "accent") rightIndicator in
    rule <- repeat_checked BOX_H innerWidth ;;
    let head := [header; fg (lit "border") rule] in
    match viewController h with
    | None => Ok (h, head)
    | Some c =>
      let availableHeight := Math_max 5 (targetHeight - 8) in
      let '(c', diffLines) := Controller.render c innerWidth availableHeight in
      let indicator :=
        if Controller.totalLines c' >? availableHeight then
          let pct := roundPercent (Controller.scrollOffset c' + availableHeight)
                                  (Controller.totalLines c') in
          [ fg (lit "dim")
               (BOX_H ++ BOX_H ++ lit " " ++ toString (Math_min pct 100) ++ lit "% "
                      ++ BOX_H ++ BOX_H) ]
        else [] in
      Ok (mkHandler m (Some c'), head ++ diffLines ++ indicator)
    end
  end.

Definition topBorder : jsstring :=
  let titleText := lit " " ++ title ++ lit " " in
  let topBorderLeft := BOX_TL ++ BOX_H in
  let topBorderRight :=
    repeat_str BOX_H (Z.to_nat (Math_max 0 (width - len topBorderLeft - len titleText - 1)))
    ++ BOX_TR in
  fg (lit "border") topBorderLeft ++ fg (lit "accent") (bold titleText)
    ++ fg (lit "border") topBorderRight.

Definition bottomBorder : Result jsstring :=
  fill <- repeat_checked BOX_H (width - 2) ;;
  Ok (fg (lit "border") (BOX_BL ++ fill ++ BOX_BR)).

Definition helpText : jsstring :=
  fg (lit "dim")
     (lit "n/p files  d dismiss  Tab list  Ctrl+D/U scroll  y yank  V visual  Esc close").

(** [while (output.length < targetHeight - 1) output.push(emptyLine())]. *)
Definition padToHeight (output : list jsstring) (targetHeight : Z) : Result (list jsstring) :=
  if len output <? targetHeight - 1 then
    e <- emptyLine ;;
    Ok (output ++ List.repeat e (Z.to_nat (targetHeight - 1 - len output)))
  else Ok output.

(** The second half of [render]: "Assemble bordered output, padded to
    fixed height". *)
Definition assemble (m : DiffReviewModal) (targetHeight : Z) (content : list jsstring)
    : Result (list jsstring) :=
  let output := [topBorder] ++ map padLine content in
  output <- padToHeight output targetHeight ;;
  let output :=
    if (len (getFileList m) >? 0) && negb (isFilePickerOpen m)
    then removelast output ++ [padLine helpText]
    else output in
  bottom <- bottomBorder ;;
  Ok (output ++ [bottom]).

(** [render(width)]; [tuiHeight] is the value of [tui.height] at the
    call. *)
Definition render (h : Handler) (tuiHeight : option Z) : Result (Handler * list jsstring) :=
  let targetHeight := targetHeightOf tuiHeight in
  let m := modal h in
  r <- match getFileList m with
       | [] => Ok (h, noFilesContent)
       | _ => if isFilePickerOpen m then Ok (h, pickerContent m)
              else diffContent h targetHeight
       end ;;
  let '(h', content) := r in
  rows <- assemble m targetHeight content ;;
  Ok (h', rows).

End Render.

(** *** handleInput *)

(** [keyUtils.matchesKey(data, Key.x)]. *)
Variable matchesKey : jsstring -> KeyId -> bool.

Definition with_modal (h : Handler) (m : DiffReviewModal) : Handler :=
  mkHandler m (viewController h).

Definition with_controller (h : Handler) (f : Controller.DiffViewController -> Controller.DiffViewController)
    : Handler :=
  mkHandler (modal h) (option_map f (viewController h)).

(** [Math.min(...ns)] and [Math.max(...ns)] of a non-empty array. *)
Definition minOf (n : Z) (ns : list Z) : Z := fold_left Math_min ns n.
Definition maxOf (n : Z) (ns : list Z) : Z := fold_left Math_max ns n.

(** [a.join(sep)]. *)
Fixpoint join (sep : jsstring) (a : list jsstring) : jsstring :=
  match a with
  | [] => []
  | [x] => x
  | x :: r => x ++ sep ++ join sep r
  end.

(** [diffLines.map(dl => f(dl))]: reading a field of an [undefined]
    element throws. *)
Fixpoint mapDefined {B} (f : DiffLine -> B) (l : list (option DiffLine)) : Result (list B) :=
  match l with
  | [] => Ok []
  | None :: _ => Throw "TypeError"
  | Some dl :: r => ys <- mapDefined f r ;; Ok (f dl :: ys)
  end.

Fixpoint definedOnly (l : list (option Z)) : list Z :=
  match l with
  | [] => []
  | Some n :: r => n :: definedOnly r
  | None :: r => definedOnly r
  end.

(** The "y" key. *)
Definition yank (h : Handler) : Result (Handler * list Effect) :=
  match viewController h with
  | None => Ok (h, [])
  | Some c =>
    let filePath := nullish_or (truthy (getSelectedPath (modal h))) [] in
    if Controller.isVisualMode c then
      let diffLines := Controller.getSelectedDiffLines c in
      if len diffLines >? 0 then
        anchors <- mapDefined anchor diffLines ;;
        match definedOnly anchors with
        | [] => Ok (h, [])
        | n :: ns =>
          let minLine := minOf n ns in
          let maxLine := maxOf n ns in
          let rangeStr := if minLine =? maxLine then toString minLine
                          else toString minLine ++ lit "-" ++ toString maxLine in
          let header := lit "`" ++ filePath ++ lit ":" ++ rangeStr ++ lit "`" in
          codeLines <- mapDefined DiffEngine.content diffLines ;;
          let fencedBlock := header ++ [NEWLINE] ++ lit "```" ++ [NEWLINE]
                                    ++ join [NEWLINE] codeLines
                                    ++ [NEWLINE] ++ lit "```" in
          Ok (with_controller h Controller.exitVisualMode, [PasteToEditor fencedBlock; Done])
        end
      else Ok (h, [])
    else
      match Controller.getCursorDiffLine c with
      | None => Ok (h, [])
      | Some diffLine =>
        match anchor diffLine with
        | None => Ok (h, [])
        | Some lineNum =>
          Ok (h, [PasteToEditor (filePath ++ lit ":" ++ toString lineNum); Done])
        end
      end
  end.

Definition handleInput (h : Handler) (data : jsstring) : Result (Handler * list Effect) :=
  let m := modal h in
  if isFilePickerOpen m then
    (* File picker mode *)
    if matchesKey data KeyEscape then
      Ok (with_modal h (closeFilePicker m), [RequestRender])
    else if matchesKey data KeyUp || str_eqb data (lit "k") then
      Ok (with_modal h (filePickerPrevious m), [RequestRender])
    else if matchesKey data KeyDown || str_eqb data (lit "j") then
      Ok (with_modal h (filePickerNext m), [RequestRender])
    else if matchesKey data KeyEnter then
      Ok (buildViewController (with_modal h (confirmFilePickerSelection m)), [RequestRender])
    else Ok (h, [])
  else
    (* Normal diff view mode *)
    if matchesKey data KeyEscape then Ok (h, [Done])
    else if str_eqb data (lit "n") then
      Ok (buildViewController (with_modal h (selectNext m)), [RequestRender])
    else if str_eqb data (lit "p") then
      Ok (buildViewController (with_modal h (selectPrevious m)), [RequestRender])
    else if matchesKey data KeyUp || str_eqb data (lit "k") then
      Ok (with_controller h (fun c => Controller.scrollUp c 1), [RequestRender])
    else if matchesKey data KeyDown || str_eqb data (lit "j") then
      Ok (with_controller h (fun c => Controller.scrollDown c 1), [RequestRender])
    else if matchesKey data (KeyCtrl (lit "u")) then
      Ok (with_controller h (fun c => Controller.scrollUp c 10), [RequestRender])
    else if matchesKey data (KeyCtrl (lit "d")) then
      Ok (with_controller h (fun c => Controller.scrollDown c 10), [RequestRender])
    else if matchesKey data KeyTab then
      Ok (with_modal h (openFilePicker m), [RequestRender])
    else if str_eqb data (lit "V") then
      match viewController h with
      | Some c =>
        Ok (with_controller h
              (if Controller.isVisualMode c then Controller.exitVisualMode
               else Controller.enterVisualMode),
            [RequestRender])
      | None => Ok (h, [])
      end
    else if str_eqb data (lit "d") then
      let m' := fst (dismissSelected structuredPatch m) in
      let h' := buildViewController (with_modal h m') in
      Ok (h', [OnDismiss; RequestRender]
              ++ (match getFileList m' with [] => [Done] | _ => [] end))
    else if str_eqb data (lit "y") then yank h
    else Ok (h, []).

End CreateOverlayHandler.

(** [render] does not throw: the width leaves room for the borders and
    the padding, and the selected index designates a file. *)
Definition renderable (h : Handler) (width : Z) : Prop :=
  4 <= width /\
  (_fileList (modal h) <> [] -> 0 <= _selectedIndex (modal h) < len (_fileList (modal h))).

(** The file picker lists every file; the list fits the block when it has
    at most [targetHeight - 6] entries. *)
Definition pickerFits (h : Handler) (tuiHeight : option Z) : Prop :=
  _filePickerOpen (modal h) = true ->
  len (_fileList (modal h)) <= targetHeightOf tuiHeight - 6.

(** The theme, the truncation and the highlighter of the unit tests. *)
Definition plainFg (_ text : jsstring) : jsstring := text.
Definition plainBold (text : jsstring) : jsstring := text.
Definition sliceTruncate (text : jsstring) (width : Z) : jsstring := slice text 0 width.
Definition noHighlight (code _ : jsstring) : jsstring := code.
(** [Math.round((num / den) * 100)] away from the ties. *)
Definition roundPercentZ (num den : Z) : Z := (200 * num + den) / (2 * den).

(** The overlay of the unit tests over [n] changed files, the file picker
    open. *)
Definition pickerOverlay (n : nat) : Handler :=
  createOverlayHandler oneLinePatch noHighlight
    (openFilePicker (Modal.new oneLinePatch (changedFiles n))).

Definition testRender (h : Handler) (tuiHeight : option Z) (width : Z)
    : Result (Handler * list jsstring) :=
  render plainFg plainBold sliceTruncate roundPercentZ None width h tuiHeight.

End Overlay.

(* ===================================================================== *)
(** ** Vocabulary of the specification for the inline view *)
(* ===================================================================== *)

Module ViewSpec.

(** The anchor of the most recent record of [hs] that has one: the value
    of the loop variable [previousLineNumber] after [hs]. *)
Definition lastAnchor (hs : list DiffLine) : option Z :=
  fold_left (fun prev h => nullish (anchor h) prev) hs None.

(** A gap lies before record [i]: the record has an anchor, some earlier
    record has one, and the anchor of record [i] exceeds the most recent
    earlier anchor by more than one. *)
Definition gapBefore (hs : list DiffLine) (i : nat) : bool :=
  match lastAnchor (firstn i hs), option_map anchor (nth_error hs i) with
  | Some p, Some (Some c) => c >? p + 1
  | _, _ => false
  end.

(** The rule in the words of the specification: the record appended just
    before record [i] and record [i] both have an anchor, and the current
    anchor is not exactly one more than the previous one. *)
Definition specSeparatorBefore (hs : list DiffLine) (i : nat) : bool :=
  match i with
  | O => false
  | S j =>
    match option_map anchor (nth_error hs j), option_map anchor (nth_error hs i) with
    | Some (Some p), Some (Some c) => negb (c =? p + 1)
    | _, _ => false
    end
  end.

(** The index array the inline view holds when a separator precedes
    exactly the records selected by [sep]. *)
Definition indexRows (sep : nat -> bool) (n : nat) : list Z :=
  flat_map (fun i => (if sep i then [-1] else []) ++ [Z.of_nat i]) (seq 0 n).

(** The row array, likewise. *)
Definition contentRows (hl : option HighlightFn) (d : FileDiff) (sep : nat -> bool)
    : list RenderedLine :=
  let w := len (toString (getMaxLineNumber d)) in
  flat_map
    (fun i =>
       (if sep i then [createSeparatorLine] else []) ++
       match nth_error (hunks d) i with
       | Some h => [renderHunk hl (filePath d) h w]
       | None => []
       end)
    (seq 0 (List.length (hunks d))).

(** The invariant of the view state. *)
Definition ViewInv (v : InlineDiffView) : Prop :=
  (renderedLines v <> [] -> 0 <= _cursorLine v < len (renderedLines v)) /\
  (renderedLines v = [] -> _cursorLine v = 0) /\
  0 <= _scrollOffset v.

(** The public operations that change the state. *)
Inductive Op :=
| OpSetDiff (d : FileDiff)
| OpMoveCursor (delta : Z)
| OpSetCursor (line : Z)
| OpScrollUp (lines : Z)
| OpScrollDown (lines : Z)
| OpScrollToTop
| OpScrollToBottom
| OpEnterVisualMode
| OpExitVisualMode
| OpRender (width visibleHeight : Z).

Definition perform (o : Op) (v : InlineDiffView) : InlineDiffView :=
  match o with
  | OpSetDiff d => setDiff v d
  | OpMoveCursor delta => moveCursor v delta
  | OpSetCursor line => setCursor v line
  | OpScrollUp n => scrollUp v n
  | OpScrollDown n => scrollDown v n
  | OpScrollToTop => scrollToTop v
  | OpScrollToBottom => scrollToBottom v
  | OpEnterVisualMode => enterVisualMode v
  | OpExitVisualMode => exitVisualMode v
  | OpRender w h => fst (render v w h)
  end.

(** A scroll command is given a number of lines, which is not negative. *)
Definition lineCount (o : Op) : Prop :=
  match o with
  | OpScrollDown n => 0 <= n
  | _ => True
  end.

(** The states reached from the constructor by public operations that
    satisfy [allowed]. *)
Inductive ReachableBy (allowed : Op -> Prop) : InlineDiffView -> Prop :=
| Reach_new d hl : ReachableBy allowed (new d hl)
| Reach_step o v : ReachableBy allowed v -> allowed o -> ReachableBy allowed (perform o v).

(** The states of an [InlineDiffView] object: any operation, any argument. *)
Definition Reachable : InlineDiffView -> Prop := ReachableBy (fun _ => True).

(** [clamp lo hi x]: [x] brought into [[lo, hi]]. *)
Definition clamp (lo hi x : Z) : Z := Z.max lo (Z.min x hi).

(** The scroll offset after Render, in the words of the specification:
    auto-scroll correction, then clamp into [[0, max(0, rows - height)]]. *)
Definition specRenderOffset (cursorRow scrollOffset rows height : Z) : Z :=
  let s1 := if cursorRow >=? scrollOffset + height
            then cursorRow - height + 1 else scrollOffset in
  let s2 := if cursorRow <? s1 then cursorRow else s1 in
  clamp 0 (Z.max 0 (rows - height)) s2.

(** What the loop of [truncateToWidth] counts: the value its counter
    reaches on [s] when the width never stops it, the loop starting in
    state [inEscape].  The loop takes everything from ESC up to the next
    'm' for an escape sequence.  This is a quantity of the code, used to
    reason about the loop; a row is measured by its length after
    [Overlay.stripAnsi], as the overlay and the unit tests measure it. *)
Fixpoint scannerCount (inEscape : bool) (s : jsstring) : nat :=
  match s with
  | [] => O
  | c :: r =>
    if N.eqb c ESC then scannerCount true r
    else if inEscape then scannerCount (negb (N.eqb c ch_m)) r
    else S (scannerCount false r)
  end.

Definition scannerLength (s : jsstring) : Z := Z.of_nat (scannerCount false s).

(** Every ESC of [s] opens a sequence that is closed by an 'm' before the
    next ESC and before the end of [s]. *)
Fixpoint escapesClosed (inEscape : bool) (s : jsstring) : bool :=
  match s with
  | [] => negb inEscape
  | c :: r =>
    if N.eqb c ESC then negb inEscape && escapesClosed true r
    else if inEscape then escapesClosed (negb (N.eqb c ch_m)) r
    else escapesClosed false r
  end.

Definition wellFormed (s : jsstring) : bool := escapesClosed false s.

(** The three states of a reader of SGR sequences, the sequences
    [/\x1b\[[0-9;]*m/] that [stripAnsi] removes: in the text, after ESC,
    inside the parameters. *)
Inductive SgrState := InText | AfterEsc | InParams.

(** One code unit read in a state; [None] when ESC is not followed by
    "[", parameters and "m". *)
Definition sgrStep (st : SgrState) (c : code_unit) : option SgrState :=
  match st with
  | InText => if N.eqb c ESC then Some AfterEsc else Some InText
  | AfterEsc => if N.eqb c ch_lbracket then Some InParams else None
  | InParams =>
    if Overlay.isParam c then Some InParams
    else if N.eqb c ch_m then Some InText
    else None
  end.

Fixpoint sgrRun (st : SgrState) (s : jsstring) : option SgrState :=
  match s with
  | [] => Some st
  | c :: r =>
    match sgrStep st c with
    | Some st' => sgrRun st' r
    | None => None
    end
  end.

(** Every ESC of [s] opens a complete SGR sequence. *)
Definition sgrOnly (s : jsstring) : Prop := sgrRun InText s = Some InText.

(** The text of a record as [renderHunk] shows it: context lines go
    through the highlighter. *)
Definition shownText (hl : option HighlightFn) (path : jsstring) (h : DiffLine) : jsstring :=
  match type h, hl with
  | context, Some f => f (DiffEngine.content h) path
  | _, _ => DiffEngine.content h
  end.

(** Code units that neither open nor close an escape sequence. *)
Definition plain (e : jsstring) : Prop :=
  Forall (fun c => N.eqb c ESC = false /\ N.eqb c ch_m = false) e.


(** The state of the loop is consistent: an open escape sequence is ESC
    followed by plain code units. *)
Definition escapeState (inEscape : bool) (escapeSequence : jsstring) : Prop :=
  inEscape = true -> exists e, escapeSequence = ESC :: e /\ plain e.


(** The diff of the unit tests: a context line, a replaced line, an added
    line and a context line. *)
Definition simpleDiff : FileDiff :=
  mkFileDiff (lit "test.ts") false
    [ mkDiffLine context (lit "line 1") (Some 1) (Some 1);
      mkDiffLine removed (lit "line 2 old") (Some 2) None;
      mkDiffLine added (lit "line 2 new") None (Some 2);
      mkDiffLine added (lit "line 3 new") None (Some 3);
      mkDiffLine context (lit "line 4") (Some 3) (Some 4) ]
    2 1.

(** Four context lines at new line numbers 1, 2, 10, 11. *)
Definition gapDiff : FileDiff :=
  mkFileDiff (lit "test.ts") false
    [ mkDiffLine context (lit "line 1") (Some 1) (Some 1);
      mkDiffLine context (lit "line 2") (Some 2) (Some 2);
      mkDiffLine context (lit "line 10") (Some 10) (Some 10);
      mkDiffLine context (lit "line 11") (Some 11) (Some 11) ]
    0 0.

(** A record without line numbers between line 1 and line 5. *)
Definition unnumberedDiff : FileDiff :=
  mkFileDiff (lit "test.ts") false
    [ mkDiffLine context (lit "line 1") (Some 1) (Some 1);
      mkDiffLine context (lit "?") None None;
      mkDiffLine context (lit "line 5") (Some 5) (Some 5) ]
    0 0.

(** Fifty consecutive context lines "line 1" ... "line 50". *)
Definition largeDiff : FileDiff :=
  mkFileDiff (lit "large.ts") false
    (map (fun i => let n := Z.of_nat i + 1 in
                   mkDiffLine context (lit "line " ++ toString n) (Some n) (Some n))
         (seq 0 50))
    0 0.

(** One added line that holds the escape sequence "erase line" (ESC[2K),
    which is not an SGR sequence, twenty-five "a" and an "m". *)
Definition eraseLineDiff : FileDiff :=
  mkFileDiff (lit "test.ts") false
    [ mkDiffLine added (ESC :: lit "[2K" ++ List.repeat 97%N 25 ++ lit "m") None (Some 1) ]
    1 0.

(** One added line of two hundred "a". *)
Definition longLineDiff : FileDiff :=
  mkFileDiff (lit "test.ts") false
    [ mkDiffLine added (List.repeat 97%N 200) None (Some 1) ]
    1 0.

End ViewSpec.

Import ViewSpec.

(* ===================================================================== *)
(** ** src/picker.ts (the revision with the dismiss action) *)
(* ===================================================================== *)

Module Picker.

Record PickerItem := mkItem {
  id : jsstring;
  label : jsstring;
  description : option jsstring;
  meta : option jsstring   (* right-aligned info *)
}.

(** The closure of [createPickerHandler]: the caller's [items] array,
    which the dismiss action changes in place, and the two variables
    [cursorIndex] and [scrollOffset]. *)
Record PickerState := mkPicker {
  items : list PickerItem;
  cursorIndex : Z;
  scrollOffset : Z
}.

(** What a call asks of the host: [callbacks.onSelect(item)],
    [callbacks.onCancel()], [callbacks.onDismiss(item)],
    [tui.requestRender()]; the item is [items[cursorIndex]], which is
    [undefined] ([None]) outside the array. *)
Inductive PickerEffect :=
| Select (item : option PickerItem)
| Cancel
| DismissAsked (item : option PickerItem)
| Redraw.

(** [createPickerHandler(items, ...)]. *)
Definition createPickerHandler (its : list PickerItem) : PickerState :=
  mkPicker its 0 0.

(** [if (s)] for an optional string: [undefined] and "" are falsy. *)
Definition nonEmpty (s : option jsstring) : option jsstring :=
  match s with
  | Some (c :: r) => Some (c :: r)
  | _ => None
  end.

(** [items.splice(start, 1)]. *)
Definition splice1 {A} (l : list A) (start : Z) : list A :=
  let k := if start <? 0 then Math_max (len l + start) 0 else Math_min start (len l) in
  firstn (Z.to_nat k) l ++ skipn (Z.to_nat k + 1) l.

Section CreatePickerHandler.

(** [theme.fg], [theme.bold], [keyUtils.truncateToWidth],
    [keyUtils.matchesKey], [callbacks.onDismiss] and [options?.title]. *)
Variable fg : jsstring -> jsstring -> jsstring.
Variable bold : jsstring -> jsstring.
Variable hostTruncateToWidth : jsstring -> Z -> jsstring.
Variable matchesKey : jsstring -> Overlay.KeyId -> bool.
Variable onDismiss : option (option PickerItem -> bool).
Variable optionsTitle : option jsstring.

Definition title : jsstring := nullish_or optionsTitle (lit "Select").

Section Render.
Variable width : Z.

Definition innerWidth : Z := width - 4.

(** [padLine], [emptyLine] and the bottom border are written as in
    src/overlay.ts. *)
Definition padLine : jsstring -> jsstring := Overlay.padLine fg hostTruncateToWidth width.
Definition emptyLine : Result jsstring := Overlay.emptyLine fg width.
Definition bottomBorder : Result jsstring := Overlay.bottomBorder fg width.

(** The rows of one item: its line, and its description when it has
    one. *)
Definition itemRows (cursorIndex : Z) (item : PickerItem) (i : Z) : list jsstring :=
  let isSelected := i =? cursorIndex in
  let cursor := if isSelected then lit ">" else lit " " in
  let cursorAndLabel := cursor ++ lit " " ++ label item in
  let labelPart := if isSelected then bold cursorAndLabel else cursorAndLabel in
  let itemLine :=
    match nonEmpty (meta item) with
    | Some m =>
      let labelLen := len (Overlay.stripAnsi labelPart) in
      let metaLen := len (Overlay.stripAnsi m) in
      let padding := Math_max 1 (innerWidth - labelLen - metaLen) in
      labelPart ++ repeat_str (lit " ") (Z.to_nat padding) ++ m
    | None => labelPart
    end in
  itemLine ::
  match nonEmpty (description item) with
  | Some d => [lit "  " ++ fg (lit "dim") d]
  | None => []
  end.

(** [for (let i = visibleStart; i < visibleEnd; i++)]: reading a field of
    [items[i]] throws when it is [undefined]. *)
Fixpoint visibleRows (its : list PickerItem) (cursorIndex : Z) (ixs : list Z)
    : Result (list jsstring) :=
  match ixs with
  | [] => Ok []
  | i :: rest =>
    match index its i with
    | None => Throw "TypeError"
    | Some item =>
      rows <- visibleRows its cursorIndex rest ;;
      Ok (itemRows cursorIndex item i ++ rows)
    end
  end.

(** The scroll adjustment of [render]. *)
Definition adjustScroll (cursorIndex scrollOffset availableHeight : Z) : Z :=
  if cursorIndex <? scrollOffset then cursorIndex
  else if cursorIndex >=? scrollOffset + availableHeight
       then cursorIndex - availableHeight + 1
       else scrollOffset.

Definition topBorder : jsstring :=
  let titleText := lit " " ++ title ++ lit " " in
  let topBorderLeft := Overlay.BOX_TL ++ Overlay.BOX_H in
  let topBorderRight :=
    repeat_str Overlay.BOX_H
      (Z.to_nat (Math_max 0 (width - len topBorderLeft - len titleText - 1)))
    ++ Overlay.BOX_TR in
  fg (lit "border") topBorderLeft ++ fg (lit "toolTitle") (bold titleText)
    ++ fg (lit "border") topBorderRight.

Definition helpText : jsstring :=
  let dismissHint := match onDismiss with Some _ => lit "  d dismiss" | None => [] end in
  fg (lit "dim")
     (Overlay.ARROWS ++ lit " navigate  Enter select" ++ dismissHint ++ lit "  Esc close").

(** [while (output.length < targetHeight - 2) output.push(emptyLine())]. *)
Definition padToHeight (output : list jsstring) (targetHeight : Z) : Result (list jsstring) :=
  if len output <? targetHeight - 2 then
    e <- emptyLine ;;
    Ok (output ++ List.repeat e (Z.to_nat (targetHeight - 2 - len output)))
  else Ok output.

(** [render(width)]; [tuiHeight] is the value of [tui.height] at the
    call. *)
Definition render (st : PickerState) (tuiHeight : option Z)
    : Result (PickerState * list jsstring) :=
  let targetHeight := Overlay.targetHeightOf tuiHeight in
  let head := [fg (lit "toolTitle") (bold title); []] in
  r <- match items st with
       | [] => Ok (st, head ++ [fg (lit "muted") (lit "No items")])
       | _ =>
         let availableHeight := targetHeight - 2 - 2 in
         let scrollOffset' := adjustScroll (cursorIndex st) (scrollOffset st) availableHeight in
         let visibleStart := scrollOffset' in
         let visibleEnd := Math_min (scrollOffset' + availableHeight) (len (items st)) in
         rows <- visibleRows (items st) (cursorIndex st)
                             (for_range visibleStart (visibleEnd - 1)) ;;
         Ok (mkPicker (items st) (cursorIndex st) scrollOffset', head ++ rows)
       end ;;
  let '(st', content) := r in
  let output := [topBorder] ++ map padLine content in
  output <- padToHeight output targetHeight ;;
  last <- match items st with
          | [] => emptyLine
          | _ => Ok (padLine helpText)
          end ;;
  bottom <- bottomBorder ;;
  Ok (st', output ++ [last] ++ [bottom]).

End Render.

(** [handleInput(data)]: the new state, the returned boolean and the
    calls made. *)
Definition handleInput (st : PickerState) (data : jsstring)
    : PickerState * bool * list PickerEffect :=
  let isCancel := str_eqb data (lit "q") || matchesKey data Overlay.KeyEscape in
  match items st with
  | [] => if isCancel then (st, true, [Cancel]) else (st, false, [])
  | _ =>
    if str_eqb data (lit "j") || matchesKey data Overlay.KeyDown then
      (mkPicker (items st)
                (if cursorIndex st <? len (items st) - 1
                 then cursorIndex st + 1 else cursorIndex st)
                (scrollOffset st),
       true, [Redraw])
    else if str_eqb data (lit "k") || matchesKey data Overlay.KeyUp then
      (mkPicker (items st)
                (if cursorIndex st >? 0 then cursorIndex st - 1 else cursorIndex st)
                (scrollOffset st),
       true, [Redraw])
    else if matchesKey data Overlay.KeyEnter then
      (st, true, [Select (index (items st) (cursorIndex st))])
    else
      match str_eqb data (lit "d"), onDismiss with
      | true, Some dismiss =>
        let item := index (items st) (cursorIndex st) in
        if dismiss item then
          let items' := splice1 (items st) (cursorIndex st) in
          match items' with
          | [] => (mkPicker items' (cursorIndex st) (scrollOffset st), true,
                   [DismissAsked item; Cancel])
          | _ =>
            (mkPicker items'
                      (if cursorIndex st >=? len items' then len items' - 1
                       else cursorIndex st)
                      (scrollOffset st),
             true, [DismissAsked item; Redraw])
          end
        else (st, true, [DismissAsked item])
      | _, _ => if isCancel then (st, true, [Cancel]) else (st, false, [])
      end
  end.

End CreatePickerHandler.

(** The theme of the unit tests of the picker. *)
Definition starBold (text : jsstring) : jsstring := lit "**" ++ text ++ lit "**".

(** [n] items "Item 1" ... "Item n" without description or meta. *)
Definition numberedItems (n : nat) : list PickerItem :=
  map (fun i => let k := toString (Z.of_nat i + 1) in
                mkItem k (lit "Item " ++ k) None None)
      (seq 0 n).

(** The key matcher of the unit tests: a key is the token of its name. *)
Definition tokenKey (data : jsstring) (key : Overlay.KeyId) : bool :=
  match key with
  | Overlay.KeyEscape => str_eqb data (lit "ESC")
  | Overlay.KeyUp => str_eqb data (lit "UP")
  | Overlay.KeyDown => str_eqb data (lit "DOWN")
  | Overlay.KeyEnter => str_eqb data (lit "ENTER")
  | Overlay.KeyTab => str_eqb data (lit "TAB")
  | Overlay.KeyCtrl k => str_eqb data (lit "CTRL+" ++ k)
  end.

End Picker.

(* ===================================================================== *)
(** ** Vocabulary for the snapshot ledger and the diff engine *)
(* ===================================================================== *)

Module Ledger.

Import State.

(** The tracked paths, in the order of the map. *)
Definition keys (s : DiffState) : list jsstring := map fst (snapshots s).

(** The calls that change a [DiffState]. *)
Inductive Call :=
| Track (filePath originalContent currentContent : jsstring)
| Update (filePath currentContent : jsstring)
| Dismiss (filePath : jsstring).

Definition call (s : DiffState) (c : Call) : DiffState :=
  match c with
  | Track p o cur => trackFile s p o cur
  | Update p cur => updateFile s p cur
  | Dismiss p => dismissFile s p
  end.

(** The state after a sequence of calls on a new [DiffState]. *)
Definition run (cs : list Call) : DiffState := fold_left call cs State.empty.

(** A snapshot whose two contents differ. *)
Definition changed (sn : FileSnapshot) : bool :=
  negb (str_eqb (originalContent sn) (currentContent sn)).

(** The records [computeDiff] makes of one hunk of the patch. *)
Definition hunkRecords (h : PatchHunk) : list DiffLine :=
  acc_hunks (processLines (lines h) (oldStart h) (newStart h) (mkAcc [] 0 0)).

(** The records of a given type. *)
Definition ofType (t : LineType) (l : list DiffLine) : list DiffLine :=
  filter (fun r => match type r, t with
                   | added, added | removed, removed | context, context => true
                   | _, _ => false
                   end) l.

(** The line numbers a list of records carries on one side. *)
Fixpoint defined (l : list (option Z)) : list Z :=
  match l with
  | [] => []
  | Some n :: r => n :: defined r
  | None :: r => defined r
  end.

(** [n, n+1, ..., n+k-1]. *)
Definition consecutive (n : Z) (k : nat) : list Z :=
  map (fun i => n + Z.of_nat i) (seq 0 k).

(** A record carries the line numbers of its type: an added line the new
    one only, a removed line the old one only, a context line both. *)
Definition shaped (r : DiffLine) : Prop :=
  match type r with
  | added => oldLineNumber r = None /\ newLineNumber r <> None
  | removed => oldLineNumber r <> None /\ newLineNumber r = None
  | context => oldLineNumber r <> None /\ newLineNumber r <> None
  end.

(** A patch of one hunk: a context line, a removed line, two added
    lines. *)
Definition samplePatch (_ _ _ : jsstring) : list PatchHunk :=
  [ mkPatchHunk 4 7 [lit " keep"; lit "-old"; lit "+new"; lit "+more"] ].

(** A line of a hunk that starts with "+", with "-". *)
Definition isAddedLine (line : jsstring) : bool :=
  match line with c :: _ => N.eqb c ch_plus | [] => false end.
Definition isRemovedLine (line : jsstring) : bool :=
  match line with c :: _ => N.eqb c ch_minus | [] => false end.

End Ledger.

(* ===================================================================== *)
(** ** Vocabulary for the rows of the inline view *)
(* ===================================================================== *)

Module ViewRows.

(** The two arrays of the view are those [buildRenderedLines] makes of
    its diff. *)
Definition Built (v : InlineDiffView) : Prop :=
  buildRenderedLines (highlightFn v) (diff v) = (renderedLines v, _lineToHunkIndex v).

(** The row an entry [k] of [_lineToHunkIndex] stands for: the separator
    for -1, else the rendering of record [k]. *)
Definition rowFor (v : InlineDiffView) (k : Z) : option RenderedLine :=
  if k =? -1 then Some createSeparatorLine
  else option_map
         (fun h => renderHunk (highlightFn v) (filePath (diff v)) h
                              (len (toString (getMaxLineNumber (diff v)))))
         (index (hunks (diff v)) k).

(** Code units other than ESC. *)
Definition noEsc (s : jsstring) : Prop := Forall (fun c => N.eqb c ESC = false) s.

(** The rows [lo .. hi] of a list that exist. *)
Definition rowsBetween {A} (l : list A) (lo hi : Z) : list A :=
  firstn (Z.to_nat (hi - lo + 1)) (skipn (Z.to_nat lo) l).

(** A line that opens with one of the three colours of [renderHunk] and
    [createSeparatorLine]. *)
Definition coloured (line : jsstring) : Prop :=
  exists c rest, In c [GREEN; RED; DIM] /\ line = c ++ rest.

(** Row [k] of the view is the cursor row or, in visual mode, lies in the
    visual range: the test of [render] for the background. *)
Definition highlighted (v : InlineDiffView) (k : Z) : bool :=
  (if _visualMode v
   then (k >=? fst (getVisualRange v)) && (k <=? snd (getVisualRange v))
   else false)
  || (k =? _cursorLine v).

End ViewRows.

(* ===================================================================== *)
(** ** Invariants of the two overlays *)
(* ===================================================================== *)

Module OverlaySpec.

Import Modal Overlay.

(** The diff view of the overlay, when there is one, is an
    [InlineDiffView] in one of the states its operations lead to with
    scroll amounts that are not negative. *)
Definition controllerInv (h : Handler) : Prop :=
  forall c, viewController h = Some c -> ReachableBy lineCount (Controller.inlineView c).

Definition OverlayInv (h : Handler) : Prop :=
  SessionInv (modal h) /\ controllerInv h.

(** A key sent to the overlay of the unit tests: the handler after
    [handleInput(data)]. *)
Definition press (h : Handler) (data : jsstring) : Handler :=
  match handleInput oneLinePatch noHighlight Picker.tokenKey h data with
  | Ok (h', _) => h'
  | Throw _ => h
  end.

(** The owner of the [DiffState] the modal was given dismisses a file in
    it and calls [modal.refresh()] ("call after state changes"). *)
Definition ownerDismisses (h : Handler) (filePath : jsstring) : Handler :=
  with_modal h
    (refresh oneLinePatch
       (ownerUpdates (modal h) (fun s => State.dismissFile s filePath))).

End OverlaySpec.

Module PickerSpec.

Import Picker.

(** The cursor of the picker designates an item, or is 0 when there is
    none, and the scroll offset is not negative. *)
Definition PickerInv (st : PickerState) : Prop :=
  Modal.bounded (cursorIndex st) (items st) /\ 0 <= scrollOffset st.

(** An item without a description line. *)
Definition plainItem (it : PickerItem) : Prop := nonEmpty (description it) = None.

End PickerSpec.

(* ===================================================================== *)
(** * Properties *)
(* ===================================================================== *)

(** ** Arithmetic and list helpers *)

Lemma Math_min_eq a b : Math_min a b = Z.min a b.
Proof. unfold Math_min. destruct (Z.ltb_spec a b); lia. Qed.

Lemma Math_max_eq a b : Math_max a b = Z.max a b.
Proof. unfold Math_max. destruct (Z.ltb_spec a b); lia. Qed.

Ltac zify_math := rewrite ?Math_min_eq, ?Math_max_eq in *.

Lemma len_app {A} (l1 l2 : list A) : len (l1 ++ l2) = len l1 + len l2.
Proof. unfold len. rewrite length_app. lia. Qed.

Lemma len_nonneg {A} (l : list A) : 0 <= len l.
Proof. unfold len. lia. Qed.

Lemma len_pos {A} (l : list A) : l <> [] -> 0 < len l.
Proof. destruct l; [congruence | unfold len; simpl; lia]. Qed.

Lemma len_nil_inv {A} (l : list A) : len l = 0 -> l = [].
Proof. destruct l; [reflexivity | unfold len; simpl; lia]. Qed.

(** ** Separator insertion (buildRenderedLines) *)

Section BuildRenderedLines.

Variable hl : option HighlightFn.
Variable path : jsstring.
Variable w : Z.

Let rowsOf (all : list DiffLine) (i : nat) : list RenderedLine :=
  (if gapBefore all i then [createSeparatorLine] else []) ++
  match nth_error all i with
  | Some h => [renderHunk hl path h w]
  | None => []
  end.

Let idxOf (all : list DiffLine) (i : nat) : list Z :=
  (if gapBefore all i then [-1] else []) ++ [Z.of_nat i].

Lemma lastAnchor_snoc pre h :
  lastAnchor (pre ++ [h]) = nullish (anchor h) (lastAnchor pre).
Proof. unfold lastAnchor. rewrite fold_left_app. reflexivity. Qed.

Lemma gapBefore_here pre h rest :
  gapBefore (pre ++ h :: rest) (List.length pre) =
  match lastAnchor pre, anchor h with
  | Some p, Some c => c >? p + 1
  | _, _ => false
  end.
Proof.
  unfold gapBefore.
  rewrite firstn_app, firstn_all, Nat.sub_diag, firstn_O, app_nil_r.
  rewrite nth_error_app2, Nat.sub_diag by lia. simpl.
  destruct (lastAnchor pre), (anchor h); reflexivity.
Qed.

Lemma buildLoop_spec hs : forall pre rl idx,
  buildLoop hl path w hs (len pre) (lastAnchor pre) rl idx =
  (rl ++ flat_map (rowsOf (pre ++ hs)) (seq (List.length pre) (List.length hs)),
   idx ++ flat_map (idxOf (pre ++ hs)) (seq (List.length pre) (List.length hs))).
Proof.
  induction hs as [|h rest IH]; intros pre rl idx.
  - simpl. now rewrite !app_nil_r.
  - cbn [buildLoop List.length seq flat_map].
    unfold rowsOf at 1, idxOf at 1.
    rewrite gapBefore_here.
    rewrite nth_error_app2, Nat.sub_diag by lia. cbn [nth_error].
    replace (len pre + 1) with (len (pre ++ [h])) by (rewrite len_app; reflexivity).
    replace (match anchor h with Some c => Some c | None => lastAnchor pre end)
      with (lastAnchor (pre ++ [h]))
      by (rewrite lastAnchor_snoc; destruct (anchor h); reflexivity).
    replace (S (List.length pre)) with (List.length (pre ++ [h]))
      by (rewrite length_app; simpl; lia).
    replace (pre ++ h :: rest) with ((pre ++ [h]) ++ rest)
      by (now rewrite <- app_assoc).
    destruct (lastAnchor pre) as [p|], (anchor h) as [c|];
      try destruct (c >? p + 1);
      rewrite IH, <- ?app_assoc; reflexivity.
Qed.

End BuildRenderedLines.

Lemma buildRenderedLines_spec hl d :
  buildRenderedLines hl d =
  (contentRows hl d (gapBefore (hunks d)),
   indexRows (gapBefore (hunks d)) (List.length (hunks d))).
Proof.
  unfold buildRenderedLines, contentRows, indexRows.
  destruct (hunks d) as [|h rest] eqn:E; [reflexivity|].
  rewrite <- E.
  exact (buildLoop_spec hl (filePath d) _ (hunks d) [] [] []).
Qed.

(** C1 (as amended): loading a diff, through the constructor or through
    [setDiff], walks the records in order and puts a Separator row before
    record [i] exactly when record [i] has an anchor (new line number if
    present, else old), some earlier record has one, and the anchor of
    record [i] is greater than one more than the most recent earlier
    anchor.  Four context lines at new line numbers 1, 2, 10, 11 give
    5 rows, the separator at index 2. *)
Theorem separator_insertion (d : FileDiff) (hl : option HighlightFn) (v : InlineDiffView) :
  (_lineToHunkIndex (new d hl) = indexRows (gapBefore (hunks d)) (List.length (hunks d)) /\
   renderedLines (new d hl) = contentRows hl d (gapBefore (hunks d))) /\
  (_lineToHunkIndex (setDiff v d) = indexRows (gapBefore (hunks d)) (List.length (hunks d)) /\
   renderedLines (setDiff v d) = contentRows (highlightFn v) d (gapBefore (hunks d))) /\
  (_lineToHunkIndex (new gapDiff None) = [0; 1; -1; 2; 3] /\
   totalLines (new gapDiff None) = 5 /\
   map (isSeparatorLine (new gapDiff None)) [0; 1; 2; 3; 4] = [false; false; true; false; false] /\
   List.length (snd (render (new gapDiff None) 80 10)) = 5%nat /\
   nth_error (snd (render (new gapDiff None) 80 10)) 2 = Some (DIM ++ DOTS ++ RESET)).
Proof.
  split; [|split].
  - unfold new. rewrite buildRenderedLines_spec. split; reflexivity.
  - unfold setDiff. rewrite buildRenderedLines_spec. split; reflexivity.
  - repeat split; vm_compute; reflexivity.
Qed.

(** C1 as worded fails: in the diff of the unit tests the removed line 2
    is followed by the added line 2; both have an anchor and the second is
    not one more than the first, yet no separator row is built.  And a
    record without line numbers does not hide the anchor before it: the
    separator is built before line 5 although the record appended just
    before it has no anchor. *)
Lemma separator_rule_as_worded_fails :
  (specSeparatorBefore (hunks simpleDiff) 2 = true /\
   _lineToHunkIndex (new simpleDiff None) = [0; 1; 2; 3; 4] /\
   _lineToHunkIndex (new simpleDiff None)
     <> indexRows (specSeparatorBefore (hunks simpleDiff)) (List.length (hunks simpleDiff))) /\
  (specSeparatorBefore (hunks unnumberedDiff) 2 = false /\
   _lineToHunkIndex (new unnumberedDiff None) = [0; 1; -1; 2]).
Proof.
  split; [split; [|split] | split]; vm_compute;
    solve [reflexivity | discriminate].
Qed.

(** ** The view-state invariant *)

Lemma ViewInv_iff v :
  ViewInv v <->
  0 <= _cursorLine v <= Z.max 0 (len (renderedLines v) - 1) /\ 0 <= _scrollOffset v.
Proof.
  unfold ViewInv. split.
  - intros (Hne & He & Hs). split; [|exact Hs].
    destruct (renderedLines v) as [|r rl] eqn:E.
    + rewrite He by reflexivity. unfold len. simpl. lia.
    + assert (r :: rl <> []) as Hn by discriminate.
      specialize (Hne Hn). lia.
  - intros (Hc & Hs). split; [|split]; [| |exact Hs].
    + intros Hn. apply len_pos in Hn. lia.
    + intros He. rewrite He in Hc. unfold len in Hc. simpl in Hc. lia.
Qed.

Lemma new_ViewInv d hl : ViewInv (new d hl).
Proof.
  apply ViewInv_iff. unfold new.
  destruct (buildRenderedLines hl d) as [rl idx]. simpl.
  pose proof (len_nonneg rl). lia.
Qed.

Lemma setCursor_fields v line :
  renderedLines (setCursor v line) = renderedLines v /\
  _scrollOffset (setCursor v line) = _scrollOffset v /\
  _cursorLine (setCursor v line) = clamp 0 (Z.max 0 (len (renderedLines v) - 1)) line.
Proof.
  unfold setCursor, clamp. simpl. zify_math. repeat split; lia.
Qed.

Lemma renderOffset_eq v h :
  renderOffset v h =
  Z.min (let s1 := if _cursorLine v >=? _scrollOffset v + h
                   then _cursorLine v - h + 1 else _scrollOffset v in
         if _cursorLine v <? s1 then _cursorLine v else s1)
        (Z.max 0 (len (renderedLines v) - h)).
Proof. unfold renderOffset. zify_math. reflexivity. Qed.

Lemma renderOffset_nonneg v h :
  0 <= _cursorLine v -> 0 <= _scrollOffset v -> 0 <= renderOffset v h.
Proof.
  intros Hc Hs. rewrite renderOffset_eq. cbv zeta.
  destruct (Z.geb_spec (_cursorLine v) (_scrollOffset v + h));
    match goal with |- context [?a <? ?b] => destruct (Z.ltb_spec a b) end; lia.
Qed.

Lemma perform_preserves_ViewInv o v :
  ViewInv v -> lineCount o -> ViewInv (perform o v).
Proof.
  intros Hv Hn.
  destruct o; cbn [perform lineCount] in *.
  - (* setDiff *)
    apply ViewInv_iff. unfold setDiff.
    destruct (buildRenderedLines (highlightFn v) d) as [rl idx]. simpl.
    pose proof (len_nonneg rl). lia.
  - apply ViewInv_iff in Hv. apply ViewInv_iff.
    unfold moveCursor, setCursor. simpl. zify_math. lia.
  - apply ViewInv_iff in Hv. apply ViewInv_iff.
    unfold setCursor. simpl. zify_math. lia.
  - apply ViewInv_iff in Hv. apply ViewInv_iff.
    unfold scrollUp, moveCursor, setCursor, with_scrollOffset. simpl. zify_math. lia.
  - apply ViewInv_iff in Hv. apply ViewInv_iff.
    unfold scrollDown, moveCursor, setCursor, with_scrollOffset. simpl. zify_math.
    pose proof (len_nonneg (renderedLines v)). lia.
  - apply ViewInv_iff. unfold scrollToTop. simpl. lia.
  - apply ViewInv_iff. unfold scrollToBottom. simpl. zify_math.
    pose proof (len_nonneg (renderedLines v)). lia.
  - apply ViewInv_iff in Hv. apply ViewInv_iff. unfold enterVisualMode. simpl. lia.
  - apply ViewInv_iff in Hv. apply ViewInv_iff. unfold exitVisualMode. simpl. lia.
  - apply ViewInv_iff in Hv. apply ViewInv_iff. unfold render, with_scrollOffset. simpl.
    split; [lia|]. apply renderOffset_nonneg; lia.
Qed.

Lemma index_in_bounds {A} (l : list A) i :
  (i >=? 0) && (i <? len l) = true -> exists x, index l i = Some x.
Proof.
  intros H. apply andb_true_iff in H. destruct H as [H0 H1].
  apply Z.geb_le in H0. apply Z.ltb_lt in H1.
  unfold index. destruct (Z.ltb_spec i 0); [lia|].
  destruct (nth_error l (Z.to_nat i)) eqn:E; [eauto|].
  apply nth_error_None in E. unfold len in H1. lia.
Qed.

Lemma selectedRawLoop_total rl ixs : forall acc,
  exists ls, selectedRawLoop rl ixs acc = Ok ls.
Proof.
  induction ixs as [|i rest IH]; intros acc; simpl.
  - eauto.
  - destruct ((i >=? 0) && (i <? len rl)) eqn:G.
    + destruct (index_in_bounds rl i G) as [x ->]. apply IH.
    + apply IH.
Qed.

Lemma getSelectedRawLines_total v : exists ls, getSelectedRawLines v = Ok ls.
Proof. unfold getSelectedRawLines. simpl. apply selectedRawLoop_total. Qed.

(** C2 (as amended): the constructor establishes the view-state invariant
    ([0 <= cursorLine < rows.length], or [cursorLine = 0] when there is no
    row, and [scrollOffset >= 0]); every public operation preserves it,
    [scrollDown(n)] for [n >= 0]; the selection getters leave the state
    untouched and never throw; [setDiff] resets cursor, scroll offset and
    visual mode. *)
Theorem view_invariant_preserved (o : Op) (v : InlineDiffView) :
  ViewInv v -> lineCount o ->
  ViewInv (perform o v) /\
  (exists ls, getSelectedRawLines (perform o v) = Ok ls) /\
  (forall d hl, ViewInv (new d hl)) /\
  (forall d, _cursorLine (setDiff v d) = 0 /\
             _scrollOffset (setDiff v d) = 0 /\
             _visualMode (setDiff v d) = false).
Proof.
  intros Hv Hn. split; [|split; [|split]].
  - now apply perform_preserves_ViewInv.
  - apply getSelectedRawLines_total.
  - apply new_ViewInv.
  - intros d. unfold setDiff.
    destruct (buildRenderedLines (highlightFn v) d). simpl. auto.
Qed.

Lemma view_invariant_preserved_witness :
  ViewInv (new gapDiff None) /\ lineCount (OpScrollDown 3) /\
  ViewInv (perform (OpScrollDown 3) (new gapDiff None)).
Proof.
  assert (Hv : ViewInv (new gapDiff None)).
  { apply ViewInv_iff. vm_compute. repeat split; discriminate. }
  assert (Hn : lineCount (OpScrollDown 3)) by (simpl; lia).
  split; [exact Hv|]. split; [exact Hn|].
  exact (proj1 (view_invariant_preserved (OpScrollDown 3) (new gapDiff None) Hv Hn)).
Defined.

(** C2 as worded fails: [scrollDown] with a negative argument leaves a
    negative scroll offset. *)
Lemma scrollDown_negative_breaks_invariant :
  ViewInv (new gapDiff None) /\
  _scrollOffset (scrollDown (new gapDiff None) (-1)) = -1 /\
  ~ ViewInv (perform (OpScrollDown (-1)) (new gapDiff None)).
Proof.
  split; [|split].
  - apply new_ViewInv.
  - vm_compute. reflexivity.
  - intros (_ & _ & H). vm_compute in H. apply H. reflexivity.
Qed.

(** Every state reached from the constructor by public operations, the
    scroll commands with a line count, satisfies the invariant. *)
Lemma Reachable_ViewInv v : ReachableBy lineCount v -> ViewInv v.
Proof.
  induction 1.
  - apply new_ViewInv.
  - now apply perform_preserves_ViewInv.
Qed.

(** ** Rendering: scroll correction *)

Lemma length_mapi_from {A B} (f : A -> Z -> B) l : forall i,
  List.length (mapi_from f i l) = List.length l.
Proof. induction l; intros; simpl; [reflexivity | now rewrite IHl]. Qed.

Lemma len_mapi {A B} (f : A -> Z -> B) l : len (mapi f l) = len l.
Proof. unfold len, mapi. now rewrite length_mapi_from. Qed.

Lemma length_slice {A} (l : list A) start stop :
  0 <= start <= stop -> stop <= len l ->
  len (slice l start stop) = stop - start.
Proof.
  intros H1 H2. unfold slice, slice_index.
  destruct (Z.ltb_spec start 0); [lia|].
  destruct (Z.ltb_spec stop 0); [lia|].
  zify_math. unfold len in *.
  rewrite length_firstn, length_skipn. lia.
Qed.

Lemma length_slice_le {A} (l : list A) start h :
  0 <= h -> len (slice l start (Math_min (start + h) (len l))) <= h.
Proof.
  intros H0. unfold slice, slice_index.
  pose proof (len_nonneg l) as Hl.
  unfold len in *. rewrite length_firstn, length_skipn.
  destruct (Z.ltb_spec start 0);
    match goal with |- context [?a <? 0] => destruct (Z.ltb_spec a 0) end;
    zify_math; lia.
Qed.

Lemma index_mapi_from {A B} (f : A -> Z -> B) l : forall a i,
  0 <= i ->
  index (mapi_from f a l) i = option_map (fun x => f x (a + i)) (index l i).
Proof.
  unfold index. induction l as [|x l IH]; intros a i Hi.
  - destruct (Z.ltb_spec i 0); [lia|]. now destruct (Z.to_nat i).
  - destruct (Z.ltb_spec i 0); [lia|]. cbn [mapi_from].
    destruct (Z.to_nat i) as [|n] eqn:E.
    + cbn [nth_error option_map]. do 2 f_equal. lia.
    + cbn [nth_error]. specialize (IH (a + 1) (i - 1) ltac:(lia)).
      destruct (Z.ltb_spec (i - 1) 0); [lia|].
      replace (Z.to_nat (i - 1)) with n in IH by lia. rewrite IH.
      destruct (nth_error l n); cbn [option_map]; [|reflexivity].
      do 2 f_equal. lia.
Qed.

Lemma index_slice {A} (l : list A) start stop i :
  0 <= start <= stop -> stop <= len l -> 0 <= i < stop - start ->
  index (slice l start stop) i = index l (start + i).
Proof.
  intros H1 H2 Hi. unfold slice, slice_index.
  destruct (Z.ltb_spec start 0); [lia|].
  destruct (Z.ltb_spec stop 0); [lia|].
  zify_math. rewrite (Z.min_l start), (Z.min_l stop), Z.max_l by lia.
  unfold index.
  destruct (Z.ltb_spec i 0); [lia|].
  destruct (Z.ltb_spec (start + i) 0); [lia|].
  rewrite nth_error_firstn, nth_error_skipn.
  destruct (Nat.ltb_spec (Z.to_nat i) (Z.to_nat (stop - start))); [|lia].
  f_equal. lia.
Qed.

Lemma render_offset_range v h :
  ViewInv v -> 0 <= renderOffset v h <= Z.max 0 (len (renderedLines v) - h).
Proof.
  intros Hv. apply ViewInv_iff in Hv. destruct Hv as [Hc Hs].
  split; [apply renderOffset_nonneg; lia|].
  rewrite renderOffset_eq. lia.
Qed.

(** The rows [render] returns are the rows of the view from the stored
    offset on, each passed through [renderRow] with its position. *)
Lemma render_rows_at v width height :
  ViewInv v -> 0 <= height ->
  len (snd (render v width height))
    = Z.min height (len (renderedLines v) - renderOffset v height) /\
  forall i, 0 <= i < Z.min height (len (renderedLines v) - renderOffset v height) ->
    exists line,
      index (renderedLines v) (renderOffset v height + i) = Some line /\
      index (snd (render v width height)) i
        = Some (renderRow (fst (render v width height)) width (renderOffset v height) line i).
Proof.
  intros Hv Hh. pose proof (render_offset_range v height Hv) as Hr.
  pose proof (len_nonneg (renderedLines v)) as Hl.
  unfold render. cbn [fst snd]. split.
  - rewrite len_mapi. rewrite length_slice; zify_math; lia.
  - intros i Hi.
    destruct (index_in_bounds (renderedLines v) (renderOffset v height + i)) as [line Hline].
    { apply andb_true_iff. split; [apply Z.geb_le | apply Z.ltb_lt]; lia. }
    exists line. split; [exact Hline|].
    unfold mapi. rewrite index_mapi_from by lia.
    rewrite index_slice by (zify_math; lia).
    rewrite Hline. cbn [option_map]. reflexivity.
Qed.

(** C4 (as amended): on a state that satisfies the view-state invariant,
    [render] applies the auto-scroll correction and the clamp of the
    specification and leaves the cursor where it is; for a height that is
    not negative the rows it returns are the rows of the view from the
    stored offset on, [min height (rows.length - offset)] of them, in
    order; and for a non-empty row list and a height of at least 1 the
    cursor lies in [[offset, offset + height)] and the row returned at
    position [cursor - offset] is the cursor row of the view, with the
    background. *)
Theorem render_autoscroll (v : InlineDiffView) (width height : Z) :
  ViewInv v ->
  let v' := fst (render v width height) in
  let rows := snd (render v width height) in
  _scrollOffset v' =
    specRenderOffset (_cursorLine v) (_scrollOffset v) (len (renderedLines v)) height /\
  0 <= _scrollOffset v' <= Z.max 0 (len (renderedLines v) - height) /\
  _cursorLine v' = _cursorLine v /\
  renderedLines v' = renderedLines v /\
  (0 <= height ->
     len rows = Z.min height (len (renderedLines v) - _scrollOffset v') /\
     forall i, 0 <= i < len rows ->
       exists line,
         index (renderedLines v) (_scrollOffset v' + i) = Some line /\
         index rows i = Some (renderRow v' width (_scrollOffset v') line i)) /\
  (renderedLines v <> [] -> 1 <= height ->
     _scrollOffset v' <= _cursorLine v' < _scrollOffset v' + height /\
     exists line,
       index (renderedLines v) (_cursorLine v) = Some line /\
       index rows (_cursorLine v - _scrollOffset v')
         = Some (truncateToWidth (BG_ON ++ replaceFinalReset (content line)) width)).
Proof.
  intros Hv. pose proof (render_offset_range v height Hv) as Hrange.
  pose proof Hv as Hv0. apply ViewInv_iff in Hv. destruct Hv as [Hc Hs].
  cbv zeta.
  change (_scrollOffset (fst (render v width height))) with (renderOffset v height).
  change (_cursorLine (fst (render v width height))) with (_cursorLine v).
  change (renderedLines (fst (render v width height))) with (renderedLines v).
  pose proof (len_nonneg (renderedLines v)) as Hl.
  assert (Hoff : renderOffset v height =
                 specRenderOffset (_cursorLine v) (_scrollOffset v)
                                  (len (renderedLines v)) height).
  { rewrite renderOffset_eq. unfold specRenderOffset, clamp. cbv zeta.
    destruct (Z.geb_spec (_cursorLine v) (_scrollOffset v + height));
      match goal with |- context [?a <? ?b] => destruct (Z.ltb_spec a b) end; lia. }
  split; [exact Hoff|]. split; [exact Hrange|]. split; [reflexivity|].
  split; [reflexivity|]. split.
  - intros Hh. destruct (render_rows_at v width height Hv0 Hh) as [Hlen Hrows].
    split; [exact Hlen|]. intros i Hi. apply Hrows. lia.
  - intros Hne Hh. apply len_pos in Hne.
    assert (Hwin : renderOffset v height <= _cursorLine v < renderOffset v height + height).
    { rewrite renderOffset_eq. cbv zeta.
      destruct (Z.geb_spec (_cursorLine v) (_scrollOffset v + height));
        match goal with |- context [?a <? ?b] => destruct (Z.ltb_spec a b) end; lia. }
    split; [exact Hwin|].
    destruct (render_rows_at v width height Hv0 ltac:(lia)) as [_ Hrows].
    destruct (Hrows (_cursorLine v - renderOffset v height)) as (line & Hline & Hrow); [lia|].
    replace (renderOffset v height + (_cursorLine v - renderOffset v height))
      with (_cursorLine v) in Hline by lia.
    exists line. split; [exact Hline|]. rewrite Hrow. f_equal.
    unfold renderRow. cbv zeta.
    replace (renderOffset v height + (_cursorLine v - renderOffset v height))
      with (_cursorLine v) by lia.
    change (_cursorLine (fst (render v width height))) with (_cursorLine v).
    now rewrite Z.eqb_refl, orb_true_r.
Qed.

Lemma render_autoscroll_witness :
  ViewInv (scrollToBottom (new gapDiff None)) /\
  _scrollOffset (fst (render (scrollToBottom (new gapDiff None)) 80 2)) = 3 /\
  _cursorLine (fst (render (scrollToBottom (new gapDiff None)) 80 2)) = 4 /\
  len (snd (render (scrollToBottom (new gapDiff None)) 80 2)) = 2.
Proof.
  assert (Hv : ViewInv (scrollToBottom (new gapDiff None))).
  { apply ViewInv_iff. vm_compute. repeat split; discriminate. }
  split; [exact Hv|].
  destruct (render_autoscroll (scrollToBottom (new gapDiff None)) 80 2 Hv)
    as (H1 & _ & H3 & _ & H5 & _).
  split; [rewrite H1 | split; [rewrite H3 | rewrite (proj1 (H5 ltac:(lia)))]];
    vm_compute; reflexivity.
Defined.

(** C4 as worded fails: [render] clamps the offset from above only.  After
    [scrollDown(-1)] on the five rows of [gapDiff] the offset is -1 and the
    cursor 0; [render(80, 10)] leaves the offset at -1, outside
    [[0, max 0 (rows.length - height)]], and returns one row, the last row
    of the view, which is not the cursor row. *)
Lemma render_keeps_negative_offset :
  let v := scrollDown (new gapDiff None) (-1) in
  Reachable v /\
  _cursorLine v = 0 /\ len (renderedLines v) = 5 /\
  _scrollOffset (fst (render v 80 10)) = -1 /\
  ~ (0 <= _scrollOffset (fst (render v 80 10)) <= Z.max 0 (len (renderedLines v) - 10)) /\
  snd (render v 80 10)
    = [truncateToWidth (nullish_or (option_map content (index (renderedLines v) 4)) []) 80] /\
  index (snd (render v 80 10)) (_cursorLine v - _scrollOffset (fst (render v 80 10))) = None.
Proof.
  cbv zeta. split.
  - exact (Reach_step _ (OpScrollDown (-1)) _ (Reach_new _ gapDiff None) I).
  - split; [vm_compute; reflexivity|]. split; [vm_compute; reflexivity|].
    split; [vm_compute; reflexivity|]. split.
    + intros [H _]. vm_compute in H. apply H. reflexivity.
    + split; vm_compute; reflexivity.
Qed.

(** ** Scrolling *)

(** C5 (as amended): for [n >= 0], [scrollUp(n)] lowers the scroll offset
    by [n] and stops at 0, [scrollDown(n)] raises it by [n] and stops at
    [rows.length]; each also moves the cursor by the same signed amount,
    clamped into [[0, rows.length - 1]] (0 when there is no row). *)
Theorem scroll_moves_cursor (v : InlineDiffView) (n : Z) :
  0 <= n -> ViewInv v ->
  _scrollOffset (scrollUp v n) = Z.max 0 (_scrollOffset v - n) /\
  _scrollOffset (scrollDown v n) = Z.min (len (renderedLines v)) (_scrollOffset v + n) /\
  (_scrollOffset v + n <= len (renderedLines v) ->
     _scrollOffset (scrollDown v n) = _scrollOffset v + n) /\
  0 <= _scrollOffset (scrollUp v n) /\
  0 <= _scrollOffset (scrollDown v n) /\
  _cursorLine (scrollUp v n) =
    clamp 0 (Z.max 0 (len (renderedLines v) - 1)) (_cursorLine v - n) /\
  _cursorLine (scrollDown v n) =
    clamp 0 (Z.max 0 (len (renderedLines v) - 1)) (_cursorLine v + n).
Proof.
  intros Hn Hv. apply ViewInv_iff in Hv.
  pose proof (len_nonneg (renderedLines v)) as Hl.
  unfold scrollUp, scrollDown, moveCursor, setCursor, with_scrollOffset, clamp.
  cbn [_scrollOffset _cursorLine renderedLines]. zify_math.
  repeat split; lia.
Qed.

Lemma scroll_moves_cursor_witness :
  0 <= 2 /\ ViewInv (new gapDiff None) /\
  _scrollOffset (scrollDown (new gapDiff None) 2) = 2 /\
  _cursorLine (scrollDown (new gapDiff None) 2) = 2.
Proof.
  assert (Hn : 0 <= 2) by lia.
  assert (Hv : ViewInv (new gapDiff None)) by apply new_ViewInv.
  split; [exact Hn|]. split; [exact Hv|].
  destruct (scroll_moves_cursor (new gapDiff None) 2 Hn Hv)
    as (_ & H2 & _ & _ & _ & _ & H7).
  split; [rewrite H2 | rewrite H7]; vm_compute; reflexivity.
Defined.

(** C5 as worded fails: with 5 rows, [scrollDown(10)] from offset 0 leaves
    the offset at 5, not at 10. *)
Lemma scrollDown_stops_at_row_count :
  0 <= 10 /\
  len (renderedLines (new gapDiff None)) = 5 /\
  _scrollOffset (scrollDown (new gapDiff None) 10) = 5 /\
  _scrollOffset (scrollDown (new gapDiff None) 10)
    <> Z.max 0 (_scrollOffset (new gapDiff None) + 10).
Proof.
  split; [lia|]. split; [|split]; vm_compute; [reflexivity | reflexivity | discriminate].
Qed.

(** ** Visual range *)

(** C6: [getVisualRange] is the pair (min, max) of anchor and cursor, in
    that order whichever of the two is smaller: it is ordered, unchanged
    when anchor and cursor are exchanged, and after entering visual mode at
    row [a] and moving the cursor by any [delta] it is the pair (min, max)
    of [a] and the new cursor row. *)
Theorem visual_range_min_max (v : InlineDiffView) (delta : Z) :
  getVisualRange v =
    (Z.min (_visualAnchor v) (_cursorLine v), Z.max (_visualAnchor v) (_cursorLine v)) /\
  fst (getVisualRange v) <= snd (getVisualRange v) /\
  getVisualRange
    (mkView (diff v) (highlightFn v) (renderedLines v) (_scrollOffset v)
            (_visualAnchor v) (_lineToHunkIndex v) (_visualMode v) (_cursorLine v))
    = getVisualRange v /\
  (let v1 := moveCursor (enterVisualMode v) delta in
   _visualMode v1 = true /\
   getVisualRange v1 =
     (Z.min (_cursorLine v) (_cursorLine v1), Z.max (_cursorLine v) (_cursorLine v1))).
Proof.
  unfold getVisualRange, moveCursor, setCursor, enterVisualMode.
  cbn [_visualAnchor _cursorLine _visualMode fst snd renderedLines]. zify_math.
  repeat split; try lia.
  f_equal; lia.
Qed.

(** ** computeDiff *)

Lemma str_eqb_spec a b : reflect (a = b) (str_eqb a b).
Proof.
  unfold str_eqb. destruct (list_eq_dec N.eq_dec a b); constructor; assumption.
Qed.

(** C7: with both contents empty [computeDiff] returns no line record,
    zero counts and [isNewFile = false]; on every input [isNewFile] is
    true exactly when the baseline is empty and the current content is
    not. *)
Theorem computeDiff_new_file_flag
    (structuredPatch : jsstring -> jsstring -> jsstring -> list PatchHunk)
    (path original current : jsstring) :
  computeDiff structuredPatch path [] [] = mkFileDiff path false [] 0 0 /\
  (isNewFile (computeDiff structuredPatch path original current) = true
   <-> original = [] /\ current <> []).
Proof.
  split; [reflexivity|].
  unfold computeDiff.
  destruct (str_eqb_spec original []) as [Eo|Eo];
    destruct (str_eqb_spec current []) as [Ec|Ec];
    cbn [andb negb isNewFile]; split.
  all: try (intros H; discriminate H).
  all: try (intros [H1 H2]; contradiction).
  all: try (intros _; split; assumption).
  all: intros _; reflexivity.
Qed.

(** ** Truncation (truncateToWidth) *)

Lemma escapesClosed_app s : forall b t,
  escapesClosed b s = true ->
  escapesClosed b (s ++ t) = escapesClosed false t.
Proof.
  induction s as [|c r IH]; intros b t H; simpl in *.
  - destruct b; [discriminate | reflexivity].
  - destruct (N.eqb c ESC).
    + apply andb_true_iff in H. destruct H as [Hb Hr].
      rewrite Hb. simpl. now apply IH.
    + destruct b; now apply IH.
Qed.

Lemma scannerCount_app s : forall b t,
  escapesClosed b s = true ->
  scannerCount b (s ++ t) = (scannerCount b s + scannerCount false t)%nat.
Proof.
  induction s as [|c r IH]; intros b t H; simpl in *.
  - destruct b; [discriminate | reflexivity].
  - destruct (N.eqb c ESC).
    + apply andb_true_iff in H. destruct H as [_ Hr]. now apply IH.
    + destruct b; [now apply IH|]. now rewrite (IH false t H).
Qed.

Lemma plain_sequence_closed e :
  plain e ->
  escapesClosed true (e ++ [ch_m]) = true /\ scannerCount true (e ++ [ch_m]) = O.
Proof.
  induction 1 as [|c r [Hc1 Hc2] _ IH]; simpl.
  - split; reflexivity.
  - rewrite Hc1, Hc2. exact IH.
Qed.

Lemma scannerLength_snoc result c :
  wellFormed result = true -> N.eqb c ESC = false ->
  scannerLength (result ++ [c]) = scannerLength result + 1.
Proof.
  intros Hw Hc. unfold scannerLength, wellFormed in *.
  rewrite scannerCount_app by assumption. simpl. rewrite Hc. lia.
Qed.

Lemma wellFormed_snoc result c :
  wellFormed result = true -> N.eqb c ESC = false ->
  wellFormed (result ++ [c]) = true.
Proof.
  intros Hw Hc. unfold wellFormed in *.
  rewrite escapesClosed_app by assumption. simpl. now rewrite Hc.
Qed.

Lemma wellFormed_sequence result e :
  wellFormed result = true -> plain e ->
  wellFormed (result ++ (ESC :: e) ++ [ch_m]) = true /\
  scannerLength (result ++ (ESC :: e) ++ [ch_m]) = scannerLength result.
Proof.
  intros Hw He. unfold wellFormed, scannerLength in *.
  destruct (plain_sequence_closed e He) as [H1 H2].
  rewrite escapesClosed_app, scannerCount_app by assumption.
  simpl. rewrite H1, H2. split; [reflexivity | lia].
Qed.

Lemma truncateLoop_inv width line : forall vis result inEscape escapeSequence,
  wellFormed result = true ->
  escapeState inEscape escapeSequence ->
  scannerLength result <= vis ->
  let out := truncateLoop width line vis result inEscape escapeSequence in
  wellFormed out = true /\
  scannerLength out <= Z.max vis width /\
  exists t, out = result ++ t.
Proof.
  induction line as [|c rest IH]; intros vis result inEscape esc Hw He Hv; cbn [truncateLoop].
  - cbv zeta. repeat split; [assumption | lia | exists []; now rewrite app_nil_r].
  - destruct (N.eqb c ESC) eqn:Ec.
    + apply IH; try assumption.
      intros _. apply N.eqb_eq in Ec. subst c. exists []. split; [reflexivity | constructor].
    + destruct inEscape.
      * destruct (He eq_refl) as (e & -> & Hp).
        destruct (N.eqb c ch_m) eqn:Em.
        -- apply N.eqb_eq in Em. subst c.
           destruct (wellFormed_sequence result e Hw Hp) as [Hw' Hv'].
           specialize (IH vis (result ++ (ESC :: e) ++ [ch_m]) false []).
           cbv zeta in IH. destruct IH as (H1 & H2 & t & Ht).
           ++ exact Hw'.
           ++ intros H; discriminate H.
           ++ rewrite Hv'. exact Hv.
           ++ cbv zeta. repeat split; try assumption.
              exists (((ESC :: e) ++ [ch_m]) ++ t). rewrite Ht. now rewrite <- app_assoc.
        -- apply IH; try assumption.
           intros _. exists (e ++ [c]). split; [reflexivity|].
           unfold plain. apply Forall_app. split; [exact Hp|]. repeat constructor; assumption.
      * destruct (Z.geb_spec vis width) as [Hge|Hlt].
        -- cbv zeta. repeat split; [assumption | lia | exists []; now rewrite app_nil_r].
        -- specialize (IH (vis + 1) (result ++ [c]) false esc).
           cbv zeta in IH. destruct IH as (H1 & H2 & t & Ht).
           ++ now apply wellFormed_snoc.
           ++ intros H; discriminate H.
           ++ rewrite scannerLength_snoc by assumption. lia.
           ++ cbv zeta. repeat split; [assumption | lia |].
              exists ([c] ++ t). rewrite Ht. now rewrite <- app_assoc.
Qed.

Lemma startsWith_app p t : startsWith (p ++ t) p = true.
Proof.
  induction p as [|a p IH]; simpl.
  - destruct t; reflexivity.
  - now rewrite N.eqb_refl, IH.
Qed.


Lemma startsWith_includes s p : startsWith s p = true -> includes s p = true.
Proof. intros H. destruct s; simpl in *; now rewrite H. Qed.

Lemma RESET_closed : escapesClosed false RESET = true /\ scannerCount false RESET = O.
Proof. split; reflexivity. Qed.

Lemma truncateToWidth_cases line width :
  let body := truncateLoop width line 0 [] false [] in
  (truncateToWidth line width = body /\
   (includes body [ESC; ch_lbracket] = true -> endsWith body RESET = true)) \/
  (truncateToWidth line width = body ++ RESET /\
   includes body [ESC; ch_lbracket] = true).
Proof.
  cbv zeta. unfold truncateToWidth.
  destruct (includes _ [ESC; ch_lbracket]) eqn:Ei; simpl.
  - destruct (endsWith _ RESET) eqn:Ee; simpl.
    + left. split; [reflexivity | intros _; reflexivity].
    + right. split; reflexivity.
  - left. split; [reflexivity | intros H; discriminate H].
Qed.


Lemma truncateToWidth_visible line width :
  scannerLength (truncateToWidth line width) <= Z.max 0 width.
Proof.
  destruct (truncateLoop_inv width line 0 [] false []) as (Hw & Hv & _);
    [reflexivity | intros H; discriminate H | unfold scannerLength; simpl; lia |].
  destruct (truncateToWidth_cases line width) as [[-> _]|[-> _]]; [exact Hv|].
  unfold scannerLength, wellFormed in *. rewrite scannerCount_app by exact Hw.
  simpl. lia.
Qed.

Lemma includes_suffix s : forall t p, includes t p = true -> includes (s ++ t) p = true.
Proof.
  induction s as [|a s IH]; intros t p H; simpl; [exact H|].
  rewrite (IH _ _ H). apply orb_true_r.
Qed.







(** On a line whose escape sequences are all closed the loop returns a
    prefix of the line, and the whole line when it fits. *)
Lemma truncateLoop_prefix width line : forall vis result inEscape escapeSequence,
  escapesClosed inEscape line = true ->
  (inEscape = false -> escapeSequence = []) ->
  (exists rest,
     result ++ escapeSequence ++ line =
     truncateLoop width line vis result inEscape escapeSequence ++ rest) /\
  (vis + Z.of_nat (scannerCount inEscape line) <= width ->
     truncateLoop width line vis result inEscape escapeSequence =
     result ++ escapeSequence ++ line).
Proof.
  induction line as [|c r IH]; intros vis result inEscape esc Hc He; cbn [truncateLoop].
  - simpl in Hc. destruct inEscape; [discriminate|]. rewrite (He eq_refl).
    split; [exists []|]; now rewrite !app_nil_r.
  - simpl in Hc. cbn [scannerCount]. destruct (N.eqb c ESC) eqn:Ec.
    + apply andb_true_iff in Hc. destruct Hc as [Hb Hr].
      destruct inEscape; [discriminate|]. rewrite (He eq_refl). cbn [app].
      apply N.eqb_eq in Ec. subst c.
      destruct (IH vis result true [ESC] Hr) as [IH1 IH2]; [intros H; discriminate H|].
      split; [exact IH1 | exact IH2].
    + destruct inEscape.
      * destruct (N.eqb c ch_m) eqn:Em; cbn [negb] in *.
        -- destruct (IH vis (result ++ esc ++ [c]) false [] Hc) as [[rest Hrest] IH2];
             [reflexivity|].
           cbn [app] in Hrest, IH2. rewrite <- !app_assoc in Hrest, IH2. cbn [app] in Hrest, IH2.
           split; [exists rest; exact Hrest | exact IH2].
        -- destruct (IH vis result true (esc ++ [c]) Hc) as [[rest Hrest] IH2];
             [intros H; discriminate H|].
           rewrite <- !app_assoc in Hrest, IH2. cbn [app] in Hrest, IH2.
           split; [exists rest; exact Hrest | exact IH2].
      * rewrite (He eq_refl). cbn [app].
        destruct (Z.geb_spec vis width) as [Hge|Hlt].
        -- split; [exists (c :: r); reflexivity | lia].
        -- destruct (IH (vis + 1) (result ++ [c]) false [] Hc) as [[rest Hrest] IH2];
             [reflexivity|].
           cbn [app] in Hrest, IH2. rewrite <- !app_assoc in Hrest, IH2. cbn [app] in Hrest, IH2.
           split; [exists rest; exact Hrest | intros H; apply IH2; lia].
Qed.

Lemma Forall_mapi_from {A B} (P : B -> Prop) (f : A -> Z -> B) l :
  (forall x i, In x l -> P (f x i)) -> forall i, Forall P (mapi_from f i l).
Proof.
  induction l as [|x l IH]; intros H i; simpl; constructor.
  - apply H. now left.
  - apply IH. intros y j Hy. apply H. now right.
Qed.

Lemma In_firstn {A} (x : A) l : forall n, In x (firstn n l) -> In x l.
Proof.
  induction l as [|a l IH]; intros [|n]; simpl; try tauto.
  intros [H|H]; [now left | right; eauto].
Qed.

Lemma In_skipn {A} (x : A) l : forall n, In x (skipn n l) -> In x l.
Proof.
  induction l as [|a l IH]; intros [|n]; simpl; try tauto.
  intros H. right. eauto.
Qed.

Lemma In_slice {A} (l : list A) start stop x : In x (slice l start stop) -> In x l.
Proof.
  unfold slice. intros H. apply In_firstn in H. now apply In_skipn in H.
Qed.

(** ** Rows end with a reset *)







(** ** The width after stripping SGR sequences

    The unit tests measure a row by the length of
    [row.replace(/\x1b\[[0-9;]*m/g, '')].  On rows whose escape sequences
    are all SGR sequences this is the count of visible code units used
    above. *)

Lemma isParam_plain c :
  Overlay.isParam c = true ->
  N.eqb c ESC = false /\ N.eqb c ch_m = false /\ N.eqb c ch_lbracket = false.
Proof.
  unfold Overlay.isParam. intros H. apply orb_true_iff in H. destruct H as [H|H].
  - apply andb_true_iff in H. destruct H as [H1 H2]. apply N.leb_le in H1, H2.
    repeat split; apply N.eqb_neq; unfold ESC, ch_m, ch_lbracket; lia.
  - apply N.eqb_eq in H. subst. repeat split; reflexivity.
Qed.

Lemma sgrRun_app s : forall st t,
  sgrRun st (s ++ t) =
  match sgrRun st s with Some st' => sgrRun st' t | None => None end.
Proof.
  induction s as [|c r IH]; intros st t; cbn [app sgrRun]; [reflexivity|].
  destruct (sgrStep st c); [apply IH | reflexivity].
Qed.

Lemma sgrRun_params r :
  sgrRun InParams r = Some InText ->
  exists r3,
    Overlay.skipParams r = ch_m :: r3 /\
    sgrRun InText r3 = Some InText /\
    scannerCount true r = scannerCount false r3 /\
    (List.length r3 < List.length r)%nat.
Proof.
  induction r as [|c r IH]; cbn [sgrRun sgrStep]; intros H; [discriminate|].
  cbn [Overlay.skipParams scannerCount List.length].
  destruct (Overlay.isParam c) eqn:Ep.
  - destruct (isParam_plain c Ep) as (H1 & H2 & _). rewrite H1, H2. cbn [negb].
    destruct (IH H) as (r3 & Hs & Hr & Hv & Hl).
    exists r3. repeat split; try assumption. lia.
  - destruct (N.eqb c ch_m) eqn:Em; [|discriminate].
    apply N.eqb_eq in Em. subst c.
    exists r. repeat split; try assumption. lia.
Qed.

Lemma stripFuel_length n : forall s,
  (List.length s <= n)%nat -> sgrOnly s ->
  List.length (Overlay.stripFuel n s) = scannerCount false s.
Proof.
  induction n as [|n IH]; intros s Hl Hs.
  - destruct s; [reflexivity | cbn [List.length] in Hl; lia].
  - destruct s as [|c r]; [reflexivity|].
    unfold sgrOnly in Hs. cbn [sgrRun sgrStep] in Hs.
    cbn [Overlay.stripFuel scannerCount]. cbn [List.length] in Hl.
    destruct (N.eqb c ESC) eqn:Ec.
    + destruct r as [|c1 r2]; [discriminate|]. cbn [sgrRun sgrStep] in Hs.
      destruct (N.eqb c1 ch_lbracket) eqn:E1; [|discriminate].
      destruct (sgrRun_params r2 Hs) as (r3 & Hskip & Hr3 & Hvis & Hlen).
      unfold Overlay.matchSGR. rewrite Ec, E1. cbn [andb]. rewrite Hskip, N.eqb_refl.
      cbn [List.length] in Hl.
      rewrite IH; [| lia | exact Hr3].
      apply N.eqb_eq in E1. subst c1. cbn [scannerCount].
      change (N.eqb ch_lbracket ESC) with false. change (N.eqb ch_lbracket ch_m) with false.
      cbn [negb]. now rewrite Hvis.
    + assert (Hm : Overlay.matchSGR (c :: r) = None).
      { unfold Overlay.matchSGR. destruct r; [reflexivity|]. now rewrite Ec. }
      rewrite Hm. cbn [List.length]. f_equal. apply IH; [lia | exact Hs].
Qed.

Lemma stripAnsi_length s :
  sgrOnly s -> len (Overlay.stripAnsi s) = scannerLength s.
Proof.
  intros Hs. unfold len, scannerLength, Overlay.stripAnsi.
  now rewrite stripFuel_length.
Qed.

Lemma truncateLoop_sgr width line : forall vis result inEscape escapeSequence st,
  sgrOnly result ->
  (if inEscape : bool
   then sgrRun InText escapeSequence = Some st /\ st <> InText
   else st = InText) ->
  sgrRun st line = Some InText ->
  sgrOnly (truncateLoop width line vis result inEscape escapeSequence).
Proof.
  induction line as [|c r IH]; intros vis result inEscape esc st Hres Hst Hline;
    cbn [truncateLoop]; [exact Hres|].
  cbn [sgrRun] in Hline.
  destruct (sgrStep st c) as [st'|] eqn:Estep; [|discriminate].
  destruct (N.eqb c ESC) eqn:Ec.
  - destruct inEscape.
    + destruct Hst as [_ Hne]. apply N.eqb_eq in Ec. subst c.
      destruct st; [contradiction | discriminate Estep | discriminate Estep].
    + subst st. cbn [sgrStep] in Estep. rewrite Ec in Estep. injection Estep as <-.
      apply (IH _ _ _ _ AfterEsc); [exact Hres | | exact Hline].
      apply N.eqb_eq in Ec. subst c. split; [reflexivity | discriminate].
  - destruct inEscape.
    + destruct Hst as [Hesc Hne].
      destruct (N.eqb c ch_m) eqn:Em.
      * apply N.eqb_eq in Em. subst c.
        destruct st; [contradiction | discriminate Estep |].
        cbn in Estep. injection Estep as <-.
        apply (IH _ _ _ _ InText); [ | reflexivity | exact Hline].
        unfold sgrOnly in *. rewrite sgrRun_app, Hres, sgrRun_app, Hesc. reflexivity.
      * apply (IH _ _ _ _ st'); [exact Hres | | exact Hline].
        split.
        -- rewrite sgrRun_app, Hesc. cbn [sgrRun]. now rewrite Estep.
        -- destruct st; [contradiction | |]; cbn [sgrStep] in Estep.
           ++ destruct (N.eqb c ch_lbracket); [|discriminate].
              injection Estep as <-. discriminate.
           ++ destruct (Overlay.isParam c).
              ** injection Estep as <-. discriminate.
              ** rewrite Em in Estep. discriminate.
    + subst st. cbn [sgrStep] in Estep. rewrite Ec in Estep. injection Estep as <-.
      destruct (vis >=? width); [exact Hres|].
      apply (IH _ _ _ _ InText); [ | reflexivity | exact Hline].
      unfold sgrOnly in *. rewrite sgrRun_app, Hres. cbn [sgrRun sgrStep]. now rewrite Ec.
Qed.

Lemma truncateToWidth_sgr line width :
  sgrOnly line -> sgrOnly (truncateToWidth line width).
Proof.
  intros Hl.
  assert (Hb : sgrOnly (truncateLoop width line 0 [] false [])).
  { apply (truncateLoop_sgr width line 0 [] false [] InText); [reflexivity | reflexivity | exact Hl]. }
  destruct (truncateToWidth_cases line width) as [[-> _]|[-> _]]; [exact Hb|].
  unfold sgrOnly in *. rewrite sgrRun_app, Hb. reflexivity.
Qed.

(** On a line whose escape sequences are all SGR sequences, the truncated
    row has at most [width] code units once these sequences are
    stripped. *)
Lemma truncateToWidth_stripped_width line width :
  sgrOnly line -> len (Overlay.stripAnsi (truncateToWidth line width)) <= Z.max 0 width.
Proof.
  intros Hl. rewrite stripAnsi_length by now apply truncateToWidth_sgr.
  apply truncateToWidth_visible.
Qed.

Lemma startsWith_inv s p : startsWith s p = true -> exists t, s = p ++ t.
Proof.
  revert s. induction p as [|b p IH]; intros s H.
  - exists s. reflexivity.
  - destruct s as [|a s]; [discriminate|]. cbn [startsWith] in H.
    apply andb_true_iff in H. destruct H as [Hab Hs].
    apply N.eqb_eq in Hab. subst b.
    destruct (IH s Hs) as [t ->]. exists t. reflexivity.
Qed.

Lemma endsWith_split s p :
  endsWith s p = true -> s = firstn (List.length s - List.length p) s ++ p.
Proof.
  unfold endsWith. intros H. apply startsWith_inv in H. destruct H as [t Ht].
  assert (Hs : s = rev t ++ p).
  { rewrite <- (rev_involutive s), Ht, rev_app_distr, rev_involutive. reflexivity. }
  rewrite Hs at 2. rewrite Hs at 1. f_equal.
  rewrite Hs, length_app, Nat.add_sub, firstn_app, Nat.sub_diag, firstn_all, firstn_O.
  now rewrite app_nil_r.
Qed.

Lemma sgrOnly_before_reset pre :
  sgrOnly (pre ++ RESET) -> sgrOnly pre.
Proof.
  unfold sgrOnly. rewrite sgrRun_app.
  destruct (sgrRun InText pre) as [[ | | ]|]; [reflexivity | discriminate ..].
Qed.

Lemma replaceFinalReset_sgr content :
  sgrOnly content -> sgrOnly (replaceFinalReset content).
Proof.
  intros Hc. unfold replaceFinalReset.
  destruct (endsWith content RESET) eqn:E; [|exact Hc].
  apply endsWith_split in E. rewrite E in Hc.
  apply sgrOnly_before_reset in Hc.
  unfold sgrOnly in *. rewrite sgrRun_app, Hc. reflexivity.
Qed.

(** Every row returned by [render] has at most [width] code units after
    the SGR sequences are stripped, when the rows of the view contain no
    other escape sequence. *)
Lemma rendered_rows_stripped_width v width height :
  0 <= width ->
  Forall (fun r => sgrOnly (content r)) (renderedLines v) ->
  Forall (fun row => len (Overlay.stripAnsi row) <= width) (snd (render v width height)).
Proof.
  intros Hw Hrows. unfold render. cbn [snd]. unfold mapi. apply Forall_mapi_from.
  intros x i Hx. apply In_slice in Hx.
  rewrite Forall_forall in Hrows. specialize (Hrows x Hx).
  unfold renderRow.
  match goal with
  | |- len (Overlay.stripAnsi (truncateToWidth ?line _)) <= _ =>
    assert (Hline : sgrOnly line)
  end.
  { match goal with |- sgrOnly (if ?b then _ else _) => destruct b end; [|exact Hrows].
    apply replaceFinalReset_sgr in Hrows.
    unfold sgrOnly in *. rewrite sgrRun_app. cbn. exact Hrows. }
  pose proof (truncateToWidth_stripped_width _ width Hline). lia.
Qed.

Lemma string_of_uint_noEsc d :
  Forall (fun c => N.eqb c ESC = false) (lit (NilEmpty.string_of_uint d)).
Proof.
  induction d; cbn [NilEmpty.string_of_uint lit list_ascii_of_string map];
    constructor; solve [reflexivity | assumption].
Qed.

Lemma toString_noEsc z : Forall (fun c => N.eqb c ESC = false) (toString z).
Proof.
  assert (Hu : forall d, Forall (fun c => N.eqb c ESC = false)
                                (lit (NilZero.string_of_uint d))).
  { intros d. unfold NilZero.string_of_uint.
    destruct d; [repeat constructor | exact (string_of_uint_noEsc _) ..]. }
  unfold toString, NilZero.string_of_int.
  destruct (Z.to_int z) as [d|d]; [apply Hu|].
  change (lit (String "-" (NilZero.string_of_uint d)))
    with (ch_minus :: lit (NilZero.string_of_uint d)).
  constructor; [reflexivity | apply Hu].
Qed.

Lemma noEsc_sgrRun s : forall t,
  Forall (fun c => N.eqb c ESC = false) s ->
  sgrRun InText (s ++ t) = sgrRun InText t.
Proof.
  induction s as [|c r IH]; intros t H; [reflexivity|].
  inversion H as [|? ? Hc Hr]; subst.
  cbn [app sgrRun sgrStep]. rewrite Hc. now apply IH.
Qed.

Lemma padStart_noEsc s w :
  Forall (fun c => N.eqb c ESC = false) s ->
  Forall (fun c => N.eqb c ESC = false) (padStart s w).
Proof.
  intros H. unfold padStart. apply Forall_app. split; [|exact H].
  apply Forall_forall. intros c Hc. apply repeat_spec in Hc. now subst.
Qed.

Lemma renderHunk_sgr hl path h w :
  sgrOnly (shownText hl path h) -> sgrOnly (content (renderHunk hl path h w)).
Proof.
  unfold shownText, renderHunk, sgrOnly.
  pose proof (padStart_noEsc _ w (toString_noEsc (nullish_or (anchor h) 0))) as Hn.
  assert (Hrest : forall color prefix text,
            sgrRun InText color = Some InText ->
            Forall (fun c => N.eqb c ESC = false) prefix ->
            sgrRun InText text = Some InText ->
            sgrRun InText
              (color ++ padStart (toString (nullish_or (anchor h) 0)) w ++ lit " "
                     ++ prefix ++ lit " " ++ text ++ RESET) = Some InText).
  { intros color prefix text Hc Hp Ht.
    rewrite sgrRun_app, Hc.
    rewrite (noEsc_sgrRun _ _ Hn).
    rewrite (noEsc_sgrRun (lit " ")) by (repeat constructor).
    rewrite (noEsc_sgrRun _ _ Hp).
    rewrite (noEsc_sgrRun (lit " ")) by (repeat constructor).
    rewrite sgrRun_app, Ht. reflexivity. }
  destruct (type h); cbn [content]; try destruct hl; intros Hs;
    apply Hrest; solve [reflexivity | repeat constructor | exact Hs].
Qed.

Lemma buildRenderedLines_sgr hl d :
  Forall (fun h => sgrOnly (shownText hl (filePath d) h)) (hunks d) ->
  Forall (fun r => sgrOnly (content r)) (fst (buildRenderedLines hl d)).
Proof.
  intros H. rewrite buildRenderedLines_spec. cbn [fst]. unfold contentRows.
  apply Forall_flat_map. apply Forall_forall. intros i _.
  apply Forall_app. split.
  - destruct (gapBefore (hunks d) i); constructor; [reflexivity | constructor].
  - destruct (nth_error (hunks d) i) as [h|] eqn:E; constructor; [|constructor].
    apply renderHunk_sgr. rewrite Forall_forall in H. apply H.
    now apply nth_error_In in E.
Qed.

(** For a diff whose shown texts contain no escape sequence other than SGR
    sequences, every rendered row is at most [width] code units wide after
    stripping, which is what the unit tests of the truncation measure. *)
Lemma diff_rows_stripped_width d hl v width height :
  0 <= width ->
  Forall (fun h => sgrOnly (shownText hl (filePath d) h)) (hunks d) ->
  renderedLines v = renderedLines (new d hl) ->
  Forall (fun row => len (Overlay.stripAnsi row) <= width) (snd (render v width height)).
Proof.
  intros Hw Hd Hv. apply rendered_rows_stripped_width; [exact Hw|].
  rewrite Hv. unfold new.
  pose proof (buildRenderedLines_sgr hl d Hd) as H.
  destruct (buildRenderedLines hl d). exact H.
Qed.

Lemma sgrRun_closed s : forall st,
  sgrRun st s = Some InText ->
  escapesClosed (match st with InText => false | _ => true end) s = true.
Proof.
  induction s as [|c r IH]; intros st H; cbn [sgrRun] in H.
  - injection H as ->. reflexivity.
  - cbn [escapesClosed]. destruct st; cbn [sgrStep] in H.
    + destruct (N.eqb c ESC); [exact (IH AfterEsc H) | exact (IH InText H)].
    + destruct (N.eqb c ch_lbracket) eqn:E; [|discriminate].
      apply N.eqb_eq in E. subst c.
      change (N.eqb ch_lbracket ESC) with false. change (N.eqb ch_lbracket ch_m) with false.
      exact (IH InParams H).
    + destruct (Overlay.isParam c) eqn:Ep.
      * destruct (isParam_plain c Ep) as (H1 & H2 & _). rewrite H1, H2.
        exact (IH InParams H).
      * destruct (N.eqb c ch_m) eqn:Em; [|discriminate].
        apply N.eqb_eq in Em. subst c. change (N.eqb ch_m ESC) with false.
        exact (IH InText H).
Qed.

Lemma sgrOnly_wellFormed s : sgrOnly s -> wellFormed s = true.
Proof. intros H. exact (sgrRun_closed s InText H). Qed.

(** C3 (as amended): for a view whose rows contain no escape sequence
    other than SGR sequences (ESC, "[", digits and ";", "m"), as the rows
    of every diff whose shown texts contain none are, every row returned by
    [render(width, height)] with [width >= 0] has at most [width] code
    units once its SGR sequences are removed, the measure of the overlay
    and of the unit tests, and consists of SGR sequences and text only; a
    truncated line is a prefix of the line, SGR sequences included,
    followed by a closing reset where one is needed, and the whole line
    when its text fits the width. *)
Theorem truncation_never_exceeds_width (v : InlineDiffView) (width height : Z) :
  0 <= width ->
  Forall (fun r => sgrOnly (content r)) (renderedLines v) ->
  Forall (fun row => sgrOnly row /\ len (Overlay.stripAnsi row) <= width)
         (snd (render v width height)) /\
  (forall line, sgrOnly line ->
     len (Overlay.stripAnsi (truncateToWidth line width)) <= width /\
     exists pre rest closing,
       line = pre ++ rest /\
       truncateToWidth line width = pre ++ closing /\
       (closing = [] \/ closing = RESET) /\
       (len (Overlay.stripAnsi line) <= width -> rest = [])) /\
  (forall d hl,
     Forall (fun h => sgrOnly (shownText hl (filePath d) h)) (hunks d) ->
     Forall (fun r => sgrOnly (content r)) (renderedLines (new d hl))).
Proof.
  intros Hw Hrows. split; [|split].
  - pose proof (rendered_rows_stripped_width v width height Hw Hrows) as Hlen.
    assert (Hsgr : Forall sgrOnly (snd (render v width height))).
    { unfold render. cbn [snd]. unfold mapi. apply Forall_mapi_from.
      intros x i Hx. apply In_slice in Hx.
      rewrite Forall_forall in Hrows. specialize (Hrows x Hx).
      unfold renderRow. apply truncateToWidth_sgr.
      match goal with |- sgrOnly (if ?b then _ else _) => destruct b end; [|exact Hrows].
      apply replaceFinalReset_sgr in Hrows.
      unfold sgrOnly in *. rewrite sgrRun_app. cbn. exact Hrows. }
    rewrite Forall_forall in *. intros row Hrow. split; [now apply Hsgr | now apply Hlen].
  - intros line Hline. split.
    + pose proof (truncateToWidth_stripped_width line width Hline). lia.
    + pose proof (sgrOnly_wellFormed line Hline) as Hwf.
      destruct (truncateLoop_prefix width line 0 [] false [] Hwf (fun _ => eq_refl))
        as [[rest Hrest] Hfit].
      cbn [app] in Hrest, Hfit.
      exists (truncateLoop width line 0 [] false []), rest.
      assert (Hwhole : len (Overlay.stripAnsi line) <= width -> rest = []).
      { intros Hl. rewrite (stripAnsi_length line Hline) in Hl.
        rewrite Hfit in Hrest by (unfold scannerLength in Hl; lia).
        rewrite <- (app_nil_r line) in Hrest at 1. now apply app_inv_head in Hrest. }
      destruct (truncateToWidth_cases line width) as [[-> _]|[-> _]].
      * exists []. rewrite app_nil_r. repeat split; auto.
      * exists RESET. repeat split; auto.
  - intros d hl Hd. unfold new.
    pose proof (buildRenderedLines_sgr hl d Hd) as H.
    destruct (buildRenderedLines hl d). exact H.
Qed.

Lemma truncation_never_exceeds_width_witness :
  0 <= 3 /\
  Forall (fun r => sgrOnly (content r)) (renderedLines (new gapDiff None)) /\
  Forall (fun row => sgrOnly row /\ len (Overlay.stripAnsi row) <= 3)
         (snd (render (new gapDiff None) 3 2)).
Proof.
  assert (Hw : 0 <= 3) by lia.
  assert (Hrows : Forall (fun r => sgrOnly (content r)) (renderedLines (new gapDiff None))).
  { repeat constructor. }
  split; [exact Hw|]. split; [exact Hrows|].
  exact (proj1 (truncation_never_exceeds_width (new gapDiff None) 3 2 Hw Hrows)).
Defined.

(** C3 as worded fails: the loop of [truncateToWidth] takes everything
    from ESC up to the next 'm' for an escape sequence.  The view of
    [eraseLineDiff] is a state of an [InlineDiffView]; [render(5, 10)]
    returns its one row, which the loop counts as 4 visible code units and
    which has 34 code units once the SGR sequences are removed: the text
    after ESC[2K is passed whole. *)
Lemma truncation_overruns_after_other_escape :
  Reachable (new eraseLineDiff None) /\
  0 <= 5 /\
  exists row,
    snd (render (new eraseLineDiff None) 5 10) = [row] /\
    scannerLength row = 4 /\
    len (Overlay.stripAnsi row) = 34 /\
    ~ len (Overlay.stripAnsi row) <= 5.
Proof.
  split; [apply Reach_new|]. split; [lia|].
  eexists. split; [vm_compute; reflexivity|].
  split; [vm_compute; reflexivity|]. split; [vm_compute; reflexivity|].
  vm_compute. intros H. apply H. reflexivity.
Qed.

(** ** The session invariant (DiffReviewModal) *)

Module SessionFacts.

Import Modal.

Lemma bounded_iff {A} (i : Z) (l : list A) :
  bounded i l <-> 0 <= i <= Z.max 0 (len l - 1).
Proof.
  unfold bounded. split.
  - intros [Hne He]. destruct l as [|a l].
    + rewrite He by reflexivity. unfold len. simpl. lia.
    + assert (a :: l <> []) as Hn by discriminate. specialize (Hne Hn). lia.
  - intros H. split.
    + intros Hn. apply len_pos in Hn. lia.
    + intros ->. unfold len in H. simpl in H. lia.
Qed.

Section SessionInvariant.
Variable structuredPatch : jsstring -> jsstring -> jsstring -> list PatchHunk.

Lemma refresh_fields m :
  _filePickerOpen (refresh structuredPatch m) = _filePickerOpen m /\
  _filePickerIndex (refresh structuredPatch m) = _filePickerIndex m /\
  (0 <= _selectedIndex m ->
   bounded (_selectedIndex (refresh structuredPatch m)) (_fileList (refresh structuredPatch m))).
Proof.
  unfold refresh. cbv zeta. cbn [_filePickerOpen _filePickerIndex _selectedIndex _fileList].
  split; [reflexivity|]. split; [reflexivity|].
  intros H0. apply bounded_iff.
  match goal with |- context [len ?l] => destruct l as [|e l'] eqn:E end.
  - unfold len. simpl. lia.
  - match goal with |- context [?a >=? ?b] => destruct (Z.geb_spec a b) end;
      unfold len in *; cbn [List.length] in *; lia.
Qed.

Lemma perform_preserves_SessionInv o m :
  SessionInv m -> inMode o m -> SessionInv (perform structuredPatch o m).
Proof.
  unfold SessionInv. intros [Hs Hp] Hm.
  assert (Hs0 : 0 <= _selectedIndex m) by (apply bounded_iff in Hs; lia).
  destruct o; cbn [perform inMode] in *.
  - (* refresh *)
    destruct (refresh_fields m) as (Ho & Hi & Hb).
    split; [apply Hb; exact Hs0|]. rewrite Ho, Hm. discriminate.
  - (* selectNext *)
    unfold selectNext. destruct (_fileList m) as [|e l] eqn:E.
    + rewrite E. split; assumption.
    + rewrite <- E in *. unfold with_selectedIndex.
      cbn [_selectedIndex _fileList _filePickerOpen _filePickerIndex].
      split; [|exact Hp].
      apply bounded_iff in Hs. apply bounded_iff.
      assert (0 < len (_fileList m)) by (rewrite E; unfold len; simpl; lia).
      pose proof (Z.rem_bound_pos (_selectedIndex m + 1) (len (_fileList m))). lia.
  - (* selectPrevious *)
    unfold selectPrevious. destruct (_fileList m) as [|e l] eqn:E.
    + rewrite E. split; assumption.
    + rewrite <- E in *. unfold with_selectedIndex.
      cbn [_selectedIndex _fileList _filePickerOpen _filePickerIndex].
      split; [|exact Hp].
      apply bounded_iff in Hs. apply bounded_iff.
      assert (0 < len (_fileList m)) by (rewrite E; unfold len; simpl; lia).
      destruct (Z.eqb_spec (_selectedIndex m) 0); lia.
  - (* selectIndex *)
    unfold selectIndex. destruct (_fileList m) as [|e l] eqn:E.
    + unfold with_selectedIndex.
      cbn [_selectedIndex _fileList _filePickerOpen _filePickerIndex].
      rewrite E in *. split; [|exact Hp]. apply bounded_iff. unfold len. simpl. lia.
    + rewrite <- E in *. unfold with_selectedIndex.
      cbn [_selectedIndex _fileList _filePickerOpen _filePickerIndex].
      split; [|exact Hp]. apply bounded_iff. zify_math.
      assert (0 < len (_fileList m)) by (rewrite E; unfold len; simpl; lia). lia.
  - (* dismissSelected *)
    unfold dismissSelected. destruct (truthy (selectedFile m)) as [sp|]; cbn [fst].
    + match goal with |- context [refresh structuredPatch ?m1] => set (m' := m1) end.
      destruct (refresh_fields m') as (Ho & Hi & Hb).
      specialize (Hb Hs0).
      match goal with |- context [if ?c then _ else _] => destruct c eqn:Ec end.
      * unfold with_selectedIndex.
        cbn [_selectedIndex _fileList _filePickerOpen _filePickerIndex].
        apply andb_true_iff in Ec. destruct Ec as [_ Ec]. apply Z.gtb_lt in Ec.
        split; [apply bounded_iff; lia|].
        rewrite Ho. subst m'. cbn [_filePickerOpen]. rewrite Hm. discriminate.
      * split; [exact Hb|]. rewrite Ho. subst m'. cbn [_filePickerOpen].
        rewrite Hm. discriminate.
    + split; assumption.
  - (* openFilePicker *)
    unfold openFilePicker. cbn [_selectedIndex _fileList _filePickerOpen _filePickerIndex].
    split; [exact Hs | intros _; exact Hs].
  - (* closeFilePicker *)
    unfold closeFilePicker. cbn [_selectedIndex _fileList _filePickerOpen _filePickerIndex].
    split; [exact Hs | discriminate].
  - (* filePickerNext *)
    unfold filePickerNext. destruct (_fileList m) as [|e l] eqn:E.
    + rewrite E. split; assumption.
    + rewrite <- E in *. unfold with_filePickerIndex.
      cbn [_selectedIndex _fileList _filePickerOpen _filePickerIndex].
      split; [exact Hs|]. intros Ho. specialize (Hp Ho).
      apply bounded_iff in Hp. apply bounded_iff.
      assert (0 < len (_fileList m)) by (rewrite E; unfold len; simpl; lia).
      pose proof (Z.rem_bound_pos (_filePickerIndex m + 1) (len (_fileList m))). lia.
  - (* filePickerPrevious *)
    unfold filePickerPrevious. destruct (_fileList m) as [|e l] eqn:E.
    + rewrite E. split; assumption.
    + rewrite <- E in *. unfold with_filePickerIndex.
      cbn [_selectedIndex _fileList _filePickerOpen _filePickerIndex].
      split; [exact Hs|]. intros Ho. specialize (Hp Ho).
      apply bounded_iff in Hp. apply bounded_iff.
      assert (0 < len (_fileList m)) by (rewrite E; unfold len; simpl; lia).
      destruct (Z.eqb_spec (_filePickerIndex m) 0); lia.
  - (* confirmFilePickerSelection *)
    unfold confirmFilePickerSelection.
    cbn [_selectedIndex _fileList _filePickerOpen _filePickerIndex].
    split; [exact (Hp Hm) | discriminate].
Qed.

Lemma new_SessionInv ds : SessionInv (Modal.new structuredPatch ds).
Proof.
  unfold Modal.new.
  destruct (refresh_fields (mkModal 0 [] false 0 ds)) as (Ho & _ & Hb).
  split; [apply Hb; simpl; lia|].
  rewrite Ho. discriminate.
Qed.

End SessionInvariant.

(** C8 fails on the code: [refresh] and [dismissSelected] clamp the
    selected index again ("Clamp selection index to valid range") but
    leave the picker index as it is, and [confirmFilePickerSelection]
    copies the picker index into the selected index without the clamp of
    [selectIndex].  With three changed files, Tab, "j", "j" put the picker
    index on the third; the owner of the diff state dismisses a file and
    calls [refresh]: the list has two files, the picker is open and its
    index is 2.  Enter then selects index 2 of two files, and [render]
    throws. *)
Theorem stale_picker_index_leaves_file_list :
  let h0 := Overlay.createOverlayHandler oneLinePatch Overlay.noHighlight
              (Modal.new oneLinePatch (changedFiles 3)) in
  let h1 := OverlaySpec.press (OverlaySpec.press (OverlaySpec.press h0 (lit "TAB")) (lit "j"))
                              (lit "j") in
  let h2 := OverlaySpec.ownerDismisses h1 (lit "f0") in
  let h3 := OverlaySpec.press h2 (lit "ENTER") in
  (SessionInv (Overlay.modal h0) /\ SessionInv (Overlay.modal h1)) /\
  (_filePickerOpen (Overlay.modal h2) = true /\
   _filePickerIndex (Overlay.modal h2) = 2 /\
   map path (_fileList (Overlay.modal h2)) = [lit "f1"; lit "f2"] /\
   bounded (_selectedIndex (Overlay.modal h2)) (_fileList (Overlay.modal h2)) /\
   ~ SessionInv (Overlay.modal h2)) /\
  (_filePickerOpen (Overlay.modal h3) = false /\
   _selectedIndex (Overlay.modal h3) = 2 /\
   selectedFile (Overlay.modal h3) = None /\
   ~ SessionInv (Overlay.modal h3) /\
   Overlay.testRender h3 None 80 = Throw "TypeError") /\
  (forall structuredPatch m,
     _filePickerIndex (refresh structuredPatch m) = _filePickerIndex m /\
     _filePickerIndex (fst (dismissSelected structuredPatch m)) = _filePickerIndex m /\
     _selectedIndex (confirmFilePickerSelection m) = _filePickerIndex m) /\
  (forall m i, bounded (_selectedIndex (selectIndex m i)) (_fileList (selectIndex m i))).
Proof.
  cbv zeta. split; [|split; [|split; [|split]]].
  - split; (split; [|intros _]); apply bounded_iff; vm_compute; split; discriminate.
  - split; [vm_compute; reflexivity|]. split; [vm_compute; reflexivity|].
    split; [vm_compute; reflexivity|]. split.
    + apply bounded_iff. vm_compute. split; discriminate.
    + intros [_ H].
      match type of H with ?o = true -> _ =>
        assert (Ho : o = true) by (vm_compute; reflexivity) end.
      specialize (H Ho). apply bounded_iff in H. vm_compute in H.
      destruct H as [_ H]. apply H. reflexivity.
  - split; [vm_compute; reflexivity|]. split; [vm_compute; reflexivity|].
    split; [vm_compute; reflexivity|]. split; [|vm_compute; reflexivity].
    intros [H _]. apply bounded_iff in H. vm_compute in H.
    destruct H as [_ H]. apply H. reflexivity.
  - intros structuredPatch m. split; [reflexivity|]. split; [|reflexivity].
    unfold dismissSelected. destruct (truthy (selectedFile m)); cbn [fst]; [|reflexivity].
    match goal with |- context [if ?c then _ else _] => destruct c end; reflexivity.
  - intros m i. apply bounded_iff. unfold selectIndex, with_selectedIndex.
    destruct (_fileList m) as [|e l] eqn:E;
      cbn [_selectedIndex _fileList]; rewrite ?E.
    + unfold len. cbn. lia.
    + zify_math. pose proof (len_nonneg l).
      assert (len (e :: l) = 1 + len l) by (unfold len; cbn [List.length]; lia). lia.
Qed.

End SessionFacts.

(** ** The overlay block (createOverlayHandler.render) *)

Module OverlayFacts.

Import Modal Overlay.

Lemma repeat_checked_ok s n :
  0 <= n -> repeat_checked s n = Ok (repeat_str s (Z.to_nat n)).
Proof.
  intros H. unfold repeat_checked. destruct (Z.ltb_spec n 0); [lia | reflexivity].
Qed.

Lemma repeat_checked_throws s n :
  n < 0 -> repeat_checked s n = Throw "RangeError".
Proof.
  intros H. unfold repeat_checked. destruct (Z.ltb_spec n 0); [reflexivity | lia].
Qed.

Lemma len_cons {A} (a : A) l : len (a :: l) = 1 + len l.
Proof. unfold len. cbn [List.length]. lia. Qed.

Lemma len_nil {A} : len (@nil A) = 0.
Proof. reflexivity. Qed.

Lemma len_map {A B} (f : A -> B) l : len (map f l) = len l.
Proof. unfold len. now rewrite length_map. Qed.

Lemma len_repeat {A} (a : A) n : len (List.repeat a n) = Z.of_nat n.
Proof. unfold len. now rewrite repeat_length. Qed.

Lemma replace_last_shape {A} (a b x : A) l :
  exists l', removelast (a :: b :: l) ++ [x] = a :: l' /\ len l' = len (b :: l).
Proof.
  exists (removelast (b :: l) ++ [x]). split; [reflexivity|].
  revert b. induction l as [|c l IH]; intros b.
  - reflexivity.
  - change (removelast (b :: c :: l)) with (b :: removelast (c :: l)).
    cbn [app]. rewrite !len_cons. rewrite IH. rewrite len_cons. reflexivity.
Qed.

Lemma index_Some {A} (l : list A) i :
  0 <= i < len l -> exists x, index l i = Some x.
Proof.
  intros H. apply index_in_bounds. apply andb_true_iff. split.
  - apply Z.geb_le. lia.
  - apply Z.ltb_lt. lia.
Qed.

Lemma targetHeightOf_eq tuiHeight :
  targetHeightOf tuiHeight = Z.max 20 (nullish_or tuiHeight 40 * 3 / 4).
Proof. unfold targetHeightOf. cbv zeta. now rewrite Math_max_eq. Qed.

Lemma controller_render_length c width h :
  0 <= h -> len (snd (Controller.render c width h)) <= h.
Proof.
  intros Hh. unfold Controller.render.
  destruct (InlineView.render (Controller.inlineView c) width h) as [v rows] eqn:E.
  cbn [snd]. replace rows with (snd (InlineView.render (Controller.inlineView c) width h))
    by (now rewrite E).
  unfold InlineView.render. cbn [snd]. rewrite len_mapi. now apply length_slice_le.
Qed.

Section Render.

Variable fg : jsstring -> jsstring -> jsstring.
Variable bold : jsstring -> jsstring.
Variable hostTruncateToWidth : jsstring -> Z -> jsstring.
Variable roundPercent : Z -> Z -> Z.
Variable optionsTitle : option jsstring.
Variable width : Z.

Local Abbreviation render :=
  (Overlay.render fg bold hostTruncateToWidth roundPercent optionsTitle width).
Local Abbreviation assemble := (Overlay.assemble fg bold hostTruncateToWidth optionsTitle width).
Local Abbreviation diffContent := (Overlay.diffContent fg roundPercent width).
Local Abbreviation topBorder := (Overlay.topBorder fg bold optionsTitle width).
Local Abbreviation bottomBorder := (Overlay.bottomBorder fg width).

Lemma assemble_height m targetHeight content :
  2 <= width -> 3 <= targetHeight -> len content + 2 <= targetHeight ->
  exists rows bottom,
    assemble m targetHeight content = Ok rows /\
    len rows = targetHeight /\
    hd_error rows = Some topBorder /\
    bottomBorder = Ok bottom /\
    last rows [] = bottom.
Proof.
  intros Hw Ht Hc. unfold Overlay.assemble. cbv zeta.
  assert (Hpad : exists tl,
            padToHeight fg width ([topBorder] ++ map (padLine fg hostTruncateToWidth width) content)
                        targetHeight = Ok (topBorder :: tl)
            /\ len tl = targetHeight - 2).
  { unfold padToHeight, emptyLine. cbn [app].
    rewrite len_cons, len_map.
    destruct (Z.ltb_spec (1 + len content) (targetHeight - 1)) as [Hlt|Hge].
    - rewrite repeat_checked_ok by lia. cbn [bind app].
      eexists. split; [reflexivity|].
      rewrite len_app, len_map, len_repeat. lia.
    - eexists. split; [reflexivity|]. rewrite len_map. lia. }
  destruct Hpad as (tl & -> & Htl). cbn [bind].
  unfold Overlay.bottomBorder. rewrite repeat_checked_ok by lia. cbn [bind].
  destruct tl as [|b tl]; [unfold len in Htl; simpl in Htl; lia|].
  destruct ((len (getFileList m) >? 0) && negb (isFilePickerOpen m)).
  - destruct (replace_last_shape topBorder b (padLine fg hostTruncateToWidth width (helpText fg)) tl)
      as (l' & -> & Hl').
    eexists. eexists. split; [reflexivity|].
    split; [|split; [reflexivity|split]].
    + rewrite len_app, !len_cons, Hl', Htl, len_nil. lia.
    + reflexivity.
    + apply last_last.
  - eexists. eexists. split; [reflexivity|].
    split; [|split; [reflexivity|split]].
    + rewrite len_app, len_cons, Htl, len_cons, len_nil. lia.
    + reflexivity.
    + apply last_last.
Qed.

Lemma diffContent_length h targetHeight :
  20 <= targetHeight -> renderable h width -> _fileList (modal h) <> [] ->
  exists h' content,
    diffContent h targetHeight = Ok (h', content) /\
    modal h' = modal h /\
    len content + 2 <= targetHeight.
Proof.
  intros Ht [Hw Hsel] Hne. specialize (Hsel Hne).
  unfold Overlay.diffContent. cbv zeta.
  unfold getFileList, selectedIndex.
  destruct (index_Some (_fileList (modal h)) (_selectedIndex (modal h)) Hsel) as [cur ->].
  unfold innerWidth. rewrite repeat_checked_ok by lia. cbn [bind].
  destruct (viewController h) as [c|].
  - pose proof (controller_render_length c (width - 4) (Math_max 5 (targetHeight - 8))) as Hlen.
    destruct (Controller.render c (width - 4) (Math_max 5 (targetHeight - 8)))
      as [c' diffLines]. cbn [snd] in Hlen.
    eexists. eexists. split; [reflexivity|]. split; [reflexivity|].
    rewrite Math_max_eq in Hlen. specialize (Hlen ltac:(lia)).
    rewrite !len_app, !len_cons, len_nil.
    match goal with |- context [if ?b then _ else _] => destruct b end;
      unfold len in *; cbn [List.length] in *; lia.
  - eexists. eexists. split; [reflexivity|]. split; [reflexivity|].
    rewrite !len_cons, len_nil. lia.
Qed.

(** Where the block has its fixed height: the width leaves room for the
    frame, the selected index designates a file, and in picker mode the
    file list is no longer than the block allows. *)
Lemma render_fixed_height h tuiHeight :
  renderable h width -> pickerFits h tuiHeight ->
  exists h' rows bottom,
    render h tuiHeight = Ok (h', rows) /\
    modal h' = modal h /\
    len rows = Z.max 20 (nullish_or tuiHeight 40 * 3 / 4) /\
    hd_error rows = Some topBorder /\
    bottomBorder = Ok bottom /\
    last rows [] = bottom.
Proof.
  intros Hr Hp. pose proof Hr as [Hw _].
  assert (Ht : 20 <= targetHeightOf tuiHeight) by (rewrite targetHeightOf_eq; lia).
  rewrite <- targetHeightOf_eq.
  unfold Overlay.render. cbv zeta. unfold getFileList, isFilePickerOpen.
  destruct (_fileList (modal h)) as [|e l] eqn:E.
  - cbn [bind].
    destruct (assemble_height (modal h) (targetHeightOf tuiHeight) (noFilesContent fg))
      as (rows & bottom & Ha & Hl & Hh & Hb & Hlast);
      [lia | lia | unfold noFilesContent; rewrite !len_cons, len_nil; lia |].
    rewrite Ha. cbn [bind].
    exists h, rows, bottom. repeat split; assumption.
  - destruct (_filePickerOpen (modal h)) eqn:Eo.
    + cbn [bind].
      destruct (assemble_height (modal h) (targetHeightOf tuiHeight)
                  (pickerContent fg bold (modal h)))
        as (rows & bottom & Ha & Hl & Hh & Hb & Hlast); [lia | lia | |].
      { unfold pickerContent. rewrite !len_app, len_mapi.
        unfold getFileList. specialize (Hp Eo). rewrite E in *.
        unfold len in *. cbn [List.length] in *. lia. }
      rewrite Ha. cbn [bind].
      exists h, rows, bottom. repeat split; assumption.
    + destruct (diffContent_length h (targetHeightOf tuiHeight) Ht Hr)
        as (h' & content & Hd & Hm & Hc); [rewrite E; discriminate|].
      rewrite Hd. cbn [bind].
      destruct (assemble_height (modal h) (targetHeightOf tuiHeight) content)
        as (rows & bottom & Ha & Hl & Hh & Hb & Hlast); [lia | lia | lia |].
      rewrite Ha. cbn [bind].
      exists h', rows, bottom. repeat split; assumption.
Qed.

End Render.

(** *** The key dispatch keeps the session invariant *)

Section HandleInput.

Variable structuredPatch : jsstring -> jsstring -> jsstring -> list PatchHunk.
Variable highlightProvider : HighlightFn.
Variable matchesKey : jsstring -> KeyId -> bool.

Local Abbreviation handleInput :=
  (Overlay.handleInput structuredPatch highlightProvider matchesKey).
Local Abbreviation buildViewController :=
  (Overlay.buildViewController structuredPatch highlightProvider).

Lemma buildViewController_modal h : modal (buildViewController h) = modal h.
Proof.
  unfold Overlay.buildViewController.
  destruct (getSelectedDiff structuredPatch (modal h)); reflexivity.
Qed.

Lemma yank_modal h h' effects : yank h = Ok (h', effects) -> modal h' = modal h.
Proof.
  unfold yank. destruct (viewController h) as [c|]; [|now intros [= <- _]].
  destruct (Controller.isVisualMode c).
  - destruct (len (Controller.getSelectedDiffLines c) >? 0); [|now intros [= <- _]].
    destruct (mapDefined anchor (Controller.getSelectedDiffLines c)) as [anchors|];
      cbn [bind]; [|discriminate].
    destruct (definedOnly anchors); [now intros [= <- _]|].
    destruct (mapDefined DiffEngine.content (Controller.getSelectedDiffLines c));
      cbn [bind]; [|discriminate].
    now intros [= <- _].
  - destruct (Controller.getCursorDiffLine c) as [dl|]; [|now intros [= <- _]].
    destruct (anchor dl); now intros [= <- _].
Qed.

(** Every key leaves the session invariant in place: [handleInput] calls
    each operation of the modal in the mode [inMode] asks for. *)
Lemma handleInput_preserves_SessionInv h data h' effects :
  SessionInv (modal h) ->
  handleInput h data = Ok (h', effects) ->
  SessionInv (modal h').
Proof.
  intros Hi. unfold Overlay.handleInput. cbv zeta.
  pose proof (fun o => SessionFacts.perform_preserves_SessionInv structuredPatch o (modal h) Hi)
    as Hstep.
  unfold isFilePickerOpen.
  destruct (_filePickerOpen (modal h)) eqn:Eo.
  - repeat match goal with
           | |- (if ?b then _ else _) = _ -> _ => destruct b
           end;
      intros [= <- _]; rewrite ?buildViewController_modal; cbn [modal with_modal].
    + exact (Hstep OpCloseFilePicker I).
    + exact (Hstep OpFilePickerPrevious I).
    + exact (Hstep OpFilePickerNext I).
    + exact (Hstep OpConfirmFilePickerSelection Eo).
    + exact Hi.
  - repeat match goal with
           | |- (if ?b then _ else _) = _ -> _ => destruct b
           end.
    + intros [= <- _]. exact Hi.
    + intros [= <- _]. rewrite buildViewController_modal. exact (Hstep OpSelectNext I).
    + intros [= <- _]. rewrite buildViewController_modal. exact (Hstep OpSelectPrevious I).
    + intros [= <- _]. exact Hi.
    + intros [= <- _]. exact Hi.
    + intros [= <- _]. exact Hi.
    + intros [= <- _]. exact Hi.
    + intros [= <- _]. exact (Hstep OpOpenFilePicker I).
    + destruct (viewController h); intros [= <- _]; exact Hi.
    + intros [= <- _]. rewrite buildViewController_modal. exact (Hstep OpDismissSelected Eo).
    + intros Hy. apply yank_modal in Hy. now rewrite Hy.
    + intros [= <- _]. exact Hi.
Qed.

End HandleInput.

(** C9 fails on the code: with the file picker open on 25 changed files
    and the default terminal height (block of 30 rows), [render(80)]
    returns 31 rows; with 24 files it returns 30.  A width below 2 makes
    [render] throw. *)
Theorem picker_overflows_fixed_height :
  targetHeightOf None = 30 /\
  _filePickerOpen (modal (pickerOverlay 25)) = true /\
  len (_fileList (modal (pickerOverlay 25))) = 25 /\
  (exists h' rows, testRender (pickerOverlay 25) None 80 = Ok (h', rows) /\ len rows = 31) /\
  (exists h' rows, testRender (pickerOverlay 24) None 80 = Ok (h', rows) /\ len rows = 30) /\
  testRender (pickerOverlay 2) None 1 = Throw "RangeError".
Proof.
  split; [reflexivity|]. split; [vm_compute; reflexivity|].
  split; [vm_compute; reflexivity|].
  split; [|split].
  - destruct (testRender (pickerOverlay 25) None 80) as [[h' rows]|e] eqn:E.
    + exists h', rows. split; [reflexivity|].
      replace rows with (snd (h', rows)) by reflexivity.
      change (h', rows) with (match Ok (h', rows) with Ok r => r | Throw _ => (h', []) end).
      rewrite <- E. vm_compute. reflexivity.
    + exfalso. vm_compute in E. discriminate E.
  - destruct (testRender (pickerOverlay 24) None 80) as [[h' rows]|e] eqn:E.
    + exists h', rows. split; [reflexivity|].
      replace rows with (snd (h', rows)) by reflexivity.
      change (h', rows) with (match Ok (h', rows) with Ok r => r | Throw _ => (h', []) end).
      rewrite <- E. vm_compute. reflexivity.
    + exfalso. vm_compute in E. discriminate E.
  - vm_compute. reflexivity.
Qed.

End OverlayFacts.

(* ===================================================================== *)
(** * Unit tests of the repository, replayed on the embedding *)
(* ===================================================================== *)

Module Replay.

(** inline view: "scrollDown moves cursor by same amount". *)
Example scrollDown_moves_cursor :
  let v1 := scrollDown (new largeDiff None) 5 in
  let v2 := scrollDown v1 10 in
  (cursorLine v1, scrollOffset v1, cursorLine v2, scrollOffset v2) = (5, 5, 15, 15).
Proof. vm_compute. reflexivity. Qed.

(** inline view: "scroll clamps at bottom bound". *)
Example scroll_clamps_at_bottom :
  let '(v, rows) := render (scrollDown (new largeDiff None) 1000) 80 10 in
  (scrollOffset v, len rows, totalLines v) = (40, 10, 50).
Proof. vm_compute. reflexivity. Qed.

(** inline view: "moveCursor past end clamps to last line" and
    "moveCursor(-1) from 0 stays at 0". *)
Example moveCursor_clamps :
  (cursorLine (moveCursor (new simpleDiff None) 100),
   cursorLine (moveCursor (new simpleDiff None) (-1)),
   cursorLine (moveCursor (new (mkFileDiff (lit "empty.ts") false [] 0 0) None) 5))
  = (4, 0, 0).
Proof. vm_compute. reflexivity. Qed.

(** inline view: "getSelectedRawLines returns raw content without ANSI
    codes". *)
Example selected_raw_lines :
  getSelectedRawLines (moveCursor (enterVisualMode (setCursor (new simpleDiff None) 0)) 2)
  = Ok [lit "1   line 1"; lit "2 - line 2 old"; lit "2 + line 2 new"].
Proof. vm_compute. reflexivity. Qed.

(** inline view: "getSelectedDiffLines returns DiffLines, skipping
    separators". *)
Example selected_diff_lines_skip_separator :
  map (option_map DiffEngine.content)
      (getSelectedDiffLines (moveCursor (enterVisualMode (setCursor (new gapDiff None) 0)) 3))
  = [Some (lit "line 1"); Some (lit "line 2"); Some (lit "line 10")].
Proof. vm_compute. reflexivity. Qed.

(** inline view: "truncates long lines to fit width". *)
Example long_line_truncated :
  map (fun row => len (Overlay.stripAnsi row)) (snd (render (new longLineDiff None) 50 10))
  = [50].
Proof. vm_compute. reflexivity. Qed.

(** diff state: the pending-count scenario of the specification. *)
Example pending_count_lifecycle :
  let s0 := State.trackFile
              (State.trackFile
                 (State.trackFile State.empty (lit "a.ts") (lit "1") (lit "2"))
                 (lit "b.ts") (lit "3") (lit "4"))
              (lit "c.ts") (lit "5") (lit "5") in
  let s1 := State.dismissFile s0 (lit "a.ts") in
  let s2 := State.updateFile s1 (lit "c.ts") (lit "6") in
  (State.pendingCount s0, State.pendingCount s1, State.pendingCount s2) = (2, 1, 2).
Proof. vm_compute. reflexivity. Qed.

(** diff state: tracking a path twice keeps the first baseline. *)
Example track_preserves_baseline :
  State.snapshots
    (State.trackFile (State.trackFile State.empty (lit "p") (lit "a") (lit "b"))
                     (lit "p") (lit "c") (lit "d"))
  = [(lit "p", State.mkSnapshot (lit "a") (lit "d"))].
Proof. vm_compute. reflexivity. Qed.

(** modal: "clamps index when last file dismissed". *)
Example dismiss_clamps_index :
  let m := Modal.selectIndex (Modal.new Modal.oneLinePatch (Modal.changedFiles 2)) 1 in
  let '(m', dismissed) := Modal.dismissSelected Modal.oneLinePatch m in
  (Modal.selectedIndex m, dismissed, Modal.selectedIndex m', len (Modal.getFileList m'))
  = (1, true, 0, 1).
Proof. vm_compute. reflexivity. Qed.

(** modal: "selectNext wraps around at end", "selectPrevious wraps around
    at start". *)
Example selection_wraps :
  let m := Modal.new Modal.oneLinePatch (Modal.changedFiles 2) in
  (Modal.selectedIndex (Modal.selectNext (Modal.selectNext m)),
   Modal.selectedIndex (Modal.selectPrevious m)) = (0, 1).
Proof. vm_compute. reflexivity. Qed.

(** overlay: "pads output to target height". *)
Example overlay_pads_to_target_height :
  match Overlay.testRender
          (Overlay.createOverlayHandler Modal.oneLinePatch Overlay.noHighlight
             (Modal.new Modal.oneLinePatch (Modal.changedFiles 2)))
          (Some 40) 80 with
  | Ok (_, rows) => len rows
  | Throw _ => -1
  end = 30.
Proof. vm_compute. reflexivity. Qed.

End Replay.

(* ===================================================================== *)
(** * Further properties of the code *)
(* ===================================================================== *)

(** ** The snapshot ledger (DiffState) *)

Module StateFacts.

Import State Ledger.

Lemma get_modify l p f : get (modify l p f) p = option_map f (get l p).
Proof.
  induction l as [|[k sn] l IH]; cbn [modify get]; [reflexivity|].
  destruct (str_eqb k p) eqn:E; cbn [get]; rewrite E; [reflexivity | exact IH].
Qed.

Lemma get_modify_other l p q f :
  p <> q -> get (modify l p f) q = get l q.
Proof.
  intros Hpq. induction l as [|[k sn] l IH]; cbn [modify get]; [reflexivity|].
  destruct (str_eqb_spec k p) as [->|Hk]; cbn [get].
  - destruct (str_eqb_spec p q); [contradiction | reflexivity].
  - destruct (str_eqb k q); [reflexivity | exact IH].
Qed.

Lemma modify_untracked l p f : get l p = None -> modify l p f = l.
Proof.
  induction l as [|[k sn] l IH]; cbn [modify get]; [reflexivity|].
  destruct (str_eqb k p); [discriminate|]. intros H. now rewrite IH.
Qed.

Lemma keys_modify l p f : map fst (modify l p f) = map fst l.
Proof.
  induction l as [|[k sn] l IH]; cbn [modify map]; [reflexivity|].
  destruct (str_eqb k p); cbn [map fst]; [reflexivity | now rewrite IH].
Qed.

Lemma get_None_not_In l p : get l p = None <-> ~ In p (map fst l).
Proof.
  induction l as [|[k sn] l IH]; cbn [get map fst In]; [tauto|].
  destruct (str_eqb_spec k p) as [->|Hk].
  - split; [discriminate | intros H; exfalso; apply H; now left].
  - rewrite IH. tauto.
Qed.

Lemma get_app_new l p sn : get l p = None -> get (l ++ [(p, sn)]) p = Some sn.
Proof.
  induction l as [|[k x] l IH]; cbn [get app].
  - intros _. destruct (str_eqb_spec p p); [reflexivity | contradiction].
  - destruct (str_eqb k p); [discriminate | exact IH].
Qed.

Lemma get_app_other l p q sn : p <> q -> get (l ++ [(p, sn)]) q = get l q.
Proof.
  intros Hpq. induction l as [|[k x] l IH]; cbn [get app].
  - destruct (str_eqb_spec p q); [contradiction | reflexivity].
  - destruct (str_eqb k q); [reflexivity | exact IH].
Qed.

Lemma call_keys_NoDup s c : NoDup (keys s) -> NoDup (keys (call s c)).
Proof.
  unfold keys. destruct c as [p o cur|p cur|p]; cbn [call].
  - unfold trackFile, has, updateFile.
    destruct (get (snapshots s) p) eqn:E; cbn [snapshots].
    + now rewrite keys_modify.
    + intros H. rewrite map_app. cbn [map fst].
      apply NoDup_app; [exact H | repeat constructor; intros [] | ].
      intros x Hx [<-|[]]. now apply get_None_not_In in E.
  - unfold updateFile. cbn [snapshots]. now rewrite keys_modify.
  - unfold dismissFile. cbn [snapshots]. now rewrite keys_modify.
Qed.

(** X1: whatever sequence of [trackFile], [updateFile] and [dismissFile]
    calls a [DiffState] receives, a path has at most one snapshot, and the
    last two calls never change the set or the order of the tracked
    paths. *)
Theorem ledger_paths_unique (cs : list Call) (p cur : jsstring) :
  NoDup (keys (run cs)) /\
  keys (updateFile (run cs) p cur) = keys (run cs) /\
  keys (dismissFile (run cs) p) = keys (run cs).
Proof.
  split; [|split].
  - unfold run. rewrite <- (rev_involutive cs).
    induction (rev cs) as [|c r IH]; cbn [rev].
    + constructor.
    + rewrite fold_left_app. cbn [fold_left]. now apply call_keys_NoDup.
  - unfold keys, updateFile. cbn [snapshots]. apply keys_modify.
  - unfold keys, dismissFile. cbn [snapshots]. apply keys_modify.
Qed.

(** X2: [trackFile] on a tracked path keeps the baseline and replaces the
    current content; on an untracked path it stores both contents; the
    snapshot of every other path is untouched. *)
Theorem trackFile_keeps_baseline (s : DiffState) (p q o cur : jsstring) :
  get (snapshots (trackFile s p o cur)) p =
    Some (mkSnapshot
            (match get (snapshots s) p with
             | Some sn => originalContent sn
             | None => o
             end) cur) /\
  isTracked (trackFile s p o cur) p = true /\
  (p <> q -> get (snapshots (trackFile s p o cur)) q = get (snapshots s) q).
Proof.
  assert (H1 : get (snapshots (trackFile s p o cur)) p =
               Some (mkSnapshot
                       (match get (snapshots s) p with
                        | Some sn => originalContent sn
                        | None => o
                        end) cur)).
  { unfold trackFile, has, updateFile.
    destruct (get (snapshots s) p) as [sn|] eqn:E; cbn [snapshots].
    - now rewrite get_modify, E.
    - now apply get_app_new. }
  split; [exact H1|]. split.
  - unfold isTracked, has. now rewrite H1.
  - intros Hpq. unfold trackFile, has, updateFile.
    destruct (get (snapshots s) p) eqn:E; cbn [snapshots].
    + now apply get_modify_other.
    + now apply get_app_other.
Qed.

Lemma trackFile_keeps_baseline_witness :
  let s := trackFile State.empty (lit "p") (lit "a") (lit "b") in
  lit "p" <> lit "q" /\
  get (snapshots (trackFile s (lit "p") (lit "c") (lit "d"))) (lit "q") = None.
Proof.
  cbv zeta. assert (H : lit "p" <> lit "q") by (vm_compute; discriminate).
  split; [exact H|].
  rewrite (proj2 (proj2 (trackFile_keeps_baseline _ (lit "p") (lit "q") (lit "c") (lit "d"))) H).
  vm_compute. reflexivity.
Defined.

(** X3: on a path that is not tracked, [updateFile] and [dismissFile]
    leave the state as it is and [getFileDiff] answers [undefined]; on a
    tracked path [getFileDiff] answers the diff of the two contents,
    under that path. *)
Theorem untracked_path_is_ignored
    (structuredPatch : jsstring -> jsstring -> jsstring -> list PatchHunk)
    (s : DiffState) (p cur : jsstring) :
  (isTracked s p = false ->
     updateFile s p cur = s /\ dismissFile s p = s /\
     getFileDiff structuredPatch s p = None) /\
  (isTracked s p = true ->
     exists d, getFileDiff structuredPatch s p = Some d /\ filePath d = p).
Proof.
  unfold isTracked, has, getFileDiff, updateFile, dismissFile.
  destruct (get (snapshots s) p) as [sn|] eqn:E; split; try discriminate.
  - intros _. eexists. split; [reflexivity|].
    unfold computeDiff. destruct (_ && _); reflexivity.
  - intros _. rewrite !modify_untracked by exact E. destruct s. repeat split.
Qed.

Lemma untracked_path_is_ignored_witness :
  isTracked State.empty (lit "p") = false /\
  updateFile State.empty (lit "p") (lit "x") = State.empty.
Proof.
  assert (H : isTracked State.empty (lit "p") = false) by reflexivity.
  split; [exact H|].
  exact (proj1 (proj1 (untracked_path_is_ignored samplePatch State.empty (lit "p") (lit "x")) H)).
Defined.

Lemma changed_same c : changed (mkSnapshot c c) = false.
Proof.
  unfold changed. cbn [originalContent currentContent].
  destruct (str_eqb_spec c c); [reflexivity | contradiction].
Qed.

Lemma getChangedFiles_eq l :
  getChangedFiles (mkDiffState l) = map fst (filter (fun e => changed (snd e)) l).
Proof. reflexivity. Qed.

Lemma changed_after_modify l p f :
  ~ In p (map fst l) ->
  filter (fun e => changed (snd e)) (modify l p f) = filter (fun e => changed (snd e)) l.
Proof.
  intros H. rewrite modify_untracked; [reflexivity|]. now apply get_None_not_In.
Qed.

Lemma filter_not_key l p :
  ~ In p (map fst l) ->
  filter (fun q => negb (str_eqb q p)) (map fst (filter (fun e => changed (snd e)) l))
  = map fst (filter (fun e => changed (snd e)) l).
Proof.
  induction l as [|[k sn] l IH]; cbn [map fst filter In snd]; [reflexivity|].
  intros H. destruct (changed sn); cbn [map fst filter].
  - destruct (str_eqb_spec k p) as [->|Hk]; [exfalso; apply H; now left|].
    cbn [negb]. f_equal. apply IH. tauto.
  - apply IH. tauto.
Qed.

Lemma changed_after_dismiss l p :
  NoDup (map fst l) ->
  map fst (filter (fun e => changed (snd e))
             (modify l p (fun sn => mkSnapshot (currentContent sn) (currentContent sn))))
  = filter (fun q => negb (str_eqb q p)) (map fst (filter (fun e => changed (snd e)) l)) /\
  len (map fst (filter (fun e => changed (snd e))
             (modify l p (fun sn => mkSnapshot (currentContent sn) (currentContent sn)))))
  = len (map fst (filter (fun e => changed (snd e)) l))
    - (if existsb (fun q => str_eqb q p) (map fst (filter (fun e => changed (snd e)) l))
       then 1 else 0).
Proof.
  intros Hnd.
  induction l as [|[k sn] l IH]; cbn [modify map fst filter snd]; [split; reflexivity|].
  inversion Hnd as [|? ? Hk Hl]; subst.
  destruct (str_eqb_spec k p) as [->|Hkp].
  - cbn [filter snd]. rewrite !changed_same.
    destruct (changed sn) eqn:Ec; cbn [map fst filter existsb].
    + destruct (str_eqb_spec p p); [|contradiction]. cbn [negb orb].
      rewrite (filter_not_key l p Hk). split; [reflexivity|].
      unfold len. cbn [List.length]. lia.
    + rewrite (filter_not_key l p Hk). split; [reflexivity|].
      assert (He : existsb (fun q => str_eqb q p)
                     (map fst (filter (fun e => changed (snd e)) l)) = false).
      { apply not_true_is_false. intros He. apply existsb_exists in He.
        destruct He as (q & Hq & Hqp). destruct (str_eqb_spec q p); [subst|discriminate].
        apply Hk. apply in_map_iff in Hq. destruct Hq as ([k' sn'] & Hf & Hin).
        cbn in Hf. subst. apply filter_In in Hin. destruct Hin as [Hin _].
        apply in_map_iff. exists (p, sn'). auto. }
      rewrite He. lia.
  - cbn [filter snd]. destruct (IH Hl) as [IH1 IH2].
    destruct (changed sn); cbn [map fst filter existsb].
    + destruct (str_eqb_spec k p); [contradiction|]. cbn [negb orb].
      split; [now rewrite IH1|].
      unfold len in *. cbn [List.length]. lia.
    + exact (conj IH1 IH2).
Qed.

(** X4: in a state where every path has one snapshot, [dismissFile]
    removes the path from the changed files and leaves the others there,
    in their order; the count of pending files drops by one when the file
    was changed and stays otherwise. *)
Theorem dismissFile_removes_from_changed (s : DiffState) (p : jsstring) :
  NoDup (keys s) ->
  getChangedFiles (dismissFile s p)
    = filter (fun q => negb (str_eqb q p)) (getChangedFiles s) /\
  ~ In p (getChangedFiles (dismissFile s p)) /\
  pendingCount (dismissFile s p)
    = pendingCount s - (if existsb (fun q => str_eqb q p) (getChangedFiles s) then 1 else 0).
Proof.
  destruct s as [l]. unfold keys, dismissFile, pendingCount. cbn [snapshots].
  rewrite !getChangedFiles_eq. intros Hnd.
  destruct (changed_after_dismiss l p Hnd) as [H1 H2].
  split; [exact H1|]. split; [|exact H2].
  rewrite H1. intros Hin. apply filter_In in Hin. destruct Hin as [_ Hin].
  destruct (str_eqb_spec p p); [discriminate | contradiction].
Qed.

Lemma dismissFile_removes_from_changed_witness :
  let s := run [Track (lit "a") (lit "1") (lit "2"); Track (lit "b") (lit "3") (lit "4")] in
  NoDup (keys s) /\ getChangedFiles (dismissFile s (lit "a")) = [lit "b"].
Proof.
  cbv zeta.
  assert (H : NoDup (keys (run [Track (lit "a") (lit "1") (lit "2");
                                Track (lit "b") (lit "3") (lit "4")]))).
  { vm_compute. repeat constructor; cbn [In]; intros H;
      repeat (destruct H as [H|H]; [discriminate H|]); exact H. }
  split; [exact H|].
  rewrite (proj1 (dismissFile_removes_from_changed _ (lit "a") H)).
  vm_compute. reflexivity.
Defined.

(** X5: dismissing a file twice is dismissing it once, and after a dismiss
    the diff of the file is computed between two equal contents. *)
Theorem dismissFile_idempotent (s : DiffState) (p : jsstring) :
  dismissFile (dismissFile s p) p = dismissFile s p /\
  (forall sn, get (snapshots (dismissFile s p)) p = Some sn ->
              originalContent sn = currentContent sn).
Proof.
  split.
  - unfold dismissFile. cbn [snapshots]. f_equal.
    induction (snapshots s) as [|[k sn] l IH]; cbn [modify]; [reflexivity|].
    destruct (str_eqb k p) eqn:E; cbn [modify]; rewrite E; [reflexivity | now rewrite IH].
  - intros sn. unfold dismissFile. cbn [snapshots]. rewrite get_modify.
    destruct (get (snapshots s) p); cbn [option_map]; [|discriminate].
    now intros [= <-].
Qed.

Lemma dismissFile_idempotent_witness :
  let s := run [Track (lit "a") (lit "1") (lit "2")] in
  get (snapshots (dismissFile s (lit "a"))) (lit "a") = Some (mkSnapshot (lit "2") (lit "2")) /\
  originalContent (mkSnapshot (lit "2") (lit "2")) = currentContent (mkSnapshot (lit "2") (lit "2")).
Proof.
  cbv zeta.
  assert (H : get (snapshots (dismissFile (run [Track (lit "a") (lit "1") (lit "2")]) (lit "a")))
                  (lit "a") = Some (mkSnapshot (lit "2") (lit "2"))) by reflexivity.
  split; [exact H|].
  exact (proj2 (dismissFile_idempotent (run [Track (lit "a") (lit "1") (lit "2")]) (lit "a"))
               (mkSnapshot (lit "2") (lit "2")) H).
Defined.

(** X6: in a state where every path has one snapshot, the changed files
    are the tracked paths whose two contents differ. *)
Theorem changed_files_are_differing_snapshots (s : DiffState) (p : jsstring) :
  NoDup (keys s) ->
  (In p (getChangedFiles s) <->
   exists sn, get (snapshots s) p = Some sn /\ originalContent sn <> currentContent sn).
Proof.
  destruct s as [l]. unfold keys. cbn [snapshots]. rewrite getChangedFiles_eq.
  induction l as [|[k sn] l IH]; intros Hnd; cbn [map fst filter snd get In].
  - split; [intros [] | intros (sn & H & _); discriminate].
  - inversion Hnd as [|? ? Hk Hl]; subst. specialize (IH Hl).
    destruct (str_eqb_spec k p) as [->|Hkp].
    + unfold changed. destruct (str_eqb_spec (originalContent sn) (currentContent sn)) as [He|He];
        cbn [negb map fst In].
      * split.
        -- intros Hin. exfalso. apply Hk. apply in_map_iff in Hin.
           destruct Hin as ([k' sn'] & Hf & Hin). cbn in Hf. subst.
           apply filter_In in Hin. destruct Hin as [Hin _].
           apply in_map_iff. exists (p, sn'). auto.
        -- intros (sn' & [= <-] & Hne). contradiction.
      * split; [intros _; exists sn; auto | intros _; now left].
    + destruct (changed sn); cbn [map fst In]; rewrite <- IH; [|tauto].
      split; [intros [H|H]; [contradiction | exact H] | intros H; now right].
Qed.

Lemma changed_files_are_differing_snapshots_witness :
  let s := run [Track (lit "a") (lit "1") (lit "2"); Track (lit "b") (lit "3") (lit "3")] in
  NoDup (keys s) /\ In (lit "a") (getChangedFiles s).
Proof.
  cbv zeta.
  assert (H : NoDup (keys (run [Track (lit "a") (lit "1") (lit "2");
                                Track (lit "b") (lit "3") (lit "3")]))).
  { vm_compute. repeat constructor; cbn [In]; intros H;
      repeat (destruct H as [H|H]; [discriminate H|]); exact H. }
  split; [exact H|].
  apply (changed_files_are_differing_snapshots _ (lit "a") H).
  eexists. split; [vm_compute; reflexivity | vm_compute; discriminate].
Defined.

End StateFacts.

(** ** The diff engine (computeDiff) *)

Module EngineFacts.

Import Ledger.

Section Engine.

Variable structuredPatch : jsstring -> jsstring -> jsstring -> list PatchHunk.

(** What the two loops keep true of their accumulator. *)
Let tallied (a : Acc) : Prop :=
  acc_additions a = len (ofType added (acc_hunks a)) /\
  acc_deletions a = len (ofType removed (acc_hunks a)) /\
  Forall shaped (acc_hunks a).

Lemma ofType_snoc t l r :
  ofType t (l ++ [r]) = ofType t l ++ ofType t [r].
Proof. unfold ofType. apply filter_app. Qed.

Lemma tallied_snoc a r da dd :
  tallied a -> shaped r ->
  da = len (ofType added [r]) -> dd = len (ofType removed [r]) ->
  tallied (mkAcc (acc_hunks a ++ [r]) (acc_additions a + da) (acc_deletions a + dd)).
Proof.
  intros (Ha & Hd & Hs) Hr -> ->. unfold tallied. cbn [acc_hunks acc_additions acc_deletions].
  rewrite !ofType_snoc, !len_app, Ha, Hd. repeat split; try reflexivity.
  apply Forall_app. split; [exact Hs | now constructor].
Qed.

Lemma processLines_tallied ls : forall o n a,
  tallied a -> tallied (processLines ls o n a).
Proof.
  induction ls as [|line rest IH]; intros o n a Ha; cbn [processLines]; [exact Ha|].
  destruct line as [|c content]; cbn [hd_error tl].
  - apply IH.
    replace (acc_additions a) with (acc_additions a + 0) by lia.
    replace (acc_deletions a) with (acc_deletions a + 0) by lia.
    apply tallied_snoc; [exact Ha | | reflexivity | reflexivity].
    unfold shaped. cbn. split; discriminate.
  - destruct (N.eqb c ch_plus); [|destruct (N.eqb c ch_minus)]; apply IH.
    + replace (acc_deletions a) with (acc_deletions a + 0) by lia.
      apply tallied_snoc; [exact Ha | | reflexivity | reflexivity].
      unfold shaped. cbn. split; [reflexivity | discriminate].
    + replace (acc_additions a) with (acc_additions a + 0) by lia.
      apply tallied_snoc; [exact Ha | | reflexivity | reflexivity].
      unfold shaped. cbn. split; [discriminate | reflexivity].
    + replace (acc_additions a) with (acc_additions a + 0) by lia.
      replace (acc_deletions a) with (acc_deletions a + 0) by lia.
      apply tallied_snoc; [exact Ha | | reflexivity | reflexivity].
      unfold shaped. cbn. split; discriminate.
Qed.

Lemma processHunks_tallied hs : forall a, tallied a -> tallied (processHunks hs a).
Proof.
  induction hs as [|h rest IH]; intros a Ha; cbn [processHunks]; [exact Ha|].
  apply IH. now apply processLines_tallied.
Qed.

Lemma computeDiff_tallied path original current :
  let d := computeDiff structuredPatch path original current in
  tallied (mkAcc (hunks d) (additions d) (deletions d)).
Proof.
  cbv zeta. unfold computeDiff.
  destruct (str_eqb original [] && str_eqb current []).
  - cbn. repeat split. constructor.
  - cbn [hunks additions deletions].
    assert (H : tallied (processHunks (structuredPatch path original current) (mkAcc [] 0 0))).
    { apply processHunks_tallied. cbn. repeat split. constructor. }
    destruct H as (Ha & Hd & Hs). repeat split; assumption.
Qed.

(** The records of the rest of a hunk are appended to what the
    accumulator holds. *)
Lemma processLines_hunks ls : forall o n a,
  acc_hunks (processLines ls o n a) =
  acc_hunks a ++ acc_hunks (processLines ls o n (mkAcc [] 0 0)).
Proof.
  induction ls as [|line rest IH]; intros o n a; cbn [processLines].
  - cbn [acc_hunks]. now rewrite app_nil_r.
  - destruct (hd_error line) as [c|];
      [destruct (N.eqb c ch_plus); [|destruct (N.eqb c ch_minus)]|];
      rewrite IH; cbn [acc_hunks];
      match goal with
      | |- _ = _ ++ acc_hunks (processLines _ ?o' ?n' (mkAcc ([] ++ [?r]) ?x ?y)) =>
        rewrite (IH o' n' (mkAcc ([] ++ [r]) x y))
      end;
      cbn [acc_hunks app]; now rewrite <- app_assoc.
Qed.

Lemma processHunks_hunks hs : forall a,
  acc_hunks (processHunks hs a) = acc_hunks a ++ flat_map hunkRecords hs.
Proof.
  induction hs as [|h rest IH]; intros a; cbn [processHunks flat_map].
  - now rewrite app_nil_r.
  - rewrite IH, processLines_hunks. unfold hunkRecords. now rewrite app_assoc.
Qed.

Lemma hunkRecords_cons line rest o n :
  acc_hunks (processLines (line :: rest) o n (mkAcc [] 0 0)) =
  (if isAddedLine line then
     mkDiffLine added (tl line) None (Some n)
     :: acc_hunks (processLines rest o (n + 1) (mkAcc [] 0 0))
   else if isRemovedLine line then
     mkDiffLine removed (tl line) (Some o) None
     :: acc_hunks (processLines rest (o + 1) n (mkAcc [] 0 0))
   else
     mkDiffLine context (tl line) (Some o) (Some n)
     :: acc_hunks (processLines rest (o + 1) (n + 1) (mkAcc [] 0 0))).
Proof.
  cbn [processLines]. unfold isAddedLine, isRemovedLine.
  destruct line as [|c content]; cbn [hd_error tl].
  - now rewrite processLines_hunks.
  - destruct (N.eqb c ch_plus); [|destruct (N.eqb c ch_minus)];
      now rewrite processLines_hunks.
Qed.

Lemma consecutive_cons n k : consecutive n (S k) = n :: consecutive (n + 1) k.
Proof.
  unfold consecutive. cbn [seq map]. f_equal; [f_equal; lia|].
  rewrite <- seq_shift, map_map. apply map_ext. intros i. lia.
Qed.

Lemma added_not_removed line : isAddedLine line = true -> isRemovedLine line = false.
Proof.
  unfold isAddedLine, isRemovedLine. destruct line as [|c r]; [reflexivity|].
  intros H. apply N.eqb_eq in H. subst c. reflexivity.
Qed.

Lemma hunk_numbering ls : forall o n,
  let rs := acc_hunks (processLines ls o n (mkAcc [] 0 0)) in
  map DiffEngine.content rs = map (@tl _) ls /\
  defined (map newLineNumber rs)
    = consecutive n (List.length (filter (fun l => negb (isRemovedLine l)) ls)) /\
  defined (map oldLineNumber rs)
    = consecutive o (List.length (filter (fun l => negb (isAddedLine l)) ls)).
Proof.
  induction ls as [|line rest IH]; intros o n; cbv zeta.
  - repeat split.
  - rewrite hunkRecords_cons. cbn [filter].
    destruct (isAddedLine line) eqn:Ea;
      [rewrite (added_not_removed line Ea) | destruct (isRemovedLine line) eqn:Er];
      cbn [negb map defined DiffEngine.content newLineNumber oldLineNumber List.length];
      [ destruct (IH o (n + 1)) as (H1 & H2 & H3)
      | destruct (IH (o + 1) n) as (H1 & H2 & H3)
      | destruct (IH (o + 1) (n + 1)) as (H1 & H2 & H3) ];
      rewrite ?consecutive_cons, H1, H2, H3; repeat split.
Qed.

End Engine.

(** X7: for every patch the library returns, [additions] and [deletions]
    are the numbers of added and removed records of the result. *)
Theorem computeDiff_counts_records
    (structuredPatch : jsstring -> jsstring -> jsstring -> list PatchHunk)
    (path original current : jsstring) :
  let d := computeDiff structuredPatch path original current in
  additions d = len (ofType added (hunks d)) /\
  deletions d = len (ofType removed (hunks d)) /\
  0 <= additions d /\ 0 <= deletions d /\
  additions d + deletions d <= len (hunks d).
Proof.
  cbv zeta.
  destruct (computeDiff_tallied structuredPatch path original current) as (Ha & Hd & _).
  cbn [acc_hunks acc_additions acc_deletions] in Ha, Hd.
  rewrite Ha, Hd. split; [reflexivity|]. split; [reflexivity|].
  split; [apply len_nonneg|]. split; [apply len_nonneg|].
  generalize (hunks (computeDiff structuredPatch path original current)) as l.
  induction l as [|r l IH]; [unfold len; cbn; lia|].
  unfold ofType, len in *. cbn [filter List.length].
  destruct (type r); cbn [List.length]; lia.
Qed.

(** X8: every record of a result carries the line numbers of its type (an
    added line the new number only, a removed line the old number only, a
    context line both), so every record has the anchor the inline view
    reads. *)
Theorem computeDiff_records_shaped
    (structuredPatch : jsstring -> jsstring -> jsstring -> list PatchHunk)
    (path original current : jsstring) :
  Forall (fun r => shaped r /\ InlineView.anchor r <> None)
         (hunks (computeDiff structuredPatch path original current)).
Proof.
  destruct (computeDiff_tallied structuredPatch path original current) as (_ & _ & Hs).
  cbn [acc_hunks] in Hs. eapply Forall_impl; [|exact Hs].
  intros r Hr. split; [exact Hr|].
  unfold shaped in Hr. unfold InlineView.anchor, nullish.
  destruct (type r), (newLineNumber r), (oldLineNumber r); destruct Hr; congruence.
Qed.

(** X9: unless both contents are empty, the records are those of the
    hunks of the patch, in order, one per line; within a hunk the text of a
    record is the line without its first character, the new line numbers
    run from [newStart] and the old ones from [oldStart], each by steps of
    one. *)
Theorem computeDiff_numbers_lines
    (structuredPatch : jsstring -> jsstring -> jsstring -> list PatchHunk)
    (path original current : jsstring) (h : PatchHunk) :
  (original <> [] \/ current <> [] ->
   hunks (computeDiff structuredPatch path original current)
     = flat_map hunkRecords (structuredPatch path original current)) /\
  map DiffEngine.content (hunkRecords h) = map (@tl _) (lines h) /\
  defined (map newLineNumber (hunkRecords h))
    = consecutive (newStart h)
        (List.length (filter (fun l => negb (isRemovedLine l)) (lines h))) /\
  defined (map oldLineNumber (hunkRecords h))
    = consecutive (oldStart h)
        (List.length (filter (fun l => negb (isAddedLine l)) (lines h))).
Proof.
  split.
  - intros Hne. unfold computeDiff.
    destruct (str_eqb_spec original []) as [Eo|Eo];
      destruct (str_eqb_spec current []) as [Ec|Ec]; cbn [andb hunks];
      try (now rewrite processHunks_hunks).
    destruct Hne; contradiction.
  - exact (hunk_numbering (lines h) (oldStart h) (newStart h)).
Qed.

Lemma computeDiff_numbers_lines_witness :
  (lit "a" <> [] \/ lit "b" <> []) /\
  map newLineNumber (hunks (computeDiff samplePatch (lit "f") (lit "a") (lit "b")))
    = [Some 7; None; Some 8; Some 9].
Proof.
  assert (H : lit "a" <> [] \/ lit "b" <> []) by (left; discriminate).
  split; [exact H|].
  rewrite (proj1 (computeDiff_numbers_lines samplePatch (lit "f") (lit "a") (lit "b")
                    (mkPatchHunk 0 0 [])) H).
  vm_compute. reflexivity.
Defined.

End EngineFacts.

(** ** The rows of the inline view *)

Module ViewFacts.

Import ViewRows.

Lemma Reachable_Built v : Reachable v -> Built v.
Proof.
  induction 1 as [d hl | o v Hr IH _]; unfold Built in *.
  - unfold new. destruct (buildRenderedLines hl d) as [rl idx] eqn:E.
    cbn [highlightFn diff renderedLines _lineToHunkIndex]. exact E.
  - destruct o; cbn [perform]; try exact IH.
    unfold setDiff. destruct (buildRenderedLines (highlightFn v) d) as [rl idx] eqn:E.
      cbn [highlightFn diff renderedLines _lineToHunkIndex]. exact E.
Qed.

Lemma Reachable_cursor v :
  Reachable v ->
  0 <= _cursorLine v <= Z.max 0 (len (renderedLines v) - 1) /\ 0 <= _visualAnchor v.
Proof.
  induction 1 as [d hl | o v Hr IH _].
  - unfold new. destruct (buildRenderedLines hl d) as [rl idx].
    cbn [_cursorLine _visualAnchor renderedLines]. pose proof (len_nonneg rl). lia.
  - destruct o; cbn [perform];
      unfold setDiff, scrollUp, scrollDown, moveCursor, setCursor, scrollToTop,
             scrollToBottom, enterVisualMode, exitVisualMode, render, with_scrollOffset;
      try (destruct (buildRenderedLines (highlightFn v) d) as [rl idx]);
      cbn [fst _cursorLine _visualAnchor renderedLines]; zify_math;
      pose proof (len_nonneg (renderedLines v)); lia.
Qed.

Section Rows.

Variable v : InlineDiffView.
Hypothesis HB : Built v.

Local Abbreviation hs := (hunks (diff v)).
Local Abbreviation gap := (gapBefore (hunks (diff v))).

Lemma Built_arrays :
  renderedLines v = contentRows (highlightFn v) (diff v) gap /\
  _lineToHunkIndex v = indexRows gap (List.length hs).
Proof.
  unfold Built in HB. rewrite buildRenderedLines_spec in HB.
  now injection HB as <- <-.
Qed.

Lemma index_of_nat {A} (l : list A) i : index l (Z.of_nat i) = nth_error l i.
Proof.
  unfold index. destruct (Z.ltb_spec (Z.of_nat i) 0); [lia|]. now rewrite Nat2Z.id.
Qed.

Lemma rowFor_record i h :
  nth_error hs i = Some h ->
  rowFor v (Z.of_nat i) =
  Some (renderHunk (highlightFn v) (filePath (diff v)) h
                   (len (toString (getMaxLineNumber (diff v))))).
Proof.
  intros H. unfold rowFor. destruct (Z.eqb_spec (Z.of_nat i) (-1)); [lia|].
  now rewrite index_of_nat, H.
Qed.

Lemma aligned_on ixs :
  (forall i, In i ixs -> (i < List.length hs)%nat) ->
  map Some
    (flat_map
       (fun i =>
          (if gap i then [createSeparatorLine] else []) ++
          match nth_error hs i with
          | Some h => [renderHunk (highlightFn v) (filePath (diff v)) h
                                  (len (toString (getMaxLineNumber (diff v))))]
          | None => []
          end) ixs)
  = map (rowFor v)
      (flat_map (fun i => (if gap i then [-1] else []) ++ [Z.of_nat i]) ixs).
Proof.
  induction ixs as [|i r IH]; intros Hin; cbn [flat_map]; [reflexivity|].
  rewrite !map_app, IH by (intros j Hj; apply Hin; now right).
  f_equal.
  destruct (nth_error hs i) as [h|] eqn:E.
  - destruct (gap i); cbn [map app]; rewrite (rowFor_record i h E); reflexivity.
  - apply nth_error_None in E. specialize (Hin i (or_introl eq_refl)). lia.
Qed.

Lemma records_in_order a k :
  filter (fun x => negb (x =? -1))
         (flat_map (fun i => (if gap i then [-1] else []) ++ [Z.of_nat i]) (seq a k))
  = map Z.of_nat (seq a k).
Proof.
  revert a. induction k as [|k IH]; intros a; cbn [seq flat_map map]; [reflexivity|].
  rewrite filter_app, IH.
  destruct (gap a); cbn [app filter]; destruct (Z.eqb_spec (Z.of_nat a) (-1)); try lia;
    reflexivity.
Qed.

Lemma index_rows_length ixs :
  len ixs <= len (flat_map (fun i => (if gap i then [-1] else []) ++ [Z.of_nat i]) ixs)
          <= 2 * len ixs.
Proof.
  induction ixs as [|i r IH]; cbn [flat_map]; [unfold len; cbn; lia|].
  rewrite len_app. unfold len in *. cbn [List.length].
  destruct (gap i); cbn [app List.length]; lia.
Qed.

Lemma index_entries k :
  In k (_lineToHunkIndex v) -> k = -1 \/ exists h, index hs k = Some h /\ In h hs.
Proof.
  destruct Built_arrays as [_ ->]. unfold indexRows. intros H.
  apply in_flat_map in H. destruct H as (i & Hi & Hk).
  apply in_seq in Hi. apply in_app_or in Hk. destruct Hk as [Hk|[<-|[]]].
  - destruct (gap i); [destruct Hk as [<-|[]]; now left | destruct Hk].
  - right. destruct (nth_error hs i) as [h|] eqn:E.
    + exists h. rewrite index_of_nat. split; [exact E | now apply nth_error_In in E].
    + apply nth_error_None in E. lia.
Qed.

Lemma aligned : map Some (renderedLines v) = map (rowFor v) (_lineToHunkIndex v).
Proof.
  destruct Built_arrays as [-> ->]. unfold contentRows, indexRows.
  apply aligned_on. intros i Hi. apply in_seq in Hi. lia.
Qed.

Lemma arrays_same_length : len (renderedLines v) = len (_lineToHunkIndex v).
Proof.
  unfold len. rewrite <- (length_map Some), aligned, length_map. reflexivity.
Qed.

Lemma selectedDiffLoop_defined ixs : forall acc,
  Forall (fun o => exists h, o = Some h /\ In h hs) acc ->
  Forall (fun o => exists h, o = Some h /\ In h hs) (selectedDiffLoop v ixs acc).
Proof.
  induction ixs as [|i r IH]; intros acc Hacc; cbn [selectedDiffLoop]; [exact Hacc|].
  destruct ((i >=? 0) && (i <? len (_lineToHunkIndex v))); [|now apply IH].
  destruct (index (_lineToHunkIndex v) i) as [k|] eqn:E; [|now apply IH].
  destruct (Z.eqb_spec k (-1)); cbn [negb]; [now apply IH|].
  apply IH. apply Forall_app. split; [exact Hacc|].
  constructor; [|constructor].
  assert (Hin : In k (_lineToHunkIndex v)).
  { unfold index in E. destruct (i <? 0); [discriminate|]. now apply nth_error_In in E. }
  destruct (index_entries k Hin) as [->|(h & Hh & Hhin)]; [contradiction|].
  exists h. now rewrite Hh.
Qed.

End Rows.

(** X10: in every state of an [InlineDiffView] the two arrays have one
    entry per row: an entry -1 stands for the separator row and an entry
    [k] for the rendering of record [k]; the records appear once each and
    in order; the first row is never a separator; there are at least as
    many rows as records and at most twice as many. *)
Theorem rows_follow_records (v : InlineDiffView) :
  Reachable v ->
  map Some (renderedLines v) = map (rowFor v) (_lineToHunkIndex v) /\
  filter (fun k => negb (k =? -1)) (_lineToHunkIndex v)
    = map Z.of_nat (seq 0 (List.length (hunks (diff v)))) /\
  isSeparatorLine v 0 = false /\
  len (hunks (diff v)) <= totalLines v <= 2 * len (hunks (diff v)).
Proof.
  intros Hr. apply Reachable_Built in Hr.
  split; [now apply aligned|].
  pose proof (arrays_same_length v Hr) as Hlen.
  destruct (Built_arrays v Hr) as [_ Hidx].
  split; [|split].
  - rewrite Hidx. apply records_in_order.
  - unfold isSeparatorLine. rewrite Hidx. unfold indexRows.
    destruct (hunks (diff v)) as [|h r]; [reflexivity|].
    cbn [List.length seq flat_map]. unfold gapBefore at 1. cbn [firstn lastAnchor fold_left].
    cbn [app]. reflexivity.
  - unfold totalLines. rewrite Hlen, Hidx. unfold indexRows.
    pose proof (index_rows_length v (seq 0 (List.length (hunks (diff v))))) as H.
    unfold len in H at 1 4. rewrite length_seq in H. exact H.
Qed.

Lemma rows_follow_records_witness :
  Reachable (new gapDiff None) /\ totalLines (new gapDiff None) <= 8.
Proof.
  assert (Hr : Reachable (new gapDiff None)) by apply Reach_new.
  split; [exact Hr|].
  exact (proj2 (proj2 (proj2 (proj2 (rows_follow_records _ Hr))))).
Defined.

Lemma getSelectedDiffLines_defined v :
  Reachable v ->
  Forall (fun o => exists h, o = Some h /\ In h (hunks (diff v))) (getSelectedDiffLines v).
Proof.
  intros Hr. apply Reachable_Built in Hr.
  unfold getSelectedDiffLines. cbn. apply selectedDiffLoop_defined; [exact Hr | constructor].
Qed.

Lemma ReachableBy_weaken (P Q : Op -> Prop) v :
  (forall o, P o -> Q o) -> ReachableBy P v -> ReachableBy Q v.
Proof.
  intros HPQ. induction 1 as [d hl | o v Hr IH Ho].
  - apply Reach_new.
  - apply Reach_step; [exact IH | now apply HPQ].
Qed.

(** X11: in every state of an [InlineDiffView], [getSelectedDiffLines]
    returns records of the diff only, never [undefined], and
    [getCursorDiffLine] answers [undefined] exactly when there is no row
    or the cursor is on a separator. *)
Theorem selection_yields_records (v : InlineDiffView) :
  Reachable v ->
  Forall (fun o => exists h, o = Some h /\ In h (hunks (diff v))) (getSelectedDiffLines v) /\
  (getCursorDiffLine v = None <->
   renderedLines v = [] \/ isSeparatorLine v (_cursorLine v) = true).
Proof.
  intros Hr. pose proof (Reachable_cursor v Hr) as [Hc _].
  split; [now apply getSelectedDiffLines_defined|].
  apply Reachable_Built in Hr.
  - pose proof (arrays_same_length v Hr) as Hlen.
    unfold getCursorDiffLine, isSeparatorLine.
    destruct (renderedLines v) as [|r0 rl] eqn:E; [split; [now left | reflexivity]|].
    rewrite <- E in *.
    assert (Hpos : 0 < len (renderedLines v)) by (rewrite E; unfold len; cbn; lia).
    destruct (Z.ltb_spec (_cursorLine v) 0); [lia|].
    destruct (Z.geb_spec (_cursorLine v) (len (_lineToHunkIndex v))); [lia|]. cbn [orb].
    destruct (index (_lineToHunkIndex v) (_cursorLine v)) as [k|] eqn:Ek.
    + assert (Hin : In k (_lineToHunkIndex v)).
      { unfold index in Ek. destruct (_cursorLine v <? 0); [discriminate|].
        now apply nth_error_In in Ek. }
      destruct (Z.eqb_spec k (-1)) as [->|Hk].
      * split; [now right | reflexivity].
      * destruct (index_entries v Hr k Hin) as [->|(h & Hh & _)]; [contradiction|].
        rewrite Hh, E. split; [discriminate | intros [H'|H']; discriminate H'].
    + exfalso. unfold index in Ek. destruct (Z.ltb_spec (_cursorLine v) 0); [lia|].
      apply nth_error_None in Ek. unfold len in *. lia.
Qed.

Lemma selection_yields_records_witness :
  Reachable (setCursor (new gapDiff None) 2) /\
  getCursorDiffLine (setCursor (new gapDiff None) 2) = None.
Proof.
  assert (Hr : Reachable (setCursor (new gapDiff None) 2)).
  { exact (Reach_step _ (OpSetCursor 2) _ (Reach_new _ gapDiff None) I). }
  split; [exact Hr|].
  apply (proj2 (selection_yields_records _ Hr)). right. vm_compute. reflexivity.
Defined.

(** *** The window returned by [render] *)

Lemma renderOffset_stable v h :
  ViewInv v -> 0 <= h ->
  renderOffset (with_scrollOffset v (renderOffset v h)) h = renderOffset v h.
Proof.
  intros Hv Hh. apply ViewInv_iff in Hv. destruct Hv as [Hc Hs].
  pose proof (len_nonneg (renderedLines v)) as Hl.
  unfold renderOffset, with_scrollOffset. cbn [_cursorLine _scrollOffset renderedLines].
  zify_math.
  repeat match goal with
         | |- context [?a >=? ?b] => destruct (Z.geb_spec a b)
         | |- context [?a <? ?b] => destruct (Z.ltb_spec a b)
         end; lia.
Qed.

Lemma Reachable_anchor v :
  Reachable v -> _visualMode v = true ->
  _visualAnchor v <= Z.max 0 (len (renderedLines v) - 1).
Proof.
  induction 1 as [d hl | o v Hr IH _].
  - unfold new. destruct (buildRenderedLines hl d) as [rl idx].
    cbn [_visualMode]. discriminate.
  - pose proof (Reachable_cursor v Hr) as [Hc _].
    destruct o; cbn [perform];
      unfold setDiff, scrollUp, scrollDown, moveCursor, setCursor, scrollToTop,
             scrollToBottom, enterVisualMode, exitVisualMode, render, with_scrollOffset;
      try (destruct (buildRenderedLines (highlightFn v) d) as [rl idx]);
      cbn [fst _cursorLine _visualAnchor _visualMode renderedLines];
      solve [discriminate | exact IH | intros _; lia].
Qed.

(** X12: on a state that satisfies the view invariant, [render] with a
    height [h >= 0] returns [min h rows.length] rows, and rendering again
    with the same arguments changes nothing: same state, same rows. *)
Theorem render_fills_window (v : InlineDiffView) (w h : Z) :
  ViewInv v -> 0 <= h ->
  len (snd (render v w h)) = Z.min h (totalLines v) /\
  render (fst (render v w h)) w h = render v w h.
Proof.
  intros Hv Hh. split.
  - pose proof (render_offset_range v h Hv) as Hr.
    unfold render, totalLines. cbn [snd]. rewrite len_mapi.
    pose proof (len_nonneg (renderedLines v)).
    rewrite length_slice; zify_math; lia.
  - pose proof (renderOffset_stable v h Hv Hh) as E.
    unfold render. cbn [fst]. rewrite E.
    unfold with_scrollOffset. cbn [diff highlightFn renderedLines _cursorLine
      _lineToHunkIndex _visualMode _visualAnchor _scrollOffset]. reflexivity.
Qed.

Lemma render_fills_window_witness :
  ViewInv (new largeDiff None) /\ 0 <= 10 /\
  len (snd (render (new largeDiff None) 80 10)) = 10.
Proof.
  assert (Hv : ViewInv (new largeDiff None)) by apply new_ViewInv.
  assert (Hh : 0 <= 10) by lia.
  split; [exact Hv|]. split; [exact Hh|].
  rewrite (proj1 (render_fills_window (new largeDiff None) 80 10 Hv Hh)).
  vm_compute. reflexivity.
Defined.

(** *** The selected rows *)

Lemma skipn_nth_error {A} (l : list A) : forall k x,
  nth_error l k = Some x -> skipn k l = x :: skipn (S k) l.
Proof.
  induction l as [|a l IH]; intros [|k] x H; try discriminate.
  - cbn in H. injection H as ->. reflexivity.
  - cbn [nth_error] in H. cbn [skipn]. rewrite (IH k x H). reflexivity.
Qed.

Lemma selectedRawLoop_range rl lo : 0 <= lo -> forall n a acc,
  selectedRawLoop rl (map (fun k => lo + Z.of_nat k) (seq a n)) acc
  = Ok (acc ++ map rawContent (firstn n (skipn (Z.to_nat lo + a) rl))).
Proof.
  intros Hlo. induction n as [|n IH]; intros a acc; cbn [seq map selectedRawLoop].
  - cbn [firstn map]. now rewrite app_nil_r.
  - destruct (Z.geb_spec (lo + Z.of_nat a) 0); [|lia]. cbn [andb].
    unfold index. destruct (Z.ltb_spec (lo + Z.of_nat a) 0); [lia|].
    replace (Z.to_nat (lo + Z.of_nat a)) with (Z.to_nat lo + a)%nat by lia.
    destruct (Z.ltb_spec (lo + Z.of_nat a) (len rl)) as [Hlt|Hge].
    + destruct (nth_error rl (Z.to_nat lo + a)) as [x|] eqn:E.
      * rewrite IH, (skipn_nth_error rl _ x E). cbn [firstn map].
        replace (Z.to_nat lo + S a)%nat with (S (Z.to_nat lo + a)) by lia.
        now rewrite <- app_assoc.
      * apply nth_error_None in E. unfold len in Hlt. lia.
    + rewrite IH.
      rewrite !skipn_all2 by (unfold len in Hge; lia).
      now rewrite !firstn_nil.
Qed.

(** X13: in every state of an [InlineDiffView], [getSelectedRawLines] does
    not throw and returns the raw texts of the rows from the smaller to the
    larger of anchor and cursor, in order; both ends are rows of the view,
    so the answer has [|cursor - anchor| + 1] entries unless there is no
    row. *)
Theorem selected_raw_lines_are_the_range (v : InlineDiffView) :
  Reachable v ->
  let lo := fst (getVisualRange v) in
  let hi := snd (getVisualRange v) in
  getSelectedRawLines v = Ok (map rawContent (rowsBetween (renderedLines v) lo hi)) /\
  (renderedLines v <> [] ->
   _visualMode v = true ->
   len (rowsBetween (renderedLines v) lo hi) = Z.abs (_cursorLine v - _visualAnchor v) + 1).
Proof.
  intros Hr. cbv zeta.
  pose proof (Reachable_cursor v Hr) as [Hc Ha].
  unfold getSelectedRawLines, getVisualRange. cbn [fst snd]. zify_math.
  split.
  - unfold for_range. rewrite selectedRawLoop_range by lia.
    unfold rowsBetween. cbn [app]. now rewrite Nat.add_0_r.
  - intros Hne Hvm. apply len_pos in Hne.
    pose proof (Reachable_anchor v Hr Hvm) as Hb.
    unfold rowsBetween, len in *. rewrite length_firstn, length_skipn. lia.
Qed.

Lemma selected_raw_lines_are_the_range_witness :
  Reachable (moveCursor (enterVisualMode (new simpleDiff None)) 2) /\
  getSelectedRawLines (moveCursor (enterVisualMode (new simpleDiff None)) 2)
  = Ok [lit "1   line 1"; lit "2 - line 2 old"; lit "2 + line 2 new"].
Proof.
  assert (Hr : Reachable (moveCursor (enterVisualMode (new simpleDiff None)) 2)).
  { exact (Reach_step _ (OpMoveCursor 2) _
             (Reach_step _ OpEnterVisualMode _ (Reach_new _ simpleDiff None) I) I). }
  split; [exact Hr|].
  rewrite (proj1 (selected_raw_lines_are_the_range _ Hr)).
  vm_compute. reflexivity.
Defined.

(** *** Raw text and coloured text of a row *)

Lemma skipParams_length s : (List.length (Overlay.skipParams s) <= List.length s)%nat.
Proof.
  induction s as [|c r IH]; cbn [Overlay.skipParams List.length]; [lia|].
  destruct (Overlay.isParam c); cbn [List.length]; lia.
Qed.

Lemma matchSGR_length s r :
  Overlay.matchSGR s = Some r -> (List.length r < List.length s)%nat.
Proof.
  unfold Overlay.matchSGR. destruct s as [|c0 [|c1 t]]; try discriminate.
  destruct (N.eqb c0 ESC && N.eqb c1 ch_lbracket); [|discriminate].
  pose proof (skipParams_length t) as H.
  destruct (Overlay.skipParams t) as [|c r']; [discriminate|].
  destruct (N.eqb c ch_m); [|discriminate].
  intros E. injection E as <-. cbn [List.length] in *. lia.
Qed.

Lemma matchSGR_text c r : N.eqb c ESC = false -> Overlay.matchSGR (c :: r) = None.
Proof. intros H. unfold Overlay.matchSGR. destruct r; [reflexivity|]. now rewrite H. Qed.

Lemma stripFuel_fuel n : forall m s,
  (List.length s <= n)%nat -> (List.length s <= m)%nat ->
  Overlay.stripFuel n s = Overlay.stripFuel m s.
Proof.
  induction n as [|n IH]; intros m s Hn Hm.
  - destruct s; [|cbn [List.length] in Hn; lia]. destruct m; reflexivity.
  - destruct s as [|c r]; [destruct m; reflexivity|].
    destruct m as [|m]; [cbn [List.length] in Hm; lia|].
    cbn [Overlay.stripFuel].
    destruct (Overlay.matchSGR (c :: r)) as [rest|] eqn:E.
    + apply matchSGR_length in E. cbn [List.length] in *. apply IH; lia.
    + cbn [List.length] in *. f_equal. apply IH; lia.
Qed.

Lemma skipParams_app r : forall c r3 t,
  Overlay.skipParams r = c :: r3 -> Overlay.isParam c = false ->
  Overlay.skipParams (r ++ t) = c :: r3 ++ t.
Proof.
  induction r as [|a r IH]; intros c r3 t H Hc; [discriminate|].
  cbn [app Overlay.skipParams] in *.
  destruct (Overlay.isParam a) eqn:Ea.
  - now apply IH.
  - injection H as -> ->. reflexivity.
Qed.

Lemma stripFuel_app n : forall x t,
  (List.length x <= n)%nat -> sgrOnly x ->
  Overlay.stripFuel (n + List.length t) (x ++ t) =
  Overlay.stripFuel n x ++ Overlay.stripAnsi t.
Proof.
  induction n as [|n IH]; intros x t Hl Hs.
  - destruct x; [reflexivity | cbn [List.length] in Hl; lia].
  - destruct x as [|c r].
    + cbn [app]. rewrite (stripFuel_fuel _ (List.length t) t) by lia.
      destruct t; reflexivity.
    + unfold sgrOnly in Hs. cbn [sgrRun sgrStep] in Hs. cbn [List.length] in Hl.
      cbn [app Nat.add Overlay.stripFuel].
      destruct (N.eqb c ESC) eqn:Ec.
      * destruct r as [|c1 r2]; [discriminate|]. cbn [sgrRun sgrStep] in Hs.
        destruct (N.eqb c1 ch_lbracket) eqn:E1; [|discriminate].
        destruct (sgrRun_params r2 Hs) as (r3 & Hskip & Hr3 & _ & Hlen).
        cbn [app]. unfold Overlay.matchSGR. rewrite Ec, E1. cbn [andb].
        rewrite (skipParams_app r2 ch_m r3 t Hskip eq_refl), Hskip, N.eqb_refl.
        cbn [List.length] in Hl. apply IH; [lia | exact Hr3].
      * rewrite !matchSGR_text by exact Ec.
        rewrite <- app_comm_cons. f_equal. apply IH; [lia | exact Hs].
Qed.

Lemma stripAnsi_app x t :
  sgrOnly x -> Overlay.stripAnsi (x ++ t) = Overlay.stripAnsi x ++ Overlay.stripAnsi t.
Proof.
  intros Hs. unfold Overlay.stripAnsi at 1 2. rewrite length_app.
  now apply stripFuel_app.
Qed.

Lemma noEsc_sgrOnly s : noEsc s -> sgrOnly s.
Proof.
  intros H. unfold sgrOnly. rewrite <- (app_nil_r s). now rewrite noEsc_sgrRun.
Qed.

Lemma stripAnsi_noEsc s : noEsc s -> Overlay.stripAnsi s = s.
Proof.
  unfold Overlay.stripAnsi. induction 1 as [|c r Hc Hr IH]; [reflexivity|].
  cbn [List.length Overlay.stripFuel]. rewrite matchSGR_text by exact Hc.
  now rewrite IH.
Qed.

Lemma stripAnsi_text_app s t :
  noEsc s -> Overlay.stripAnsi (s ++ t) = s ++ Overlay.stripAnsi t.
Proof.
  intros H. rewrite stripAnsi_app by now apply noEsc_sgrOnly.
  now rewrite stripAnsi_noEsc.
Qed.

Lemma renderHunk_stripped hl path h w :
  sgrOnly (shownText hl path h) ->
  Overlay.stripAnsi (shownText hl path h) = DiffEngine.content h ->
  Overlay.stripAnsi (content (renderHunk hl path h w)) = rawContent (renderHunk hl path h w).
Proof.
  intros Hs He.
  pose proof (padStart_noEsc _ w (toString_noEsc (nullish_or (anchor h) 0))) as Hn.
  assert (Hrest : forall color prefix,
            sgrOnly color -> Overlay.stripAnsi color = [] -> noEsc prefix ->
            Overlay.stripAnsi
              (color ++ padStart (toString (nullish_or (anchor h) 0)) w ++ lit " "
                     ++ prefix ++ lit " " ++ shownText hl path h ++ RESET)
            = padStart (toString (nullish_or (anchor h) 0)) w ++ lit " "
                     ++ prefix ++ lit " " ++ DiffEngine.content h).
  { intros color prefix Hc Hc0 Hp.
    rewrite (stripAnsi_app color) by exact Hc. rewrite Hc0. cbn [app].
    rewrite (stripAnsi_text_app _ _ Hn).
    rewrite (stripAnsi_text_app (lit " ")) by (repeat constructor).
    rewrite (stripAnsi_text_app _ _ Hp).
    rewrite (stripAnsi_text_app (lit " ")) by (repeat constructor).
    rewrite (stripAnsi_app _ RESET Hs), He.
    change (Overlay.stripAnsi RESET) with (@nil code_unit). now rewrite app_nil_r. }
  unfold shownText in *. unfold renderHunk.
  destruct (type h); cbn [content rawContent]; try destruct hl;
    apply Hrest; solve [reflexivity | repeat constructor].
Qed.

(** X14: when the text shown for every record (the highlighter's output
    for a context line, the record's content otherwise) consists of SGR
    sequences around the record's content, then for every row of the view
    the raw text is the coloured text with the SGR sequences removed by
    [stripAnsi]. *)
Theorem raw_content_is_stripped_content (v : InlineDiffView) :
  Reachable v ->
  Forall (fun h => sgrOnly (shownText (highlightFn v) (filePath (diff v)) h) /\
                   Overlay.stripAnsi (shownText (highlightFn v) (filePath (diff v)) h)
                   = DiffEngine.content h)
         (hunks (diff v)) ->
  Forall (fun r => Overlay.stripAnsi (content r) = rawContent r) (renderedLines v).
Proof.
  intros Hr Hd. apply Reachable_Built in Hr.
  destruct (Built_arrays v Hr) as [-> _]. unfold contentRows.
  apply Forall_flat_map. apply Forall_forall. intros i _.
  apply Forall_app. split.
  - destruct (gapBefore (hunks (diff v)) i); constructor; [reflexivity | constructor].
  - destruct (nth_error (hunks (diff v)) i) as [h|] eqn:E; constructor; [|constructor].
    rewrite Forall_forall in Hd. apply nth_error_In in E.
    destruct (Hd h E) as [Hs He]. now apply renderHunk_stripped.
Qed.

Lemma raw_content_is_stripped_content_witness :
  Reachable (new simpleDiff None) /\
  Forall (fun r => Overlay.stripAnsi (content r) = rawContent r)
         (renderedLines (new simpleDiff None)).
Proof.
  assert (Hr : Reachable (new simpleDiff None)) by apply Reach_new.
  split; [exact Hr|].
  apply (raw_content_is_stripped_content _ Hr).
  repeat constructor.
Defined.

(** *** The background of the selected rows *)

Lemma rows_coloured v :
  Reachable v -> Forall (fun r => coloured (content r)) (renderedLines v).
Proof.
  intros Hr. apply Reachable_Built in Hr.
  destruct (Built_arrays v Hr) as [-> _]. unfold contentRows.
  apply Forall_flat_map. apply Forall_forall. intros i _.
  apply Forall_app. split.
  - destruct (gapBefore (hunks (diff v)) i); constructor; [|constructor].
    exists DIM, (DOTS ++ RESET). split; [cbn; tauto | reflexivity].
  - destruct (nth_error (hunks (diff v)) i) as [h|]; constructor; [|constructor].
    unfold renderHunk, coloured. destruct (type h); cbn [content].
    + exists GREEN. eexists. split; [cbn; tauto | reflexivity].
    + exists RED. eexists. split; [cbn; tauto | reflexivity].
    + exists DIM. eexists. split; [cbn; tauto | reflexivity].
Qed.

Lemma truncate_keeps_opening c rest width :
  In c [GREEN; RED; DIM; BG_ON] ->
  exists t, truncateToWidth (c ++ rest) width = c ++ t.
Proof.
  intros Hc.
  assert (Hb : exists t, truncateLoop width (c ++ rest) 0 [] false [] = c ++ t).
  { cbn [In] in Hc.
    destruct Hc as [<-|[<-|[<-|[<-|[]]]]];
      (match goal with
       | |- exists t, truncateLoop _ (?c ++ _) _ _ _ _ = _ =>
         destruct (truncateLoop_inv width rest 0 c false []) as (_ & _ & t & Ht);
         [reflexivity | intros H; discriminate H | unfold scannerLength; simpl; lia |];
         exists t; exact Ht
       end). }
  destruct Hb as [t Ht].
  destruct (truncateToWidth_cases (c ++ rest) width) as [[-> _]|[-> _]]; rewrite Ht.
  - now exists t.
  - exists (t ++ RESET). now rewrite app_assoc.
Qed.

Lemma renderRow_background v width off line i :
  coloured (content line) ->
  startsWith (renderRow v width off line i) BG_ON = highlighted v (off + i).
Proof.
  intros Hc. unfold renderRow, highlighted, getVisualRange. cbv zeta. cbn [fst snd].
  match goal with
  | |- startsWith (truncateToWidth (if ?b then _ else _) _) _ = ?b' =>
    change b' with b; destruct b
  end.
  - destruct (truncate_keeps_opening BG_ON (replaceFinalReset (content line)) width)
      as [t ->]; [cbn; tauto|].
    apply startsWith_app.
  - destruct Hc as (c & rest & Hin & ->).
    destruct (truncate_keeps_opening c rest width) as [t ->]; [cbn in *; tauto|].
    cbn [In] in Hin. destruct Hin as [<-|[<-|[<-|[]]]]; reflexivity.
Qed.

Lemma index_bounds {A} (l : list A) i x : index l i = Some x -> 0 <= i < len l.
Proof.
  unfold index. destruct (Z.ltb_spec i 0) as [Hi|Hi]; [discriminate|]. intros Hx.
  assert (Hn : nth_error l (Z.to_nat i) <> None) by (rewrite Hx; discriminate).
  apply nth_error_Some in Hn. unfold len. lia.
Qed.

(** X15: in every state of an [InlineDiffView] reached with scroll amounts
    that are not negative, and for every width and every height that is not
    negative, the row [render] returns at position [i] is the rendering of
    row [offset + i] of the view, [offset] being the scroll offset [render]
    stores, and it opens with the background sequence ESC[48;5;236m exactly
    when that row is the cursor row or, in visual mode, a row of the visual
    range. *)
Theorem render_highlights_selection
    (v : InlineDiffView) (width height i : Z) (row : jsstring) :
  ReachableBy lineCount v -> 0 <= height ->
  index (snd (render v width height)) i = Some row ->
  exists line,
    index (renderedLines v) (renderOffset v height + i) = Some line /\
    row = renderRow (fst (render v width height)) width (renderOffset v height) line i /\
    startsWith row BG_ON = highlighted v (renderOffset v height + i).
Proof.
  intros Hr Hh Hrow.
  pose proof (Reachable_ViewInv v Hr) as Hv.
  assert (Hr' : Reachable v).
  { eapply ReachableBy_weaken; [|exact Hr]. intros; exact I. }
  destruct (render_rows_at v width height Hv Hh) as [Hlen Hrows].
  pose proof (index_bounds _ _ _ Hrow) as Hi. rewrite Hlen in Hi.
  destruct (Hrows i Hi) as (line & Hline & Hrow').
  rewrite Hrow' in Hrow. injection Hrow as <-.
  exists line. split; [exact Hline|]. split; [reflexivity|].
  rewrite renderRow_background.
  - reflexivity.
  - pose proof (rows_coloured v Hr') as Hall. rewrite Forall_forall in Hall. apply Hall.
    unfold index in Hline. destruct (renderOffset v height + i <? 0); [discriminate|].
    now apply nth_error_In in Hline.
Qed.

Lemma render_highlights_selection_witness :
  ReachableBy lineCount (scrollToBottom (new gapDiff None)) /\ 0 <= 2 /\
  exists row,
    index (snd (render (scrollToBottom (new gapDiff None)) 80 2)) 1 = Some row /\
    index (renderedLines (scrollToBottom (new gapDiff None))) 4
      = Some (mkRenderedLine (DIM ++ lit "11   line 11" ++ RESET) (lit "11   line 11")) /\
    startsWith row BG_ON = true.
Proof.
  assert (Hr : ReachableBy lineCount (scrollToBottom (new gapDiff None))).
  { exact (Reach_step _ OpScrollToBottom _ (Reach_new _ gapDiff None) I). }
  assert (Hh : 0 <= 2) by lia.
  split; [exact Hr|]. split; [exact Hh|].
  destruct (index (snd (render (scrollToBottom (new gapDiff None)) 80 2)) 1)
    as [row|] eqn:E; [|vm_compute in E; discriminate E].
  exists row. split; [reflexivity|].
  destruct (render_highlights_selection _ 80 2 1 row Hr Hh E) as (line & Hline & _ & Hbg).
  split; [vm_compute; reflexivity|].
  rewrite Hbg. vm_compute. reflexivity.
Defined.

End ViewFacts.

(** ** The review session *)

Module ModalFacts.

Import State Ledger Modal.

Lemma rem_step i n : 0 <= i < n -> Z.rem (i + 1) n = (i + 1) mod n.
Proof. intros H. apply Z.rem_mod_nonneg; lia. Qed.

Lemma next_index i k n :
  0 < n -> Z.rem ((i + k) mod n + 1) n = (i + (k + 1)) mod n.
Proof.
  intros Hn. pose proof (Z.mod_pos_bound (i + k) n Hn).
  rewrite rem_step by lia. rewrite Zplus_mod_idemp_l. f_equal. lia.
Qed.

Lemma previous_index i k n :
  0 < n ->
  (if (i - k) mod n =? 0 then n - 1 else (i - k) mod n - 1) = (i - (k + 1)) mod n.
Proof.
  intros Hn. pose proof (Z.mod_pos_bound (i - k) n Hn) as Hb.
  replace (i - (k + 1)) with (i - k - 1) by lia.
  rewrite <- (Zminus_mod_idemp_l (i - k) 1 n).
  destruct (Z.eqb_spec ((i - k) mod n) 0) as [E|E].
  - rewrite E. apply (Z.mod_unique _ _ (-1)); lia.
  - symmetry. apply Z.mod_small. lia.
Qed.

Lemma prev_next i n :
  0 <= i < n -> (if Z.rem (i + 1) n =? 0 then n - 1 else Z.rem (i + 1) n - 1) = i.
Proof.
  intros H. rewrite rem_step by exact H.
  destruct (Z.eq_dec (i + 1) n) as [E|E].
  - rewrite E, Z.mod_same by lia. cbn. lia.
  - rewrite Z.mod_small by lia. destruct (Z.eqb_spec (i + 1) 0); lia.
Qed.

Lemma next_prev i n :
  0 <= i < n -> Z.rem ((if i =? 0 then n - 1 else i - 1) + 1) n = i.
Proof.
  intros H. destruct (Z.eqb_spec i 0) as [E0|E0].
  - replace (n - 1 + 1) with n by lia. rewrite Z.rem_same by lia. lia.
  - replace (i - 1 + 1) with i by lia. apply Z.rem_small. lia.
Qed.

Lemma iter_selectNext m k :
  _fileList m <> [] -> 0 <= _selectedIndex m < len (_fileList m) ->
  Nat.iter k selectNext m
  = with_selectedIndex m ((_selectedIndex m + Z.of_nat k) mod len (_fileList m)).
Proof.
  intros Hne Hb. induction k as [|k IH].
  - cbn [Nat.iter nat_rect]. rewrite Z.add_0_r, Z.mod_small by lia. now destruct m.
  - rewrite Nat.iter_succ, IH. unfold selectNext, with_selectedIndex.
    cbn [_fileList _selectedIndex _filePickerOpen _filePickerIndex diffState].
    destruct (_fileList m) as [|e l] eqn:E; [contradiction|]. rewrite <- E in *.
    rewrite next_index by lia. do 2 f_equal. lia.
Qed.

Lemma iter_selectPrevious m k :
  _fileList m <> [] -> 0 <= _selectedIndex m < len (_fileList m) ->
  Nat.iter k selectPrevious m
  = with_selectedIndex m ((_selectedIndex m - Z.of_nat k) mod len (_fileList m)).
Proof.
  intros Hne Hb. induction k as [|k IH].
  - cbn [Nat.iter nat_rect]. rewrite Z.sub_0_r, Z.mod_small by lia. now destruct m.
  - rewrite Nat.iter_succ, IH. unfold selectPrevious, with_selectedIndex.
    cbn [_fileList _selectedIndex _filePickerOpen _filePickerIndex diffState].
    destruct (_fileList m) as [|e l] eqn:E; [contradiction|]. rewrite <- E in *.
    rewrite previous_index by lia. do 2 f_equal. lia.
Qed.

Lemma iter_filePickerNext m k :
  _fileList m <> [] -> 0 <= _filePickerIndex m < len (_fileList m) ->
  Nat.iter k filePickerNext m
  = with_filePickerIndex m ((_filePickerIndex m + Z.of_nat k) mod len (_fileList m)).
Proof.
  intros Hne Hb. induction k as [|k IH].
  - cbn [Nat.iter nat_rect]. rewrite Z.add_0_r, Z.mod_small by lia. now destruct m.
  - rewrite Nat.iter_succ, IH. unfold filePickerNext, with_filePickerIndex.
    cbn [_fileList _selectedIndex _filePickerOpen _filePickerIndex diffState].
    destruct (_fileList m) as [|e l] eqn:E; [contradiction|]. rewrite <- E in *.
    rewrite next_index by lia. do 2 f_equal. lia.
Qed.

Lemma iter_filePickerPrevious m k :
  _fileList m <> [] -> 0 <= _filePickerIndex m < len (_fileList m) ->
  Nat.iter k filePickerPrevious m
  = with_filePickerIndex m ((_filePickerIndex m - Z.of_nat k) mod len (_fileList m)).
Proof.
  intros Hne Hb. induction k as [|k IH].
  - cbn [Nat.iter nat_rect]. rewrite Z.sub_0_r, Z.mod_small by lia. now destruct m.
  - rewrite Nat.iter_succ, IH. unfold filePickerPrevious, with_filePickerIndex.
    cbn [_fileList _selectedIndex _filePickerOpen _filePickerIndex diffState].
    destruct (_fileList m) as [|e l] eqn:E; [contradiction|]. rewrite <- E in *.
    rewrite previous_index by lia. do 2 f_equal. lia.
Qed.

(** X16: with a non-empty file list and the selected index inside it,
    [k] calls of [selectNext] move the selection to
    [(selectedIndex + k) mod length] and [k] calls of [selectPrevious] to
    [(selectedIndex - k) mod length], and change nothing else; the two
    operations undo each other, and a full round of either returns to the
    start. *)
Theorem selection_wraps_around (m : DiffReviewModal) (k : nat) :
  _fileList m <> [] -> 0 <= _selectedIndex m < len (_fileList m) ->
  Nat.iter k selectNext m
    = with_selectedIndex m ((_selectedIndex m + Z.of_nat k) mod len (_fileList m)) /\
  Nat.iter k selectPrevious m
    = with_selectedIndex m ((_selectedIndex m - Z.of_nat k) mod len (_fileList m)) /\
  selectPrevious (selectNext m) = m /\
  selectNext (selectPrevious m) = m /\
  Nat.iter (List.length (_fileList m)) selectNext m = m /\
  Nat.iter (List.length (_fileList m)) selectPrevious m = m.
Proof.
  intros Hne Hb.
  assert (Hn : 0 < len (_fileList m)) by lia.
  split; [now apply iter_selectNext|]. split; [now apply iter_selectPrevious|].
  split; [|split; [|split]].
  - clear Hn. destruct m as [i l o j ds].
    cbn [_fileList _selectedIndex] in *.
    destruct l as [|e l]; [contradiction|].
    unfold selectNext, selectPrevious, with_selectedIndex.
    cbn [_fileList _selectedIndex _filePickerOpen _filePickerIndex diffState].
    f_equal. now apply prev_next.
  - clear Hn. destruct m as [i l o j ds].
    cbn [_fileList _selectedIndex] in *.
    destruct l as [|e l]; [contradiction|].
    unfold selectNext, selectPrevious, with_selectedIndex.
    cbn [_fileList _selectedIndex _filePickerOpen _filePickerIndex diffState].
    f_equal. now apply next_prev.
  - rewrite iter_selectNext by assumption. fold (len (_fileList m)).
    replace (_selectedIndex m + len (_fileList m))
      with (_selectedIndex m + 1 * len (_fileList m)) by lia.
    rewrite Z.mod_add, Z.mod_small by lia. now destruct m.
  - rewrite iter_selectPrevious by assumption. fold (len (_fileList m)).
    replace (_selectedIndex m - len (_fileList m))
      with (_selectedIndex m + (-1) * len (_fileList m)) by lia.
    rewrite Z.mod_add, Z.mod_small by lia. now destruct m.
Qed.

Lemma selection_wraps_around_witness :
  let m := Modal.new oneLinePatch (changedFiles 3) in
  _fileList m <> [] /\ 0 <= _selectedIndex m < len (_fileList m) /\
  _selectedIndex (Nat.iter 4 selectNext m) = 1.
Proof.
  cbv zeta.
  assert (Hne : _fileList (Modal.new oneLinePatch (changedFiles 3)) <> [])
    by (vm_compute; discriminate).
  assert (Hb : 0 <= _selectedIndex (Modal.new oneLinePatch (changedFiles 3))
               < len (_fileList (Modal.new oneLinePatch (changedFiles 3))))
    by (vm_compute; split; [discriminate | reflexivity]).
  split; [exact Hne|]. split; [exact Hb|].
  rewrite (proj1 (selection_wraps_around _ 4 Hne Hb)).
  vm_compute. reflexivity.
Defined.

(** X17: with a non-empty file list and the selected index inside it,
    opening the picker, moving [k] times in it and confirming selects the
    file [(selectedIndex + k) mod length] (minus for the other direction)
    and closes the picker; closing it instead leaves the selection where
    it was. *)
Theorem picker_navigation_selects (m : DiffReviewModal) (k : nat) :
  _fileList m <> [] -> 0 <= _selectedIndex m < len (_fileList m) ->
  let n := len (_fileList m) in
  let fwd := Nat.iter k filePickerNext (openFilePicker m) in
  let bwd := Nat.iter k filePickerPrevious (openFilePicker m) in
  confirmFilePickerSelection fwd
    = mkModal ((_selectedIndex m + Z.of_nat k) mod n) (_fileList m) false
              ((_selectedIndex m + Z.of_nat k) mod n) (diffState m) /\
  confirmFilePickerSelection bwd
    = mkModal ((_selectedIndex m - Z.of_nat k) mod n) (_fileList m) false
              ((_selectedIndex m - Z.of_nat k) mod n) (diffState m) /\
  _selectedIndex (closeFilePicker fwd) = _selectedIndex m /\
  _selectedIndex (closeFilePicker bwd) = _selectedIndex m.
Proof.
  intros Hne Hb. cbv zeta.
  rewrite iter_filePickerNext, iter_filePickerPrevious by assumption.
  unfold openFilePicker, confirmFilePickerSelection, closeFilePicker, with_filePickerIndex.
  cbn [_fileList _selectedIndex _filePickerOpen _filePickerIndex diffState].
  repeat split.
Qed.

Lemma picker_navigation_selects_witness :
  let m := Modal.new oneLinePatch (changedFiles 3) in
  _fileList m <> [] /\ 0 <= _selectedIndex m < len (_fileList m) /\
  _selectedIndex (confirmFilePickerSelection
                    (Nat.iter 2 filePickerPrevious (openFilePicker m))) = 1.
Proof.
  cbv zeta.
  assert (Hne : _fileList (Modal.new oneLinePatch (changedFiles 3)) <> [])
    by (vm_compute; discriminate).
  assert (Hb : 0 <= _selectedIndex (Modal.new oneLinePatch (changedFiles 3))
               < len (_fileList (Modal.new oneLinePatch (changedFiles 3))))
    by (vm_compute; split; [discriminate | reflexivity]).
  split; [exact Hne|]. split; [exact Hb|].
  rewrite (proj1 (proj2 (picker_navigation_selects _ 2 Hne Hb))).
  vm_compute. reflexivity.
Defined.

Section Refresh.
Variable structuredPatch : jsstring -> jsstring -> jsstring -> list PatchHunk.

Lemma refresh_paths m :
  map path (_fileList (refresh structuredPatch m)) = getChangedFiles (diffState m).
Proof.
  unfold refresh. cbv zeta. cbn [_fileList]. rewrite map_map. cbn [path]. apply map_id.
Qed.

Lemma refresh_shape m :
  let L := _fileList (refresh structuredPatch m) in
  refresh structuredPatch m
  = mkModal (match L with
             | [] => 0
             | _ => if _selectedIndex m >=? len L then len L - 1 else _selectedIndex m
             end)
            L (_filePickerOpen m) (_filePickerIndex m) (diffState m).
Proof. reflexivity. Qed.

Lemma changed_is_tracked s p :
  In p (getChangedFiles s) -> exists sn, get (snapshots s) p = Some sn.
Proof.
  intros H. destruct (get (snapshots s) p) as [sn|] eqn:E; [eauto|].
  exfalso. apply StateFacts.get_None_not_In in E. apply E.
  unfold getChangedFiles in H. apply in_map_iff in H.
  destruct H as (e & <- & He). apply filter_In in He. apply in_map. tauto.
Qed.

(** X18: after [refresh] the file list holds the changed files of the
    state, in their order, each with the counts and the new-file flag of
    its diff, so the defaults for a missing diff are never used; the selected
    index is not above the last entry; and a second [refresh] changes
    nothing. *)
Theorem refresh_lists_changed_files (m : DiffReviewModal) :
  let m' := refresh structuredPatch m in
  map path (_fileList m') = getChangedFiles (diffState m) /\
  Forall (fun e =>
            exists d, getFileDiff structuredPatch (diffState m) (path e) = Some d /\
                      additions e = DiffEngine.additions d /\
                      deletions e = DiffEngine.deletions d /\
                      isNewFile e = DiffEngine.isNewFile d)
         (_fileList m') /\
  _selectedIndex m' <= Z.max 0 (len (_fileList m') - 1) /\
  refresh structuredPatch m' = m'.
Proof.
  cbv zeta. split; [apply refresh_paths|]. split; [|split].
  - unfold refresh. cbv zeta. cbn [_fileList]. apply Forall_map.
    apply Forall_forall. intros p Hp. cbn [path additions deletions isNewFile].
    destruct (changed_is_tracked _ _ Hp) as [sn Hsn].
    unfold getFileDiff. rewrite Hsn. eexists. split; [reflexivity|].
    cbn [option_map nullish_or]. repeat split.
  - unfold refresh. cbv zeta. cbn [_fileList _selectedIndex].
    match goal with |- context [len ?l] => generalize l end. intros l.
    destruct l as [|e l]; [unfold len; cbn; lia|].
    destruct (Z.geb_spec (_selectedIndex m) (len (e :: l))); lia.
  - pose proof (refresh_shape m) as Hm. cbv zeta in Hm.
    remember (_fileList (refresh structuredPatch m)) as L eqn:EL.
    rewrite Hm. rewrite refresh_shape. cbv zeta.
    cbn [_fileList _selectedIndex _filePickerOpen _filePickerIndex diffState].
    match goal with
    | |- context [_fileList (refresh structuredPatch ?x)] =>
      replace (_fileList (refresh structuredPatch x)) with L by (rewrite EL; reflexivity)
    end.
    f_equal. clear Hm EL.
    destruct L as [|e l]; [reflexivity|].
    destruct (Z.geb_spec (_selectedIndex m) (len (e :: l))) as [H|H].
    + destruct (Z.geb_spec (len (e :: l) - 1) (len (e :: l))); [lia | reflexivity].
    + destruct (Z.geb_spec (_selectedIndex m) (len (e :: l))); [lia | reflexivity].
Qed.

(** X19: when the file list is the one [refresh] made of a state in which
    every path has one snapshot, and a file with a non-empty path is
    selected, [dismissSelected] answers [true], the file leaves the list,
    the other files stay in their order, and the selection keeps its
    position unless it was the last, in which case it moves to the new
    last entry. *)
Theorem dismissSelected_drops_selected_file (m : DiffReviewModal) (p : jsstring) :
  NoDup (keys (diffState m)) ->
  map path (_fileList m) = getChangedFiles (diffState m) ->
  bounded (_selectedIndex m) (_fileList m) ->
  truthy (selectedFile m) = Some p ->
  let m' := fst (dismissSelected structuredPatch m) in
  snd (dismissSelected structuredPatch m) = true /\
  map path (_fileList m')
    = filter (fun q => negb (str_eqb q p)) (map path (_fileList m)) /\
  ~ In p (map path (_fileList m')) /\
  len (_fileList m') = len (_fileList m) - 1 /\
  _selectedIndex m' = Z.min (_selectedIndex m) (Z.max 0 (len (_fileList m) - 2)).
Proof.
  intros Hnd Hsync Hb Hsel. cbv zeta.
  assert (Hin : In p (map path (_fileList m))).
  { unfold selectedFile in Hsel. destruct (_fileList m) as [|e l] eqn:E; [discriminate|].
    rewrite <- E in *.
    destruct (index (_fileList m) (_selectedIndex m)) as [e'|] eqn:Ei; [|discriminate].
    cbn [option_map] in Hsel. unfold truthy in Hsel.
    destruct (path e') as [|c r] eqn:Ep; [discriminate|]. injection Hsel as <-.
    rewrite <- Ep. apply in_map. unfold index in Ei.
    destruct (_selectedIndex m <? 0); [discriminate|]. now apply nth_error_In in Ei. }
  unfold dismissSelected. rewrite Hsel.
  match goal with |- context [refresh structuredPatch ?m1] => set (m1' := m1) end.
  pose proof (refresh_paths m1') as Hp. subst m1'. cbn [diffState] in Hp.
  set (m2 := refresh structuredPatch _) in *.
  destruct (diffState m) as [l] eqn:Eds. unfold keys in Hnd. cbn [snapshots] in Hnd.
  unfold dismissFile in Hp. cbn [snapshots] in Hp.
  rewrite !StateFacts.getChangedFiles_eq in *.
  destruct (StateFacts.changed_after_dismiss l p Hnd) as [H1 H2].
  rewrite <- Hp, <- Hsync in H1, H2.
  assert (He : existsb (fun q => str_eqb q p) (map path (_fileList m)) = true).
  { apply existsb_exists. exists p. split; [exact Hin|].
    destruct (str_eqb_spec p p); [reflexivity | contradiction]. }
  rewrite He in H2. rewrite !OverlayFacts.len_map in H2.
  assert (Hsel2 : _selectedIndex m2
                  = Z.min (_selectedIndex m) (Z.max 0 (len (_fileList m) - 2))).
  { apply SessionFacts.bounded_iff in Hb.
    assert (Hpos : 0 < len (_fileList m)).
    { destruct (_fileList m); [destruct Hin | unfold len; cbn [List.length]; lia]. }
    revert H2. subst m2. unfold refresh. cbv zeta. cbn [_fileList _selectedIndex].
    match goal with |- context [len ?l] => generalize l end. intros l2 H2.
    destruct l2 as [|e2 l2].
    - change (len (@nil ModalFileEntry)) with 0 in H2. lia.
    - pose proof (OverlayFacts.len_cons e2 l2). pose proof (len_nonneg l2).
      destruct (Z.geb_spec (_selectedIndex m) (len (e2 :: l2))); lia. }
  assert (Hm3 : (if (_selectedIndex m2 >=? len (_fileList m2)) && (len (_fileList m2) >? 0)
                 then with_selectedIndex m2 (len (_fileList m2) - 1) else m2) = m2).
  { destruct (Z.geb_spec (_selectedIndex m2) (len (_fileList m2))) as [Hge|]; [|reflexivity].
    destruct (Z.gtb_spec (len (_fileList m2)) 0); [|reflexivity].
    apply SessionFacts.bounded_iff in Hb. lia. }
  cbn [fst snd]. rewrite Hm3.
  split; [reflexivity|]. split; [exact H1|]. split; [|split; [exact H2 | exact Hsel2]].
  rewrite H1. intros Hf. apply filter_In in Hf. destruct Hf as [_ Hf].
  destruct (str_eqb_spec p p); [discriminate | contradiction].
Qed.

End Refresh.

Lemma dismissSelected_drops_selected_file_witness :
  let m := selectIndex (Modal.new oneLinePatch (changedFiles 3)) 2 in
  truthy (selectedFile m) = Some (lit "f2") /\
  map path (_fileList (fst (dismissSelected oneLinePatch m))) = [lit "f0"; lit "f1"] /\
  _selectedIndex (fst (dismissSelected oneLinePatch m)) = 1.
Proof.
  cbv zeta.
  set (m := selectIndex (Modal.new oneLinePatch (changedFiles 3)) 2).
  assert (Hnd : NoDup (keys (diffState m))).
  { vm_compute. repeat constructor; cbn [In]; intros H;
      repeat (destruct H as [H|H]; [discriminate H|]); exact H. }
  assert (Hsync : map path (_fileList m) = getChangedFiles (diffState m)) by reflexivity.
  assert (Hb : bounded (_selectedIndex m) (_fileList m)).
  { apply SessionFacts.bounded_iff. vm_compute. split; discriminate. }
  assert (Hsel : truthy (selectedFile m) = Some (lit "f2")) by reflexivity.
  split; [exact Hsel|].
  destruct (dismissSelected_drops_selected_file oneLinePatch m (lit "f2") Hnd Hsync Hb Hsel)
    as (_ & H1 & _ & _ & H4).
  split; [rewrite H1 | rewrite H4]; vm_compute; reflexivity.
Defined.

End ModalFacts.

(** ** The overlay as a whole *)

Module OverlayInvFacts.

Import Modal Overlay OverlaySpec.

Lemma mapDefined_ok {B} (f : DiffLine -> B) (P : DiffLine -> Prop) l :
  Forall (fun o => exists h, o = Some h /\ P h) l ->
  exists ys, mapDefined f l = Ok ys.
Proof.
  induction 1 as [|o r (h & -> & _) _ (ys & IH)]; cbn [mapDefined]; [eauto|].
  rewrite IH. cbn [bind]. eauto.
Qed.

Lemma with_controller_inv h f :
  controllerInv h ->
  (forall c, ReachableBy lineCount (Controller.inlineView c) ->
             ReachableBy lineCount (Controller.inlineView (f c))) ->
  controllerInv (with_controller h f).
Proof.
  intros Hc Hf c. unfold with_controller. cbn [viewController].
  destruct (viewController h) as [c0|] eqn:E; cbn [option_map]; [|discriminate].
  intros [= <-]. apply Hf. now apply Hc.
Qed.

Lemma scroll_steps c :
  ReachableBy lineCount (Controller.inlineView c) ->
  (forall n, ReachableBy lineCount (Controller.inlineView (Controller.scrollUp c n))) /\
  (forall n, 0 <= n ->
             ReachableBy lineCount (Controller.inlineView (Controller.scrollDown c n))) /\
  ReachableBy lineCount (Controller.inlineView (Controller.enterVisualMode c)) /\
  ReachableBy lineCount (Controller.inlineView (Controller.exitVisualMode c)) /\
  (forall w h, ReachableBy lineCount
                 (Controller.inlineView (fst (Controller.render c w h)))).
Proof.
  intros Hr. repeat split; intros.
  - exact (Reach_step _ (OpScrollUp n) _ Hr I).
  - exact (Reach_step _ (OpScrollDown n) _ Hr H).
  - exact (Reach_step _ OpEnterVisualMode _ Hr I).
  - exact (Reach_step _ OpExitVisualMode _ Hr I).
  - unfold Controller.render.
    pose proof (Reach_step _ (OpRender w h) _ Hr I) as H. cbn [ViewSpec.perform] in H.
    destruct (InlineView.render (Controller.inlineView c) w h). exact H.
Qed.

Lemma yank_ok h :
  controllerInv h ->
  exists h' effects, yank h = Ok (h', effects) /\ controllerInv h'.
Proof.
  intros Hc. unfold yank. destruct (viewController h) as [c|] eqn:E; [|eauto].
  pose proof (Hc c E) as Hr.
  assert (Hd : Forall (fun o => exists x, o = Some x /\
                         In x (hunks (diff (Controller.inlineView c))))
                      (Controller.getSelectedDiffLines c)).
  { apply ViewFacts.getSelectedDiffLines_defined.
    eapply ViewFacts.ReachableBy_weaken; [|exact Hr]. intros; exact I. }
  destruct (Controller.isVisualMode c).
  - destruct (len (Controller.getSelectedDiffLines c) >? 0); [|eauto].
    destruct (mapDefined_ok anchor _ _ Hd) as [anchors ->]. cbn [bind].
    destruct (definedOnly anchors); [eauto|].
    destruct (mapDefined_ok DiffEngine.content _ _ Hd) as [codeLines ->]. cbn [bind].
    eexists. eexists. split; [reflexivity|].
    apply with_controller_inv; [exact Hc|]. intros c0 H0. now apply scroll_steps.
  - destruct (Controller.getCursorDiffLine c) as [dl|]; [|eauto].
    destruct (anchor dl); eauto.
Qed.

Section Handler.

Variable structuredPatch : jsstring -> jsstring -> jsstring -> list PatchHunk.
Variable fg : jsstring -> jsstring -> jsstring.
Variable bold : jsstring -> jsstring.
Variable hostTruncateToWidth : jsstring -> Z -> jsstring.
Variable highlightProvider : HighlightFn.
Variable roundPercent : Z -> Z -> Z.
Variable optionsTitle : option jsstring.
Variable matchesKey : jsstring -> KeyId -> bool.

Local Abbreviation handleInput :=
  (Overlay.handleInput structuredPatch highlightProvider matchesKey).
Local Abbreviation buildViewController :=
  (Overlay.buildViewController structuredPatch highlightProvider).
Local Abbreviation createOverlayHandler :=
  (Overlay.createOverlayHandler structuredPatch highlightProvider).
Local Abbreviation render :=
  (Overlay.render fg bold hostTruncateToWidth roundPercent optionsTitle).

Lemma buildViewController_inv h : controllerInv (buildViewController h).
Proof.
  unfold Overlay.buildViewController.
  destruct (getSelectedDiff structuredPatch (modal h)); intros c; cbn [viewController];
    [|discriminate].
  intros [= <-]. apply Reach_new.
Qed.

Lemma handleInput_controller h data :
  controllerInv h ->
  exists h' effects, handleInput h data = Ok (h', effects) /\ controllerInv h'.
Proof.
  intros Hc. unfold Overlay.handleInput. cbv zeta.
  assert (Hup : forall n, controllerInv (with_controller h (fun c => Controller.scrollUp c n))).
  { intros n. apply with_controller_inv; [exact Hc|]. intros c0 H0. now apply scroll_steps. }
  assert (Hdown : forall n, 0 <= n ->
            controllerInv (with_controller h (fun c => Controller.scrollDown c n))).
  { intros n Hn. apply with_controller_inv; [exact Hc|]. intros c0 H0.
    now apply scroll_steps. }
  repeat match goal with
         | |- exists _ _, (if ?b then _ else _) = _ /\ _ => destruct b
         end;
    try solve [ eexists; eexists; split; [reflexivity|];
                first [ exact Hc | apply buildViewController_inv | apply Hup
                      | apply Hdown; lia ] ].
  - destruct (viewController h) as [c|] eqn:E.
    + eexists. eexists. split; [reflexivity|].
      apply with_controller_inv; [exact Hc|]. intros c0 H0.
      destruct (Controller.isVisualMode c); now apply scroll_steps.
    + eexists. eexists. split; [reflexivity | exact Hc].
  - now apply yank_ok.
Qed.

(** X20: the handler made by [createOverlayHandler] over a session that
    satisfies the session invariant satisfies the overlay invariant (the
    session invariant, and a diff view in a state of its own operations);
    under that invariant [handleInput] throws on no key and keeps the
    invariant. *)
Theorem handleInput_keeps_overlay_invariant (h : Handler) (data : jsstring) :
  OverlayInv h ->
  (exists h' effects, handleInput h data = Ok (h', effects) /\ OverlayInv h') /\
  (forall m, SessionInv m -> OverlayInv (createOverlayHandler m)).
Proof.
  intros [Hs Hc]. split.
  - destruct (handleInput_controller h data Hc) as (h' & effects & He & Hc').
    exists h', effects. split; [exact He|]. split; [|exact Hc'].
    exact (OverlayFacts.handleInput_preserves_SessionInv
             structuredPatch highlightProvider matchesKey h data h' effects Hs He).
  - intros m Hm. unfold Overlay.createOverlayHandler. split.
    + rewrite OverlayFacts.buildViewController_modal. exact Hm.
    + apply buildViewController_inv.
Qed.

Lemma render_controller width h tuiHeight h' rows :
  render width h tuiHeight = Ok (h', rows) -> controllerInv h -> controllerInv h'.
Proof.
  unfold Overlay.render. cbv zeta. intros H Hc.
  assert (Hsame : forall content,
            (rows0 <- Overlay.assemble fg bold hostTruncateToWidth optionsTitle width
                        (modal h) (targetHeightOf tuiHeight) content ;;
             Ok (h, rows0)) = Ok (h', rows) -> controllerInv h').
  { intros content. destruct (Overlay.assemble _ _ _ _ _ _ _ _); cbn [bind];
      [|discriminate]. now intros [= <- _]. }
  destruct (getFileList (modal h)) as [|e l]; [cbn [bind] in H; now apply (Hsame _ H)|].
  destruct (isFilePickerOpen (modal h)); [cbn [bind] in H; now apply (Hsame _ H)|].
  unfold Overlay.diffContent in H. cbv zeta in H.
  destruct (index _ _); [|discriminate].
  destruct (repeat_checked BOX_H (innerWidth width)); cbn [bind] in H; [|discriminate].
  destruct (viewController h) as [c|] eqn:E.
  - pose proof (proj2 (proj2 (proj2 (proj2 (scroll_steps c (Hc c E)))))
                 (innerWidth width) (Math_max 5 (targetHeightOf tuiHeight - 8))) as Hr.
    destruct (Controller.render c (innerWidth width)
                (Math_max 5 (targetHeightOf tuiHeight - 8))) as [c' diffLines].
    cbn [fst bind] in *.
    destruct (Overlay.assemble _ _ _ _ _ _ _ _); cbn [bind] in H; [|discriminate].
    injection H as <- _. intros c0. cbn [viewController]. now intros [= <-].
  - cbn [bind] in H.
    destruct (Overlay.assemble _ _ _ _ _ _ _ _); cbn [bind] in H; [|discriminate].
    injection H as <- _. intros c0. cbn [viewController]. rewrite E. discriminate.
Qed.

(** X21: under the overlay invariant, with a width of at least 4 and, in
    picker mode, a file list of at most [targetHeight - 6] entries,
    [render] does not throw, returns exactly
    [max 20 (floor (0.75 * terminal height))] rows, the top border first and
    the bottom border last, leaves the session as it is and keeps the
    invariant. *)
Theorem render_keeps_fixed_height (width : Z) (h : Handler) (tuiHeight : option Z) :
  OverlayInv h -> 4 <= width -> pickerFits h tuiHeight ->
  exists h' rows bottom,
    render width h tuiHeight = Ok (h', rows) /\
    OverlayInv h' /\ modal h' = modal h /\
    len rows = Z.max 20 (nullish_or tuiHeight 40 * 3 / 4) /\
    hd_error rows = Some (Overlay.topBorder fg bold optionsTitle width) /\
    Overlay.bottomBorder fg width = Ok bottom /\
    last rows [] = bottom.
Proof.
  intros [Hs Hc] Hw Hp.
  assert (Hr : renderable h width).
  { split; [exact Hw|]. destruct Hs as [[Hb _] _]. exact Hb. }
  destruct (OverlayFacts.render_fixed_height fg bold hostTruncateToWidth roundPercent
              optionsTitle width h tuiHeight Hr Hp)
    as (h' & rows & bottom & He & Hm & Hl & Hh & Hb & Hlast).
  exists h', rows, bottom. split; [exact He|].
  split; [|repeat split; assumption].
  split; [rewrite Hm; exact Hs | exact (render_controller _ _ _ _ _ He Hc)].
Qed.

(** X22: while the file picker is open, [handleInput] throws on no key,
    asks for nothing but a redraw, leaves the file list and the tracked
    contents as they are, and changes the selected file and the diff view
    only on Enter. *)
Theorem picker_mode_is_modal (h : Handler) (data : jsstring) :
  _filePickerOpen (modal h) = true ->
  exists h' effects,
    handleInput h data = Ok (h', effects) /\
    (effects = [] /\ h' = h \/ effects = [RequestRender]) /\
    _fileList (modal h') = _fileList (modal h) /\
    diffState (modal h') = diffState (modal h) /\
    (matchesKey data KeyEscape = true \/ matchesKey data KeyEnter = false ->
     _selectedIndex (modal h') = _selectedIndex (modal h) /\
     viewController h' = viewController h).
Proof.
  intros Ho. unfold Overlay.handleInput. cbv zeta. unfold isFilePickerOpen. rewrite Ho.
  assert (Hlist : forall f, (f = filePickerPrevious \/ f = filePickerNext) ->
            _fileList (f (modal h)) = _fileList (modal h) /\
            diffState (f (modal h)) = diffState (modal h) /\
            _selectedIndex (f (modal h)) = _selectedIndex (modal h)).
  { intros f [-> | ->]; unfold filePickerPrevious, filePickerNext, with_filePickerIndex;
      destruct (_fileList (modal h)) eqn:E; rewrite ?E; repeat split; reflexivity. }
  destruct (matchesKey data KeyEscape) eqn:Eesc.
  { eexists. eexists. split; [reflexivity|]. repeat split; auto. }
  destruct (matchesKey data KeyUp || str_eqb data (lit "k")).
  { eexists. eexists. split; [reflexivity|]. cbn [modal with_modal viewController].
    destruct (Hlist filePickerPrevious (or_introl eq_refl)) as (H1 & H2 & H3).
    repeat split; auto. }
  destruct (matchesKey data KeyDown || str_eqb data (lit "j")).
  { eexists. eexists. split; [reflexivity|]. cbn [modal with_modal viewController].
    destruct (Hlist filePickerNext (or_intror eq_refl)) as (H1 & H2 & H3).
    repeat split; auto. }
  destruct (matchesKey data KeyEnter) eqn:Eent.
  { eexists. eexists. split; [reflexivity|].
    rewrite OverlayFacts.buildViewController_modal. cbn [modal with_modal].
    split; [now right|]. split; [reflexivity|]. split; [reflexivity|].
    intros [H|H]; discriminate H. }
  eexists. eexists. split; [reflexivity|]. repeat split; auto.
Qed.

End Handler.

Lemma handleInput_keeps_overlay_invariant_witness :
  let h := createOverlayHandler oneLinePatch noHighlight
             (Modal.new oneLinePatch (changedFiles 2)) in
  OverlayInv h /\
  exists h' effects,
    Overlay.handleInput oneLinePatch noHighlight Picker.tokenKey h (lit "d")
      = Ok (h', effects) /\ OverlayInv h'.
Proof.
  cbv zeta.
  assert (Hs : SessionInv (Modal.new oneLinePatch (changedFiles 2)))
    by apply SessionFacts.new_SessionInv.
  assert (Hi : OverlayInv (createOverlayHandler oneLinePatch noHighlight
                             (Modal.new oneLinePatch (changedFiles 2)))).
  { split.
    - unfold createOverlayHandler. rewrite OverlayFacts.buildViewController_modal. exact Hs.
    - apply buildViewController_inv. }
  split; [exact Hi|].
  exact (proj1 (handleInput_keeps_overlay_invariant oneLinePatch noHighlight Picker.tokenKey
                  _ (lit "d") Hi)).
Defined.

Lemma render_keeps_fixed_height_witness :
  let h := createOverlayHandler oneLinePatch noHighlight
             (Modal.new oneLinePatch (changedFiles 2)) in
  OverlayInv h /\ 4 <= 80 /\ pickerFits h (Some 40) /\
  exists h' rows bottom,
    testRender h (Some 40) 80 = Ok (h', rows) /\ OverlayInv h' /\ modal h' = modal h /\
    len rows = 30 /\
    hd_error rows = Some (Overlay.topBorder plainFg plainBold None 80) /\
    Overlay.bottomBorder plainFg 80 = Ok bottom /\
    last rows [] = bottom.
Proof.
  cbv zeta.
  assert (Hs : SessionInv (Modal.new oneLinePatch (changedFiles 2)))
    by apply SessionFacts.new_SessionInv.
  assert (Hi : OverlayInv (createOverlayHandler oneLinePatch noHighlight
                             (Modal.new oneLinePatch (changedFiles 2)))).
  { split.
    - unfold createOverlayHandler. rewrite OverlayFacts.buildViewController_modal. exact Hs.
    - apply buildViewController_inv. }
  assert (Hw : 4 <= 80) by lia.
  assert (Hp : pickerFits (createOverlayHandler oneLinePatch noHighlight
                             (Modal.new oneLinePatch (changedFiles 2))) (Some 40)).
  { intros Ho. vm_compute in Ho. discriminate Ho. }
  split; [exact Hi|]. split; [exact Hw|]. split; [exact Hp|].
  exact (render_keeps_fixed_height plainFg plainBold sliceTruncate roundPercentZ None
           80 _ (Some 40) Hi Hw Hp).
Defined.

Lemma picker_mode_is_modal_witness :
  _filePickerOpen (modal (pickerOverlay 3)) = true /\
  exists h' effects,
    Overlay.handleInput oneLinePatch noHighlight Picker.tokenKey (pickerOverlay 3) (lit "d")
      = Ok (h', effects) /\
    _fileList (modal h') = _fileList (modal (pickerOverlay 3)).
Proof.
  assert (Ho : _filePickerOpen (modal (pickerOverlay 3)) = true) by reflexivity.
  split; [exact Ho|].
  destruct (picker_mode_is_modal oneLinePatch noHighlight Picker.tokenKey
              (pickerOverlay 3) (lit "d") Ho) as (h' & effects & He & _ & Hl & _).
  exists h', effects. split; [exact He | exact Hl].
Defined.

End OverlayInvFacts.

(** ** The item picker *)

Module PickerFacts.

Import Picker PickerSpec.

Lemma splice1_inside {A} (l : list A) c :
  0 <= c < len l ->
  splice1 l c = firstn (Z.to_nat c) l ++ skipn (S (Z.to_nat c)) l /\
  len (splice1 l c) = len l - 1.
Proof.
  intros H. unfold splice1. destruct (Z.ltb_spec c 0); [lia|]. zify_math.
  rewrite Z.min_l by lia. rewrite Nat.add_1_r. split; [reflexivity|].
  rewrite len_app. unfold len in *. rewrite length_firstn, length_skipn. lia.
Qed.

Lemma PickerInv_iff st :
  PickerInv st <->
  0 <= cursorIndex st <= Z.max 0 (len (items st) - 1) /\ 0 <= scrollOffset st.
Proof. unfold PickerInv. now rewrite SessionFacts.bounded_iff. Qed.

(** Which call a list of effects holds. *)
Ltac pick_effect Ho :=
  cbn [snd In] in Ho; repeat (destruct Ho as [Ho|Ho]);
  first [discriminate Ho | contradiction | (injection Ho as <-; eauto)].

Section Keys.

Variable matchesKey : jsstring -> Overlay.KeyId -> bool.
Variable onDismiss : option (option PickerItem -> bool).

Local Abbreviation handleInput := (Picker.handleInput matchesKey onDismiss).

Lemma cursor_item st :
  PickerInv st -> items st <> [] ->
  exists it, index (items st) (cursorIndex st) = Some it /\ In it (items st).
Proof.
  intros Hi Hne. apply PickerInv_iff in Hi. apply len_pos in Hne.
  destruct (OverlayFacts.index_Some (items st) (cursorIndex st)) as [it E]; [lia|].
  exists it. split; [exact E|]. unfold index in E.
  destruct (cursorIndex st <? 0); [discriminate|]. now apply nth_error_In in E.
Qed.

(** X23: a new picker satisfies the picker invariant (the cursor
    designates an item, or is 0 when there is none; the scroll offset is
    not negative), [handleInput] keeps it on every key, and the item it
    hands to [onSelect] or [onDismiss] is an item of the list, never
    [undefined]. *)
Theorem picker_cursor_designates_item (st : PickerState) (data : jsstring) :
  PickerInv st ->
  PickerInv (fst (fst (handleInput st data))) /\
  (forall o, In (Select o) (snd (handleInput st data)) \/
             In (DismissAsked o) (snd (handleInput st data)) ->
             exists it, o = Some it /\ In it (items st)) /\
  (forall its, PickerInv (createPickerHandler its)).
Proof.
  intros Hi. split; [|split].
  - pose proof Hi as Hi0. apply PickerInv_iff in Hi. apply PickerInv_iff.
    unfold Picker.handleInput. cbv zeta.
    destruct (items st) as [|e l] eqn:E.
    { destruct (_ || _); cbn [fst]; rewrite E; exact Hi. }
    rewrite <- E in *.
    assert (Hpos : 0 < len (items st)) by (rewrite E, OverlayFacts.len_cons;
                                           pose proof (len_nonneg l); lia).
    destruct (str_eqb data (lit "j") || matchesKey data Overlay.KeyDown).
    { cbn [fst items cursorIndex scrollOffset].
      destruct (Z.ltb_spec (cursorIndex st) (len (items st) - 1)); lia. }
    destruct (str_eqb data (lit "k") || matchesKey data Overlay.KeyUp).
    { cbn [fst items cursorIndex scrollOffset].
      destruct (Z.gtb_spec (cursorIndex st) 0); lia. }
    destruct (matchesKey data Overlay.KeyEnter); [exact Hi|].
    destruct (str_eqb data (lit "d")), onDismiss as [dismiss|];
      try (destruct (_ || _); exact Hi).
    destruct (dismiss _); [|exact Hi].
    destruct (splice1_inside (items st) (cursorIndex st)) as [_ Hlen]; [lia|].
    destruct (splice1 (items st) (cursorIndex st)) as [|e' l'] eqn:Es.
    + cbn [fst items cursorIndex scrollOffset].
      change (len (@nil PickerItem)) with 0 in *. lia.
    + cbn [fst items cursorIndex scrollOffset].
      pose proof (OverlayFacts.len_cons e' l'). pose proof (len_nonneg l').
      destruct (Z.geb_spec (cursorIndex st) (len (e' :: l'))); lia.
  - intros o Ho.
    unfold Picker.handleInput in Ho. cbv zeta in Ho.
    destruct (items st) as [|e l] eqn:E.
    { destruct (_ || _); cbn in Ho; intuition discriminate. }
    rewrite <- E in *.
    assert (Hne : items st <> []) by (rewrite E; discriminate).
    destruct (cursor_item st Hi Hne) as (it & Hit & Hin).
    rewrite Hit in Ho.
    destruct (str_eqb data (lit "j") || matchesKey data Overlay.KeyDown);
      [pick_effect Ho|].
    destruct (str_eqb data (lit "k") || matchesKey data Overlay.KeyUp);
      [pick_effect Ho|].
    destruct (matchesKey data Overlay.KeyEnter); [pick_effect Ho|].
    destruct (str_eqb data (lit "d")), onDismiss as [dismiss|];
      try (destruct (_ || _); pick_effect Ho).
    destruct (dismiss _); [|pick_effect Ho].
    destruct (splice1 (items st) (cursorIndex st)); pick_effect Ho.
  - intros its. apply PickerInv_iff. unfold createPickerHandler.
    cbn [items cursorIndex scrollOffset]. pose proof (len_nonneg its). lia.
Qed.

(** X24: when a key makes the picker call [onDismiss], the call carries
    the item under the cursor and the key is reported handled; if the
    callback answers [true] that item, and no other, leaves the list, the
    cursor keeps its position unless it was on the last item, and the
    picker asks for a redraw, or calls [onCancel] when the list has become
    empty; if it answers [false] nothing changes. *)
Theorem picker_dismiss_removes_item
    (st : PickerState) (data : jsstring) (o : option PickerItem) :
  PickerInv st ->
  In (DismissAsked o) (snd (handleInput st data)) ->
  let st' := fst (fst (handleInput st data)) in
  exists dismiss item,
    onDismiss = Some dismiss /\
    index (items st) (cursorIndex st) = Some item /\ o = Some item /\
    snd (fst (handleInput st data)) = true /\
    if dismiss o then
      items st' = firstn (Z.to_nat (cursorIndex st)) (items st)
                  ++ skipn (S (Z.to_nat (cursorIndex st))) (items st) /\
      scrollOffset st' = scrollOffset st /\
      cursorIndex st' = Z.min (cursorIndex st) (Z.max 0 (len (items st) - 2)) /\
      snd (handleInput st data)
        = [DismissAsked o; if len (items st) =? 1 then Cancel else Redraw]
    else st' = st /\ snd (handleInput st data) = [DismissAsked o].
Proof.
  intros Hi Ho. cbv zeta. revert Ho.
  unfold Picker.handleInput. cbv zeta.
  destruct (items st) as [|e l] eqn:E.
  { destruct (_ || _); cbn; intuition discriminate. }
  rewrite <- E in *.
  assert (Hne : items st <> []) by (rewrite E; discriminate).
  destruct (cursor_item st Hi Hne) as (it & Hit & Hin).
  apply PickerInv_iff in Hi. apply len_pos in Hne.
  destruct (str_eqb data (lit "j") || matchesKey data Overlay.KeyDown);
    [cbn; intuition discriminate|].
  destruct (str_eqb data (lit "k") || matchesKey data Overlay.KeyUp);
    [cbn; intuition discriminate|].
  destruct (matchesKey data Overlay.KeyEnter); [cbn; intuition discriminate|].
  destruct (str_eqb data (lit "d")), onDismiss as [dismiss|];
    try (destruct (_ || _); cbn; intuition discriminate).
  rewrite Hit.
  destruct (splice1_inside (items st) (cursorIndex st)) as [Hsp Hlen]; [lia|].
  destruct (dismiss (Some it)) eqn:Ed.
  - destruct (splice1 (items st) (cursorIndex st)) as [|e' l'] eqn:Es.
    + cbn [fst snd In items cursorIndex scrollOffset].
      intros [H|[H|[]]]; [|discriminate H]. injection H as <-.
      exists dismiss, it. rewrite Ed.
      change (len (@nil PickerItem)) with 0 in Hlen.
      replace (len (items st)) with 1 by lia. cbn [Z.eqb Pos.eqb].
      repeat split; try assumption; lia.
    + cbn [fst snd In items cursorIndex scrollOffset].
      intros [H|[H|[]]]; [|discriminate H]. injection H as <-.
      exists dismiss, it. rewrite Ed.
      pose proof (OverlayFacts.len_cons e' l'). pose proof (len_nonneg l').
      destruct (Z.eqb_spec (len (items st)) 1); [lia|].
      repeat split; try assumption.
      destruct (Z.geb_spec (cursorIndex st) (len (e' :: l'))); lia.
  - cbn [fst snd In]. intros [H|[]]. injection H as <-.
    exists dismiss, it. rewrite Ed. repeat split.
Qed.

End Keys.

Section Render.

Variable fg : jsstring -> jsstring -> jsstring.
Variable bold : jsstring -> jsstring.
Variable hostTruncateToWidth : jsstring -> Z -> jsstring.
Variable onDismiss : option (option PickerItem -> bool).
Variable optionsTitle : option jsstring.
Variable width : Z.
Hypothesis Hwidth : 2 <= width.

Local Abbreviation render :=
  (Picker.render fg bold hostTruncateToWidth onDismiss optionsTitle).

Lemma itemRows_length c it i :
  1 <= len (itemRows fg bold width c it i) <= 2 /\
  (plainItem it -> len (itemRows fg bold width c it i) = 1).
Proof.
  unfold itemRows, plainItem. cbv zeta.
  destruct (nonEmpty (description it)); rewrite ?OverlayFacts.len_cons, OverlayFacts.len_nil.
  - split; [lia | discriminate].
  - split; [lia | reflexivity].
Qed.

Lemma visibleRows_ok its c lo :
  0 <= lo -> forall k a,
  lo + Z.of_nat a + Z.of_nat k <= len its ->
  exists rows,
    visibleRows fg bold width its c (map (fun j => lo + Z.of_nat j) (seq a k)) = Ok rows /\
    Z.of_nat k <= len rows <= 2 * Z.of_nat k /\
    (Forall plainItem its -> len rows = Z.of_nat k).
Proof.
  intros Hlo. induction k as [|k IH]; intros a Hk; cbn [seq map visibleRows].
  - exists []. split; [reflexivity|].
    split; [unfold len; cbn [List.length]; lia | intros _; reflexivity].
  - destruct (OverlayFacts.index_Some its (lo + Z.of_nat a)) as [it Hit]; [lia|].
    rewrite Hit.
    destruct (IH (S a)) as (rows & -> & Hlen & Hplain); [lia|]. cbn [bind].
    eexists. split; [reflexivity|]. rewrite len_app.
    destruct (itemRows_length c it (lo + Z.of_nat a)) as [H1 H2].
    split; [lia|]. intros Hp. rewrite (Hplain Hp), H2; [lia|].
    rewrite Forall_forall in Hp. apply Hp. unfold index in Hit.
    destruct (lo + Z.of_nat a <? 0); [discriminate|]. now apply nth_error_In in Hit.
Qed.

Lemma frame_ok (st st' : PickerState) content (tuiHeight : option Z) :
  items st <> [] \/ len content = 3 ->
  exists rows,
    (let output := [topBorder fg bold optionsTitle width]
                   ++ map (padLine fg hostTruncateToWidth width) content in
     output <- padToHeight fg width output (Overlay.targetHeightOf tuiHeight) ;;
     last <- match items st with
             | [] => emptyLine fg width
             | _ => Ok (padLine fg hostTruncateToWidth width (helpText fg onDismiss))
             end ;;
     bottom <- bottomBorder fg width ;;
     Ok (st', output ++ [last] ++ [bottom])) = Ok (st', rows) /\
    len rows = Z.max (Overlay.targetHeightOf tuiHeight) (len content + 3).
Proof.
  intros Hc. cbv zeta.
  pose proof (OverlayFacts.targetHeightOf_eq tuiHeight) as HT.
  assert (He : exists e, emptyLine fg width = Ok e).
  { unfold emptyLine, Overlay.emptyLine. rewrite OverlayFacts.repeat_checked_ok by lia.
    cbn [bind]. eauto. }
  destruct He as [e He].
  assert (Hb : exists b, bottomBorder fg width = Ok b).
  { unfold bottomBorder, Overlay.bottomBorder.
    rewrite OverlayFacts.repeat_checked_ok by lia. cbn [bind]. eauto. }
  destruct Hb as [b Hb].
  assert (Hlast : exists x, match items st with
                            | [] => emptyLine fg width
                            | _ => Ok (padLine fg hostTruncateToWidth width
                                         (helpText fg onDismiss))
                            end = Ok x).
  { destruct (items st); eauto. }
  destruct Hlast as [x Hx].
  unfold padToHeight. cbn [app]. rewrite OverlayFacts.len_cons, OverlayFacts.len_map.
  rewrite Hx.
  destruct (Z.ltb_spec (1 + len content) (Overlay.targetHeightOf tuiHeight - 2)).
  - rewrite He. cbn [bind]. rewrite Hb. cbn [bind].
    eexists. split; [reflexivity|].
    repeat first [ rewrite len_app | rewrite OverlayFacts.len_cons
                 | rewrite OverlayFacts.len_map | rewrite OverlayFacts.len_repeat
                 | rewrite OverlayFacts.len_nil ].
    lia.
  - cbn [bind]. rewrite Hb. cbn [bind].
    eexists. split; [reflexivity|].
    repeat first [ rewrite len_app | rewrite OverlayFacts.len_cons
                 | rewrite OverlayFacts.len_map | rewrite OverlayFacts.len_nil ].
    lia.
Qed.

(** X25: under the picker invariant and with a width of at least 2,
    [render] does not throw, leaves items and cursor as they are, keeps
    the invariant, and scrolls so that the cursor lies in the window of
    [targetHeight - 4] items.  It returns at least [targetHeight] rows; for
    items without description it returns [targetHeight] rows when fewer
    than [targetHeight - 4] items remain from the scroll offset, and
    [targetHeight + 1] rows when the window is full. *)
Theorem picker_render_window (st : PickerState) (tuiHeight : option Z) :
  PickerInv st ->
  let T := Overlay.targetHeightOf tuiHeight in
  exists st' rows,
    render width st tuiHeight = Ok (st', rows) /\
    PickerInv st' /\ items st' = items st /\ cursorIndex st' = cursorIndex st /\
    (items st <> [] ->
     scrollOffset st' <= cursorIndex st < scrollOffset st' + (T - 4)) /\
    T <= len rows /\
    (Forall plainItem (items st) ->
     len rows = if len (items st) - scrollOffset st' <? T - 4 then T else T + 1).
Proof.
  intros Hi. cbv zeta. pose proof Hi as Hi0. apply PickerInv_iff in Hi.
  pose proof (OverlayFacts.targetHeightOf_eq tuiHeight) as HT.
  unfold Picker.render. cbv zeta.
  destruct (items st) as [|e l] eqn:E.
  - cbn [bind].
    destruct (frame_ok st st
                ([fg (lit "toolTitle") (bold (title optionsTitle)); []]
                 ++ [fg (lit "muted") (lit "No items")]) tuiHeight)
      as (rows & Hr & Hlen); [right; reflexivity|].
    rewrite E in Hr. cbv zeta in Hr. rewrite Hr.
    exists st, rows. split; [reflexivity|]. split; [exact Hi0|].
    split; [exact E|]. split; [reflexivity|]. split; [intros H; now elim H|].
    change (len ([fg (lit "toolTitle") (bold (title optionsTitle)); []]
                 ++ [fg (lit "muted") (lit "No items")])) with 3 in Hlen.
    change (len (@nil PickerItem)) with 0 in *.
    split; [lia|]. intros _.
    destruct (Z.ltb_spec (0 - scrollOffset st) (Overlay.targetHeightOf tuiHeight - 4)); lia.
  - rewrite <- E in *.
    assert (Hne : items st <> []) by (rewrite E; discriminate).
    pose proof (len_pos _ Hne) as Hpos.
    set (T := Overlay.targetHeightOf tuiHeight) in *.
    set (s' := adjustScroll (cursorIndex st) (scrollOffset st) (T - 2 - 2)).
    assert (Hs : 0 <= s' /\ s' <= cursorIndex st < s' + (T - 4)).
    { subst s'. unfold adjustScroll.
      destruct (Z.ltb_spec (cursorIndex st) (scrollOffset st)); [lia|].
      destruct (Z.geb_spec (cursorIndex st) (scrollOffset st + (T - 2 - 2))); lia. }
    unfold for_range.
    destruct (visibleRows_ok (items st) (cursorIndex st) s' (proj1 Hs)
                (Z.to_nat (Math_min (s' + (T - 2 - 2)) (len (items st)) - 1 - s' + 1)) 0%nat)
      as (vis & Hv & Hvl & Hvp).
    { rewrite Math_min_eq. lia. }
    rewrite Hv. cbn [bind].
    destruct (frame_ok st (mkPicker (items st) (cursorIndex st) s')
                ([fg (lit "toolTitle") (bold (title optionsTitle)); []] ++ vis) tuiHeight)
      as (rows & Hr & Hlen); [left; exact Hne|].
    assert (Hm : match items st with
                 | [] => emptyLine fg width
                 | _ => Ok (padLine fg hostTruncateToWidth width (helpText fg onDismiss))
                 end = Ok (padLine fg hostTruncateToWidth width (helpText fg onDismiss)))
      by (rewrite E; reflexivity).
    cbv zeta in Hr. rewrite Hm in Hr. cbn [bind] in Hr. fold T in Hr.
    eexists. exists rows. split; [exact Hr|].
    cbn [items cursorIndex scrollOffset].
    split; [apply PickerInv_iff; cbn [items cursorIndex scrollOffset]; lia|].
    split; [reflexivity|]. split; [reflexivity|].
    split; [intros _; exact (proj2 Hs)|].
    fold T in Hlen. split; [lia|]. intros Hp. specialize (Hvp Hp).
    rewrite len_app, OverlayFacts.len_cons, OverlayFacts.len_cons, OverlayFacts.len_nil in Hlen.
    rewrite Math_min_eq in Hvp.
    destruct (Z.ltb_spec (len (items st) - s') (T - 4)); lia.
Qed.

End Render.

Lemma picker_cursor_designates_item_witness :
  PickerInv (createPickerHandler (numberedItems 3)) /\
  PickerInv (fst (fst (Picker.handleInput tokenKey None
                         (createPickerHandler (numberedItems 3)) (lit "j")))).
Proof.
  assert (Hi : PickerInv (createPickerHandler (numberedItems 3))).
  { apply PickerInv_iff. vm_compute. repeat split; discriminate. }
  split; [exact Hi|].
  exact (proj1 (picker_cursor_designates_item tokenKey None _ (lit "j") Hi)).
Defined.

Lemma picker_dismiss_removes_item_witness :
  let st := mkPicker (numberedItems 3) 2 0 in
  let dismiss := Some (fun _ : option PickerItem => true) in
  PickerInv st /\
  In (DismissAsked (index (items st) 2)) (snd (Picker.handleInput tokenKey dismiss st (lit "d"))) /\
  exists d item,
    dismiss = Some d /\ index (items st) (cursorIndex st) = Some item /\
    index (items st) 2 = Some item.
Proof.
  cbv zeta.
  assert (Hi : PickerInv (mkPicker (numberedItems 3) 2 0)).
  { apply PickerInv_iff. vm_compute. repeat split; discriminate. }
  assert (Ho : In (DismissAsked (index (items (mkPicker (numberedItems 3) 2 0)) 2))
                  (snd (Picker.handleInput tokenKey
                          (Some (fun _ : option PickerItem => true))
                          (mkPicker (numberedItems 3) 2 0) (lit "d")))).
  { left. reflexivity. }
  split; [exact Hi|]. split; [exact Ho|].
  destruct (picker_dismiss_removes_item tokenKey
              (Some (fun _ : option PickerItem => true))
              (mkPicker (numberedItems 3) 2 0) (lit "d") _ Hi Ho)
    as (d & item & H1 & H2 & H3 & _).
  exists d, item. repeat split; assumption.
Defined.

Lemma picker_render_window_witness :
  2 <= 80 /\ PickerInv (mkPicker (numberedItems 30) 29 0) /\
  exists st' rows,
    Picker.render Overlay.plainFg starBold Overlay.sliceTruncate None None 80
      (mkPicker (numberedItems 30) 29 0) (Some 40) = Ok (st', rows) /\
    scrollOffset st' <= 29 < scrollOffset st' + 26.
Proof.
  assert (Hw : 2 <= 80) by lia.
  assert (Hi : PickerInv (mkPicker (numberedItems 30) 29 0)).
  { apply PickerInv_iff. vm_compute. repeat split; discriminate. }
  split; [exact Hw|]. split; [exact Hi|].
  destruct (picker_render_window Overlay.plainFg starBold Overlay.sliceTruncate None None 80 Hw
              (mkPicker (numberedItems 30) 29 0) (Some 40) Hi)
    as (st' & rows & He & _ & _ & _ & Hwin & _).
  exists st', rows. split; [exact He|].
  apply Hwin. vm_compute. discriminate.
Defined.

End PickerFacts.
